(** * vale: rule matchers, selectors, alert bookkeeping and comment control

    A shallow embedding of the parts of package core's file.go
    (src/unnamed/part_000) and of package check (src/check/check.go, with
    the declarations of the package that follow
    src/docs/getting-started/configuration.md) that decide the properties
    stated at the end of this file.

    Conventions.
    - A Go [int] is a [Z]; arithmetic wraps at 64 bits ([Go.int_wrap]).
    - A Go [string] is a sequence of bytes: a Rocq [string].
    - A Go slice is a list; an index or a slice expression out of range
      panics, and so does a write to a nil map and a failed type assertion:
      such code returns a [Go.Result].
    - A Go map is a [gmap]; reading an absent key gives the zero value.
    - Code that mutates a [*File] or a [*Manager] threads that state
      explicitly and keeps the state reached when a panic is raised.
    - Functions of other packages (the regular expression engines, YAML
      decoding, [fmt], [sort]) and of [core/util.go] are fields of the
      interfaces [CoreUtil], [CoreTables], [SortLib], [RegexpLib],
      [TextLib] and [RuleLib]; module [run] has instances of them that
      compute. The decoders of mapstructure are variables of the sections
      that use them.
    - The span of an alert is a slice of ints, and a slice refers to
      elements that other slices may refer to as well. Where a function
      writes to a slice it was given ([FindLoc], and [AddAlert] through
      it), the elements are places of a memory ([Go.memory], [Go.ints])
      that the calls thread, and the file is read through that memory
      ([core.State], [core.read]). The rule functions of check.go make the
      span of each alert and write to none: there an alert has the
      elements of its span ([core.Alert]). *)

From Stdlib Require Import ZArith Ascii String List Permutation Lia Bool.
From stdpp Require Import base option list gmap strings pretty sorting.

Local Open Scope string_scope.
Local Open Scope list_scope.
Local Open Scope Z_scope.

(* ===================================================================== *)
(** ** The Go runtime                                                     *)
(* ===================================================================== *)

Module Go.

(** The outcome of a call: a value, or a run-time panic. *)
Inductive Result (A : Type) : Type :=
| Ok (a : A)
| Panic (why : string).
Arguments Ok {A} a.
Arguments Panic {A} why.

Definition bind {A B} (r : Result A) (k : A -> Result B) : Result B :=
  match r with
  | Ok a => k a
  | Panic why => Panic why
  end.

(** [int]: 64-bit two's complement. *)
Definition int_wrap (z : Z) : Z := (z + 2 ^ 63) mod 2 ^ 64 - 2 ^ 63.
Definition int_add (a b : Z) : Z := int_wrap (a + b).
Definition int_sub (a b : Z) : Z := int_wrap (a - b).

(** [len(l)]. *)
Definition len {A} (l : list A) : Z := Z.of_nat (length l).

(** [l[i]] for reading. *)
Definition index {A} (l : list A) (i : Z) : Result A :=
  if (0 <=? i) && (i <? len l) then
    match l !! Z.to_nat i with
    | Some x => Ok x
    | None => Panic "index out of range"
    end
  else Panic "index out of range".

(** [l[i] = x]. *)
Definition set_index {A} (l : list A) (i : Z) (x : A) : Result (list A) :=
  if (0 <=? i) && (i <? len l) then Ok (<[Z.to_nat i := x]> l)
  else Panic "index out of range".

(** [len(s)] of a string: its number of bytes. *)
Definition strlen (s : string) : Z := Z.of_nat (String.length s).

(** [s[lo:hi]]. *)
Definition slice (s : string) (lo hi : Z) : Result string :=
  if (0 <=? lo) && (lo <=? hi) && (hi <=? strlen s) then
    Ok (substring (Z.to_nat lo) (Z.to_nat (hi - lo)) s)
  else Panic "slice bounds out of range".

Definition byte_val (c : ascii) : Z := Z.of_N (N_of_ascii c).

Fixpoint string_drop (n : nat) (s : string) : string :=
  match n, s with
  | O, _ => s
  | S n', String _ r => string_drop n' r
  | S _, EmptyString => EmptyString
  end.

(** *** unicode/utf8 *)

Definition is_cont (c : ascii) : bool :=
  (128 <=? byte_val c) && (byte_val c <=? 191).

(** For a leading byte of a multi-byte encoding: the size of the encoding
    and the range accepted for the second byte ([first] and [acceptRanges]
    of unicode/utf8). *)
Definition utf8_lead (b : Z) : option (nat * Z * Z) :=
  if (194 <=? b) && (b <=? 223) then Some (2%nat, 128, 191)
  else if b =? 224 then Some (3%nat, 160, 191)
  else if (225 <=? b) && (b <=? 236) then Some (3%nat, 128, 191)
  else if b =? 237 then Some (3%nat, 128, 159)
  else if (238 <=? b) && (b <=? 239) then Some (3%nat, 128, 191)
  else if b =? 240 then Some (4%nat, 144, 191)
  else if (241 <=? b) && (b <=? 243) then Some (4%nat, 128, 191)
  else if b =? 244 then Some (4%nat, 128, 143)
  else None.

(** The width [utf8.DecodeRuneInString] reports for the rune at the head
    of [s]: 0 for the empty string, 1 for an ASCII byte and for a byte that
    starts no valid encoding, else the length of the encoding. *)
Definition rune_width (s : string) : nat :=
  match s with
  | EmptyString => 0%nat
  | String b0 t =>
      if byte_val b0 <? 128 then 1%nat
      else match utf8_lead (byte_val b0) with
           | None => 1%nat
           | Some (sz, lo, hi) =>
               if (String.length s <? sz)%nat then 1%nat else
               match t with
               | String b1 t1 =>
                   if negb ((lo <=? byte_val b1) && (byte_val b1 <=? hi)) then 1%nat
                   else if (sz <=? 2)%nat then 2%nat
                   else match t1 with
                        | String b2 t2 =>
                            if negb (is_cont b2) then 1%nat
                            else if (sz <=? 3)%nat then 3%nat
                            else match t2 with
                                 | String b3 _ => if is_cont b3 then 4%nat else 1%nat
                                 | EmptyString => 1%nat
                                 end
                        | EmptyString => 1%nat
                        end
               | EmptyString => 1%nat
               end
           end
  end.

(** The runes of [s], each as the bytes that encode it. *)
Fixpoint decode_runes (fuel : nat) (s : string) : list string :=
  match fuel, s with
  | S n, String _ _ =>
      let w := rune_width s in
      substring 0 w s :: decode_runes n (string_drop w s)
  | _, _ => []
  end.

Definition runes (s : string) : list string := decode_runes (String.length s) s.

(** [utf8.RuneCountInString]. *)
Definition RuneCountInString (s : string) : Z := len (runes s).

(** *** strings *)

(** [strings.Split(s, sep)] for a separator of one byte. *)
Fixpoint Split (s : string) (sep : ascii) : list string :=
  match s with
  | EmptyString => [EmptyString]
  | String c r =>
      if Ascii.eqb c sep then EmptyString :: Split r sep
      else match Split r sep with
           | h :: t => String c h :: t
           | [] => [String c EmptyString]
           end
  end.

(** [strings.SplitAfter(s, sep)] for a separator of one byte. *)
Fixpoint SplitAfter (s : string) (sep : ascii) : list string :=
  match s with
  | EmptyString => [EmptyString]
  | String c r =>
      if Ascii.eqb c sep then String c EmptyString :: SplitAfter r sep
      else match SplitAfter r sep with
           | h :: t => String c h :: t
           | [] => [String c EmptyString]
           end
  end.

(** [strings.Join(parts, sep)]. *)
Fixpoint Join (parts : list string) (sep : string) : string :=
  match parts with
  | [] => EmptyString
  | [p] => p
  | p :: rest => p +:+ sep +:+ Join rest sep
  end.

(** [strconv.Itoa]. *)
Definition Itoa (z : Z) : string := pretty z.

(** [strings.HasPrefix]. *)
Definition HasPrefix (s prefix : string) : bool := String.prefix prefix s.

(** [strings.Contains]. *)
Definition Contains (s substr : string) : bool :=
  match String.index 0 substr s with
  | Some _ => true
  | None => false
  end.

(** [strings.Index]: the offset of the first occurrence, or -1. *)
Definition Index (s substr : string) : Z :=
  match String.index 0 substr s with
  | Some n => Z.of_nat n
  | None => -1
  end.

(** [strings.Trim(s, cutset)] for a cutset of one byte: the bytes equal
    to it are dropped from both ends. *)
Fixpoint TrimLeft (s : string) (c : ascii) : string :=
  match s with
  | String x r => if Ascii.eqb x c then TrimLeft r c else s
  | EmptyString => EmptyString
  end.

Fixpoint TrimRight (s : string) (c : ascii) : string :=
  match s with
  | EmptyString => EmptyString
  | String x r =>
      match TrimRight r c with
      | EmptyString => if Ascii.eqb x c then EmptyString else String x EmptyString
      | t => String x t
      end
  end.

Definition Trim (s : string) (c : ascii) : string := TrimRight (TrimLeft s c) c.

(** *** Slices of ints in memory

    The elements of a slice of ints that is handed from one function to
    another are in memory, at places that are numbered. [At base len] is
    the slice whose elements are at the places [base], ..., [base + len -
    1]: it has an element in common with every slice that has one of these
    places, and a write through the one is read through the other. [Made
    elements] is a slice that has just been made, as [[]int{0, 0}] is, to
    which nothing else refers: two occurrences of [Made] are two slices. A
    slice that is handed over twice, or kept and handed over, is an [At]. *)
Abbreviation memory := (gmap nat Z).

Inductive ints : Type :=
| At (base len : nat)
| Made (elements : list Z).

(** Memory that was never written holds zeros. *)
Definition load (m : memory) (p : nat) : Z := default 0 (m !! p).

Definition places (s : ints) : list nat :=
  match s with
  | At base n => seq base n
  | Made _ => []
  end.

Definition elements (m : memory) (s : ints) : list Z :=
  match s with
  | At base n => load m <$> seq base n
  | Made l => l
  end.

(** A call that reads and writes memory: the memory as the call leaves
    it, also when it panics, and its outcome. *)
Definition Run (A : Type) : Type := memory -> memory * Result A.

(** [s[i]] for reading. *)
Definition index_at (s : ints) (i : Z) : Run Z :=
  fun m => (m, index (elements m s) i).

(** [s[i] = x]; the slice is handed back. *)
Definition set_index_at (s : ints) (i : Z) (x : Z) : Run ints :=
  fun m =>
    match s with
    | At base n =>
        if (0 <=? i) && (i <? Z.of_nat n)
        then (<[(base + Z.to_nat i)%nat := x]> m, Ok s)
        else (m, Panic "index out of range")
    | Made l => (m, bind (set_index l i x) (fun l' => Ok (Made l')))
    end.

End Go.

#[global] Instance Result_ret : MRet Go.Result := @Go.Ok.
#[global] Instance Result_bind : MBind Go.Result := fun A B k r => Go.bind r k.

#[global] Instance Run_ret : MRet Go.Run := fun A a m => (m, Go.Ok a).
#[global] Instance Run_bind : MBind Go.Run := fun A B k r m =>
  match r m with
  | (m', Go.Ok a) => k a m'
  | (m', Go.Panic why) => (m', Go.Panic why)
  end.

(* ===================================================================== *)
(** ** Package regexp: the fragment the sources' patterns are written in  *)
(* ===================================================================== *)

Module regexp.

(** A parsed pattern (the operators of regexp/syntax that occur). *)
Inductive Regexp : Type :=
| EmptyMatch
| Literal (c : ascii)
| AnyCharNotNL                      (* [.] *)
| WordChar                          (* [\w], that is [0-9A-Za-z_] *)
| BeginText                         (* [^] without the flag m *)
| EndText                           (* [$] without the flag m *)
| Concat (r1 r2 : Regexp)
| Alternate (r1 r2 : Regexp)
| Plus (r : Regexp)                 (* greedy [+] *)
| Capture (i : nat) (r : Regexp).   (* the i-th parenthesis *)

(** The pattern matching the bytes of an ASCII string one after another. *)
Fixpoint Literals (s : string) : Regexp :=
  match s with
  | EmptyString => EmptyMatch
  | String c EmptyString => Literal c
  | String c r => Concat (Literal c) (Literals r)
  end.

Fixpoint NumSubexp (r : Regexp) : nat :=
  match r with
  | Concat r1 r2 | Alternate r1 r2 => NumSubexp r1 `max` NumSubexp r2
  | Plus r1 => NumSubexp r1
  | Capture i r1 => i `max` NumSubexp r1
  | _ => 0%nat
  end.

Definition is_word_byte (b : Z) : bool :=
  ((48 <=? b) && (b <=? 57)) || ((65 <=? b) && (b <=? 90))
  || ((97 <=? b) && (b <=? 122)) || (b =? 95).

Definition is_word_rune (x : string) : bool :=
  match x with
  | String c EmptyString => is_word_byte (Go.byte_val c)
  | _ => false
  end.

Definition newline : string := String (ascii_of_nat 10) EmptyString.

(** Positions of the groups matched so far: group [i] spans bytes
    [fst, snd) of the text. *)
Abbreviation Groups := (gmap nat (Z * Z)).

(** Leftmost-first backtracking from byte offset [pos], where the runes
    [s] remain; [k] continues after the part matched by [r]. *)
Fixpoint run (r : Regexp) (pos : Z) (s : list string) (c : Groups)
    (k : Z -> list string -> Groups -> option Groups) {struct r} : option Groups :=
  match r with
  | EmptyMatch => k pos s c
  | Literal a =>
      match s with
      | x :: s' => if String.eqb x (String a EmptyString) then k (pos + 1) s' c else None
      | [] => None
      end
  | AnyCharNotNL =>
      match s with
      | x :: s' => if String.eqb x newline then None else k (pos + Go.strlen x) s' c
      | [] => None
      end
  | WordChar =>
      match s with
      | x :: s' => if is_word_rune x then k (pos + 1) s' c else None
      | [] => None
      end
  | BeginText => if pos =? 0 then k pos s c else None
  | EndText => match s with [] => k pos s c | _ :: _ => None end
  | Concat r1 r2 => run r1 pos s c (fun p s' c' => run r2 p s' c' k)
  | Alternate r1 r2 =>
      match run r1 pos s c k with
      | Some m => Some m
      | None => run r2 pos s c k
      end
  | Plus r1 =>
      (fix loop (n : nat) (pos : Z) (s : list string) (c : Groups) : option Groups :=
         match n with
         | O => None
         | S n' =>
             run r1 pos s c (fun p s' c' =>
               match (if (length s' <? length s)%nat then loop n' p s' c' else None) with
               | Some m => Some m
               | None => k p s' c'
               end)
         end) (S (length s)) pos s c
  | Capture i r1 => run r1 pos s c (fun p s' c' => k p s' (<[i := (pos, p)]> c'))
  end.

(** The leftmost match starting at or after [pos]; group 0 is the match. *)
Fixpoint search (r : Regexp) (pos : Z) (s : list string) : option Groups :=
  match run r pos s ∅ (fun p _ c => Some (<[0%nat := (pos, p)]> c)) with
  | Some m => Some m
  | None =>
      match s with
      | [] => None
      | x :: s' => search r (pos + Go.strlen x) s'
      end
  end.

Definition MatchString (r : Regexp) (s : string) : bool :=
  bool_decide (is_Some (search r 0 (Go.runes s))).

(** [FindStringSubmatch]: the text of the match and of each group ("" for
    a group that took no part), or nil without a match. *)
Definition FindStringSubmatch (r : Regexp) (s : string) : list string :=
  match search r 0 (Go.runes s) with
  | None => []
  | Some m =>
      (fun i => match m !! i with
                | Some (lo, hi) => substring (Z.to_nat lo) (Z.to_nat (hi - lo)) s
                | None => EmptyString
                end) <$> seq 0 (S (NumSubexp r))
  end.

(** [FindStringSubmatchIndex] of the match found from rune position
    [pos]: 2 * (groups + 1) offsets, -1 for a group that took no part. *)
Definition submatch_index (r : Regexp) (m : Groups) : list Z :=
  mjoin ((fun i => match m !! i with
                   | Some (lo, hi) => [lo; hi]
                   | None => [-1; -1]
                   end) <$> seq 0 (S (NumSubexp r))).

(** The loop of [allMatches]: successive matches that do not overlap; an
    empty match right after the previous match is passed over. *)
Fixpoint all_matches (fuel : nat) (r : Regexp) (pos : Z) (s : list string)
    (prevMatchEnd : Z) : list (list Z) :=
  match fuel with
  | O => []
  | S fuel' =>
      match search r pos s with
      | None => []
      | Some m =>
          match m !! 0%nat with
          | None => []
          | Some (lo, hi) =>
              let found := if (hi =? lo) && (lo =? prevMatchEnd) then []
                           else [submatch_index r m] in
              (* the runes up to the end of the match are consumed; after an
                 empty match, one rune more *)
              let fix skip (p : Z) (t : list string) {struct t} : Z * list string :=
                match t with
                | x :: t' => if p <? hi then skip (p + Go.strlen x) t' else (p, t)
                | [] => (p, [])
                end in
              let '(p, t) := skip pos s in
              match (if hi =? lo then
                       match t with
                       | x :: t' => Some (p + Go.strlen x, t')
                       | [] => None
                       end
                     else Some (p, t)) with
              | Some (p', t') => found ++ all_matches fuel' r p' t' hi
              | None => found
              end
          end
      end
  end.

Definition FindAllStringSubmatchIndex (r : Regexp) (s : string) : list (list Z) :=
  all_matches (S (String.length s)) r 0 (Go.runes s) (-1).

Definition FindAllStringIndex (r : Regexp) (s : string) : list (list Z) :=
  take 2 <$> FindAllStringSubmatchIndex r s.

End regexp.

(* ===================================================================== *)
(** ** Package core (core/file.go)                                        *)
(* ===================================================================== *)

(** What core/file.go calls in core/util.go and in closestmatch. None of
    the properties below depends on what these compute. *)
Class CoreUtil : Type := {
  (** [*closestmatch.ClosestMatch] *)
  ClosestMatch : Type;
  (** [initialPosition(ctx, substring, matcher)]: where the match starts in
      [ctx] (negative when it cannot be placed) and the text found there. *)
  initialPosition : string -> string -> ClosestMatch -> Z * string;
  (** [Substitute(src, sub, char)] *)
  Substitute : string -> string -> ascii -> string * bool;
  (** [FormatMessage(msg, subs...)] *)
  FormatMessage : string -> list string -> string;
  (** [CheckPOS(loc, expected, text)] *)
  CheckPOS : list Z -> string -> string -> bool;
  (** [ToSentence(words, andOrOr)] *)
  ToSentence : list string -> string -> string;
}.

(** [sort.Sort] on a slice whose [Less] compares two elements: the slice
    as it is left, and whether a call of [Less] panicked. *)
Class SortLib : Type := {
  sort_Sort : forall A : Type, (A -> A -> Go.Result bool) -> list A -> list A * Go.Result unit;
}.

(** [AlertLevels] of core/util.go, the names of the levels by rank. *)
Class CoreTables : Type := {
  AlertLevels : list string;
}.

Module core.

(** Modelled from the spec: [StringInSlice] of core/util.go, which is not
    among the sources. §3 has "[A.Has("x")] iff "x" is any token of A" for
    the method that returns [StringInSlice(scope, s.Sections())], and §4.1
    asks that [extends] be a "member of the fixed set". *)
Definition StringInSlice (a : string) (slice : list string) : bool :=
  existsb (String.eqb a) slice.

(** Modelled from the spec: [AllStringsInSlice] of core/util.go, which is
    not among the sources. §3 has "[A.Contains(B)] iff every token of B
    appears in A in order" for the method that returns
    [AllStringsInSlice(sel.Sections(), s.Sections())]: the strings are
    looked for in [slice] from left to right, each after the one before. *)
Fixpoint AllStringsInSlice (strings slice : list string) {struct slice} : bool :=
  match strings, slice with
  | [], _ => true
  | _ :: _, [] => false
  | s :: strings', x :: slice' =>
      if String.eqb s x then AllStringsInSlice strings' slice'
      else AllStringsInSlice strings slice'
  end.

(** *** Selectors *)

Record Selector : Type := { Value : string }.

Definition Sections (s : Selector) : list string := Go.Split (Value s) ".".

Definition Contains (s sel : Selector) : bool :=
  AllStringsInSlice (Sections sel) (Sections s).

Definition Equal (s sel : Selector) : bool := String.eqb (Value s) (Value sel).

Definition Has (s : Selector) (scope : string) : bool :=
  StringInSlice scope (Sections s).

(** *** Alerts *)

Record Action : Type := {
  Action_Name : string;
  Params : list string;
}.

(** An alert holds the slice of its span. [Alert] is an alert with the
    elements of its span, as a rule function returns it and as it is read;
    where the memory that alerts share matters, the span is a [Go.ints]. *)
Record Alert_ (span : Type) : Type := {
  Action_ : Action;
  Check : string;
  Description : string;
  Line : Z;
  Link : string;
  Message : string;
  Severity : string;
  Span : span;
  Match : string;
  Hide : bool;
}.
Arguments Action_ {span} _.
Arguments Check {span} _.
Arguments Description {span} _.
Arguments Line {span} _.
Arguments Link {span} _.
Arguments Message {span} _.
Arguments Severity {span} _.
Arguments Span {span} _.
Arguments Match {span} _.
Arguments Hide {span} _.

Abbreviation Alert := (Alert_ (list Z)).

Definition with_loc {S T} (a : Alert_ S) (line : Z) (span : T) : Alert_ T :=
  {| Action_ := Action_ a; Check := Check a; Description := Description a;
     Line := line; Link := Link a; Message := Message a;
     Severity := Severity a; Span := span; Match := Match a; Hide := Hide a |}.

Definition with_text (a : Alert) (message description : string) : Alert :=
  {| Action_ := Action_ a; Check := Check a; Description := description;
     Line := Line a; Link := Link a; Message := message;
     Severity := Severity a; Span := Span a; Match := Match a; Hide := Hide a |}.

(** [ByPosition.Less] on the two elements it reads. *)
Definition Less (ai aj : Alert) : Go.Result bool :=
  if negb (Line ai =? Line aj) then mret (Line ai <? Line aj)
  else
    x ← Go.index (Span ai) 0;
    y ← Go.index (Span aj) 0;
    mret (x <? y).

Definition with_Severity (a : Alert) (severity : string) : Alert :=
  {| Action_ := Action_ a; Check := Check a; Description := Description a;
     Line := Line a; Link := Link a; Message := Message a;
     Severity := severity; Span := Span a; Match := Match a; Hide := Hide a |}.

Definition with_Check (a : Alert) (check : string) : Alert :=
  {| Action_ := Action_ a; Check := check; Description := Description a;
     Line := Line a; Link := Link a; Message := Message a;
     Severity := Severity a; Span := Span a; Match := Match a; Hide := Hide a |}.

(** [FormatAlert(a, level, name)]: the alert [a] points to afterwards. *)
Definition FormatAlert `{CoreTables} (a : Alert) (level : Z) (name : string)
    : Go.Result Alert :=
  a ← (if String.eqb (Severity a) ""
       then severity ← Go.index AlertLevels level; mret (with_Severity a severity)
       else mret a);
  mret (if String.eqb (Check a) "" then with_Check a name else a).

(** *** Comment control *)

(** [^vale (\w+.\w+) = (YES|NO)$] *)
Definition commentControlRE : regexp.Regexp :=
  let name := regexp.Concat (regexp.Plus regexp.WordChar)
                (regexp.Concat regexp.AnyCharNotNL (regexp.Plus regexp.WordChar)) in
  let flag := regexp.Alternate (regexp.Literals "YES") (regexp.Literals "NO") in
  regexp.Concat regexp.BeginText
    (regexp.Concat (regexp.Literals "vale ")
       (regexp.Concat (regexp.Capture 1 name)
          (regexp.Concat (regexp.Literals " = ")
             (regexp.Concat (regexp.Capture 2 flag) regexp.EndText)))).

Section File.
Context `{CoreUtil} `{SortLib}.

(** The fields of [File] that the functions below read or write. [NewFile]
    makes [Comments] and [history] and leaves [Alerts] and [ChkToCtx] nil:
    a nil slice is the empty list, a nil map is [None] (it reads as empty
    and panics when written). *)
Record File_ (alert : Type) : Type := {
  Alerts : list alert;
  ChkToCtx : option (gmap string string);
  Comments : gmap string bool;
  Format : string;
  Lines : list string;
  Simple : bool;
  history : gmap string Z;
  matcher : ClosestMatch;
}.
Arguments Alerts {alert} _.
Arguments ChkToCtx {alert} _.
Arguments Comments {alert} _.
Arguments Format {alert} _.
Arguments Lines {alert} _.
Arguments Simple {alert} _.
Arguments history {alert} _.
Arguments matcher {alert} _.

(** A file whose alerts are read with the elements of their spans. *)
Local Abbreviation File := (File_ Alert).

Definition set_Alerts {A B} (f : File_ A) (v : list B) : File_ B :=
  {| Alerts := v; ChkToCtx := ChkToCtx f; Comments := Comments f;
     Format := Format f; Lines := Lines f; Simple := Simple f;
     history := history f; matcher := matcher f |}.

Definition set_ChkToCtx {A} (f : File_ A) (v : option (gmap string string)) : File_ A :=
  {| Alerts := Alerts f; ChkToCtx := v; Comments := Comments f;
     Format := Format f; Lines := Lines f; Simple := Simple f;
     history := history f; matcher := matcher f |}.

Definition set_Comments (f : File) (v : gmap string bool) : File :=
  {| Alerts := Alerts f; ChkToCtx := ChkToCtx f; Comments := v;
     Format := Format f; Lines := Lines f; Simple := Simple f;
     history := history f; matcher := matcher f |}.

Definition set_history {A} (f : File_ A) (v : gmap string Z) : File_ A :=
  {| Alerts := Alerts f; ChkToCtx := ChkToCtx f; Comments := Comments f;
     Format := Format f; Lines := Lines f; Simple := Simple f;
     history := v; matcher := matcher f |}.

(** [f.Comments[key]]: the zero value for an absent key. *)
Definition comment (f : File) (key : string) : bool := default false (Comments f !! key).

(** [SortedAlerts]: the file with its alerts as the sort leaves them, and
    the slice returned. *)
Definition SortedAlerts (f : File) : File * Go.Result (list Alert) :=
  let '(sorted, r) := sort_Sort Alert Less (Alerts f) in
  (set_Alerts f sorted, _ ← r; mret sorted).

(** [FindLoc] by the elements of [loc]: what it returns, the line and
    the elements that the slice returned has, for the elements that [loc]
    has when it is called. [FindLoc_at] below is the function on the slice
    itself.

    The loop of [FindLoc] over [lines] from index [idx] on. *)
Fixpoint FindLoc_loop (lines : list string) (idx n : Z) (counter pos pad count : Z)
    (substring : string) (loc : list Z) : Go.Result (Z * list Z) :=
  match lines with
  | [] => mret (count, loc)
  | l :: rest =>
      let length := Go.RuneCountInString l in
      if Go.int_add counter length >=? pos then
        loc ← Go.set_index loc 0 (Go.int_add (Go.int_sub pos counter) pad);
        loc0 ← Go.index loc 0;
        loc ← Go.set_index loc 1
                (Go.int_sub (Go.int_add loc0 (Go.RuneCountInString substring)) 1);
        let extent := Go.int_add length pad in
        loc1 ← Go.index loc 1;
        loc ← (if loc1 >? extent then Go.set_index loc 1 extent else mret loc);
        mret (Go.int_sub count (Go.int_sub n (Go.int_add idx 1)), loc)
      else
        FindLoc_loop rest (idx + 1) n (Go.int_add counter length) pos pad count
          substring loc
  end.

Definition FindLoc {A} (f : File_ A) (ctx s m : string) (pad count : Z) (loc : list Z)
    : Go.Result (Z * list Z) :=
  let '(pos, substring) := initialPosition ctx m (matcher f) in
  if pos <? 0 then mret (pos, [0; 0])
  else
    let lines := if String.eqb (Format f) "markup" && negb (Simple f)
                 then Lines f
                 else Go.SplitAfter ctx (ascii_of_nat 10) in
    FindLoc_loop lines 0 (Go.len lines) 0 pos pad count substring loc.

(** [FindLoc] as it runs on the slice [loc] of its caller: the loop
    writes the start and the end of the span into the elements of [loc]
    and hands [loc] back. *)
Fixpoint FindLoc_loop_at (lines : list string) (idx n : Z) (counter pos pad count : Z)
    (substring : string) (loc : Go.ints) : Go.Run (Z * Go.ints) :=
  match lines with
  | [] => mret (count, loc)
  | l :: rest =>
      let length := Go.RuneCountInString l in
      if Go.int_add counter length >=? pos then
        loc ← Go.set_index_at loc 0 (Go.int_add (Go.int_sub pos counter) pad);
        loc0 ← Go.index_at loc 0;
        loc ← Go.set_index_at loc 1
                (Go.int_sub (Go.int_add loc0 (Go.RuneCountInString substring)) 1);
        let extent := Go.int_add length pad in
        loc1 ← Go.index_at loc 1;
        loc ← (if loc1 >? extent then Go.set_index_at loc 1 extent else mret loc);
        mret (Go.int_sub count (Go.int_sub n (Go.int_add idx 1)), loc)
      else
        FindLoc_loop_at rest (idx + 1) n (Go.int_add counter length) pos pad count
          substring loc
  end.

(** A match that cannot be placed gets a slice of its own, [[]int{0, 0}];
    [loc] is then left as it was. *)
Definition FindLoc_at {A} (f : File_ A) (ctx s m : string) (pad count : Z)
    (loc : Go.ints) : Go.Run (Z * Go.ints) :=
  let '(pos, substring) := initialPosition ctx m (matcher f) in
  if pos <? 0 then mret (pos, Go.Made [0; 0])
  else
    let lines := if String.eqb (Format f) "markup" && negb (Simple f)
                 then Lines f
                 else Go.SplitAfter ctx (ascii_of_nat 10) in
    FindLoc_loop_at lines 0 (Go.len lines) 0 pos pad count substring loc.

(** The key under which [AddAlert] records an alert in [history]. *)
Definition history_entry (line span0 : Z) (check : string) : string :=
  Go.Join [Go.Itoa line; Go.Itoa span0; check] "-".

(** The first statement of [AddAlert]: the context stored for the check,
    when there is one, replaces [ctx]. *)
Definition context_for {A S} (f : File_ A) (a : Alert_ S) (ctx : string) : string :=
  match ChkToCtx f ≫= (.!! Check a) with
  | Some old => old
  | None => ctx
  end.

(** A file in memory: the alerts of the file hold the slices of their
    spans, whose elements are in [cells]. *)
Record State : Type := {
  cells : Go.memory;
  file : File_ (Alert_ Go.ints);
}.

(** The alert as it is read: with the elements of its span. *)
Definition read_alert (m : Go.memory) (a : Alert_ Go.ints) : Alert :=
  with_loc a (Line a) (Go.elements m (Span a)).

(** The file as it is read. *)
Definition read (s : State) : File :=
  set_Alerts (file s) (read_alert (cells s) <$> Alerts (file s)).

(** [AddAlert] gets the alert [a] by value and with it the slice of its
    span: [FindLoc] writes into the elements of that slice, and the alert
    appended to [f.Alerts] holds the same slice. *)
Definition AddAlert (s : State) (a : Alert_ Go.ints) (ctx txt : string) (lines pad : Z)
    : State * Go.Result unit :=
  let f := file s in
  let ctx := context_for f a ctx in
  match FindLoc_at f ctx txt (Match a) pad lines (Span a) (cells s) with
  | (m, Go.Panic why) => ({| cells := m; file := f |}, Go.Panic why)
  | (m, Go.Ok (line, span)) =>
      let a := with_loc a line span in
      match Go.index_at (Span a) 0 m with
      | (m, Go.Panic why) => ({| cells := m; file := f |}, Go.Panic why)
      | (m, Go.Ok span0) =>
          if span0 >? 0 then
            match ChkToCtx f with
            | None =>
                ({| cells := m; file := f |},
                 Go.Panic "assignment to entry in nil map")
            | Some c =>
                let f := set_ChkToCtx f
                           (Some (<[Check a := fst (Substitute ctx (Match a) "#")]> c)) in
                if negb (Hide a) then
                  let entry := history_entry (Line a) span0 (Check a) in
                  match history f !! entry with
                  | Some _ => ({| cells := m; file := f |}, mret ())
                  | None =>
                      ({| cells := m;
                          file := set_history (set_Alerts f (Alerts f ++ [a]))
                                    (<[entry := 1]> (history f)) |}, mret ())
                  end
                else ({| cells := m; file := f |}, mret ())
            end
          else ({| cells := m; file := f |}, mret ())
      end
  end.

(** The arguments of one call of [AddAlert]. *)
Record AddAlertCall : Type := {
  call_alert : Alert_ Go.ints;
  call_ctx : string;
  call_txt : string;
  call_lines : Z;
  call_pad : Z;
}.

(** A run of calls of [AddAlert] on one file, each on the state the one
    before left (also when it panicked and the caller recovered). *)
Definition AddAlerts (s : State) (calls : list AddAlertCall) : State :=
  foldl (fun s c => (AddAlert s (call_alert c) (call_ctx c) (call_txt c)
                       (call_lines c) (call_pad c)).1) s calls.

Definition UpdateComments (f : File) (comment : string) : File :=
  if String.eqb comment "vale off" then
    set_Comments f (<["off" := true]> (Comments f))
  else if String.eqb comment "vale on" then
    set_Comments f (<["off" := false]> (Comments f))
  else if regexp.MatchString commentControlRE comment then
    let check := regexp.FindStringSubmatch commentControlRE comment in
    if Go.len check =? 3 then
      match check with
      | [_; name; flag] =>
          set_Comments f (<[name := String.eqb flag "NO"]> (Comments f))
      | _ => f
      end
    else f
  else f.

Definition QueryComments (f : File) (check : string) : bool :=
  if negb (comment f "off") then
    match Comments f !! check with
    | Some status => status
    | None => comment f "off"
    end
  else comment f "off".

(** [ResetComments]: every entry but the one of "off" is set to false. *)
Definition ResetComments (f : File) : File :=
  set_Comments f
    (map_imap (fun check status =>
                 Some (if negb (String.eqb check "off") then false else status))
       (Comments f)).

End File.

Arguments Alerts {_ alert} _.
Arguments ChkToCtx {_ alert} _.
Arguments Comments {_ alert} _.
Arguments Format {_ alert} _.
Arguments Lines {_ alert} _.
Arguments Simple {_ alert} _.
Arguments history {_ alert} _.
Arguments matcher {_ alert} _.

(** [File]: a file whose alerts are read with the elements of their
    spans. *)
Abbreviation File := (File_ Alert).

End core.

(* ===================================================================== *)
(** ** Package check (check/check.go, check/definition.go)                *)
(* ===================================================================== *)

(** A value held in an [interface{}] after YAML decoding (floating point
    values are left out). *)
#[warnings="-register-all"]
Inductive iface : Type :=
| INil
| IBool (b : bool)
| IInt (z : Z)
| IString (s : string)
| ISlice (l : list iface)
| IMap (m : list (iface * iface)).

(** [error]: [None] is nil. *)
Abbreviation error := (option string).

(** The compiled patterns of github.com/jdkato/regexp that the rule
    functions are handed, and the library calls made on them. *)
Class RegexpLib : Type := {
  CompiledRegexp : Type;
  re_MatchString : CompiledRegexp -> string -> bool;
  (** [r.FindAllStringIndex(txt, -1)] *)
  re_FindAllStringIndex : CompiledRegexp -> string -> list (list Z);
  (** [r.FindAllStringSubmatchIndex(txt, -1)] *)
  re_FindAllStringSubmatchIndex : CompiledRegexp -> string -> list (list Z);
}.

(** Calls into [strings], [fmt] and [yaml]. *)
Class TextLib : Type := {
  TrimSpace : string -> string;
  (** [fmt.Sprintf], which [fmt.Errorf] wraps in an error *)
  Sprintf : string -> list string -> string;
  (** [yaml.Unmarshal(file, &generic)]: the error, or the decoded map *)
  yaml_Unmarshal : string -> string + gmap string iface;
}.

(** A word as package tag of prose hands it over: [tag.Token]. *)
Record tag_Token : Type := {
  Token_Tag : string;
  Token_Text : string;
}.

(** What the other rule functions call: in core/util.go ([TextToTokens],
    [IntInSlice], [IsLetter], [CheckError]), in [strings] and in the
    regular expression library ([regexp.MatchString(pattern, s)], which
    compiles its pattern and answers with an error when it cannot). *)
Class RuleLib : Type := {
  TextToTokens : string -> bool -> list tag_Token;
  IntInSlice : Z -> list Z -> bool;
  IsLetter : string -> bool;
  CheckError : error -> bool -> bool;
  ToLower : string -> string;
  regexp_MatchString : string -> string -> bool * error;
}.

Module check.

(** The ten extension points, in the order of the source. *)
Definition extensionPoints : list string :=
  [ "capitalization"; "conditional"; "consistency"; "existence"; "occurrence";
    "repetition"; "substitution"; "readability"; "spelling"; "sequence" ].

Record Definition_ : Type := {
  Action : core.Action;
  Code : bool;
  Description : string;
  Extends : string;
  Level : string;
  Limit : Z;
  Link : string;
  Message : string;
  Name : string;
  Scope : string;
}.

Record Substitution : Type := {
  Substitution_Definition : Definition_;
  Substitution_Ignorecase : bool;
  Nonword : bool;
  Swap : gmap string string;
  POS : string;
}.

Record Occurrence : Type := {
  Occurrence_Definition : Definition_;
  Occurrence_Ignorecase : bool;
  Max : Z;
  Min : Z;
  Token : string;
}.

Definition with_Params (d : Definition_) (params : list string) : Definition_ :=
  {| Action := {| core.Action_Name := core.Action_Name (Action d); core.Params := params |};
     Code := Code d; Description := Description d; Extends := Extends d;
     Level := Level d; Limit := Limit d; Link := Link d; Message := Message d;
     Name := Name d; Scope := Scope d |}.

Section Rules.
Context `{CoreUtil} `{RegexpLib} `{TextLib}.

Definition formatMessages (msg desc : string) (subs : list string) : string * string :=
  (FormatMessage msg subs, FormatMessage desc subs).

Definition makeAlert (chk : Definition_) (loc : list Z) (txt : string)
    : Go.Result core.Alert :=
  lo ← Go.index loc 0;
  hi ← Go.index loc 1;
  match_ ← Go.slice txt lo hi;
  let '(message, description) :=
    formatMessages (Message chk) (Description chk) [match_] in
  mret {| core.Action_ := Action chk; core.Check := Name chk;
          core.Description := description; core.Line := 0; core.Link := Link chk;
          core.Message := message; core.Severity := Level chk; core.Span := loc;
          core.Match := match_; core.Hide := false |}.

Definition checkOccurrence (txt : string) (chk : Occurrence) (f : core.File)
    (r : CompiledRegexp) : Go.Result (list core.Alert) :=
  let locs := re_FindAllStringIndex r txt in
  let occurrences := Go.len locs in
  if (occurrences >? Max chk) || (occurrences <? Min chk) then
    loc ← Go.index locs 0;
    a ← makeAlert (Occurrence_Definition chk) loc txt;
    mret [core.with_text a (Message (Occurrence_Definition chk))
            (Description (Occurrence_Definition chk))]
  else mret [].

(** What the loops of [checkSubstitution] carry from one turn to the next:
    the alerts so far, [pos], and [chk] (whose [Action.Params] is set once). *)
Record SubstState : Type := {
  alerts : list core.Alert;
  pos : bool;
  chk_ : Definition_;
}.

(** One turn of the inner loop: [mat] is [submat[idx]]. *)
Definition substitution_step (txt : string) (POS_ : string) (repl : list string)
    (submat : list Z) (idx mat : Z) (st : SubstState) : Go.Result SubstState :=
  if negb (mat =? -1) && (idx >? 0) && (Z.rem idx 2 =? 0) then
    hi ← Go.index submat (idx + 1);
    let loc := [mat; hi] in
    expected ← Go.index repl (Z.quot idx 2 - 1);
    found ← Go.slice txt mat hi;
    let observed := TrimSpace found in
    if negb (String.eqb expected observed) then
      let pos := if negb (String.eqb POS_ "") then CheckPOS loc POS_ txt else pos st in
      let chk := chk_ st in
      let '(chk, expected) :=
        if String.eqb (core.Action_Name (Action chk)) "replace"
           && (Go.len (core.Params (Action chk)) =? 0)
        then let params := Go.Split expected "|" in
             (with_Params chk params, ToSentence params "or")
        else (chk, expected) in
      let '(message, description) :=
        formatMessages (Message chk) (Description chk) [expected; observed] in
      let a := {| core.Action_ := Action chk; core.Check := Name chk;
                  core.Description := description; core.Line := 0;
                  core.Link := Link chk; core.Message := message;
                  core.Severity := Level chk; core.Span := loc;
                  core.Match := observed; core.Hide := pos |} in
      mret {| alerts := alerts st ++ [a]; pos := pos; chk_ := chk |}
    else mret st
  else mret st.

(** [for idx, mat := range submat], from index [idx] on. *)
Fixpoint substitution_inner (txt POS_ : string) (repl : list string)
    (submat : list Z) (rest : list Z) (idx : Z) (st : SubstState)
    : Go.Result SubstState :=
  match rest with
  | [] => mret st
  | mat :: rest' =>
      st' ← substitution_step txt POS_ repl submat idx mat st;
      substitution_inner txt POS_ repl submat rest' (idx + 1) st'
  end.

(** [for _, submat := range r.FindAllStringSubmatchIndex(txt, -1)]. *)
Fixpoint substitution_outer (txt POS_ : string) (repl : list string)
    (submats : list (list Z)) (st : SubstState) : Go.Result SubstState :=
  match submats with
  | [] => mret st
  | submat :: rest =>
      st' ← substitution_inner txt POS_ repl submat submat 0 st;
      substitution_outer txt POS_ repl rest st'
  end.

Definition checkSubstitution (txt : string) (chk : Substitution) (f : core.File)
    (r : CompiledRegexp) (repl : list string) : Go.Result (list core.Alert) :=
  let st := {| alerts := []; pos := false; chk_ := Substitution_Definition chk |} in
  if negb (re_MatchString r txt) then mret (alerts st)
  else
    st' ← substitution_outer txt (POS chk) repl
            (re_FindAllStringSubmatchIndex r txt) st;
    mret (alerts st').

End Rules.

(** *** The other rule functions *)

Record Existence : Type := {
  Existence_Definition : Definition_;
  Append : bool;
  Existence_Ignorecase : bool;
  Existence_Nonword : bool;
  Raw : list string;
  Existence_Tokens : list string;
}.

Record Repetition : Type := {
  Repetition_Definition : Definition_;
  Repetition_Max : Z;
  Repetition_Ignorecase : bool;
  Alpha : bool;
  Repetition_Tokens : list string;
}.

Section MoreRules.
Context `{CoreUtil} `{RegexpLib} `{TextLib} `{RuleLib}.

Record NLPToken : Type := {
  NLPToken_Pattern : string;
  Negate : bool;
  NLPToken_Tag : string;
  Skip : Z;
  re : option CompiledRegexp;      (* nil until the pattern is compiled *)
  optional : bool;
}.

Record Sequence : Type := {
  Sequence_Definition : Definition_;
  Sequence_Ignorecase : bool;
  Sequence_Tokens : list NLPToken;
  needsTagging : bool;
  Sequence_history : list Z;
}.

Record Capitalization : Type := {
  Capitalization_Definition : Definition_;
  Capitalization_Match : string;
  Capitalization_Check : string -> list string -> option CompiledRegexp -> bool;
  Style : string;
  Exceptions : list string;
  Indicators : list string;
  exceptRe : option CompiledRegexp;
}.

Definition tokensMatch (token : NLPToken) (word : tag_Token) : bool :=
  let '(failedTag, err) := regexp_MatchString (NLPToken_Tag token) (Token_Tag word) in
  if CheckError err false then
    let failedTag := negb failedTag in
    let failedTok :=
      match re token with
      | Some r => Bool.eqb (re_MatchString r (Token_Text word)) (Negate token)
      | None => false
      end in
    if (String.eqb (NLPToken_Pattern token) "" && failedTag)
       || (String.eqb (NLPToken_Tag token) "" && failedTok)
       || (negb (String.eqb (NLPToken_Tag token) "")
           && negb (String.eqb (NLPToken_Pattern token) ""))
          && (failedTag || failedTok)
    then false
    else true
  else false.

(** The first word that is the target and whose index is not in the
    history: [for jdx, tok := range words], from index [jdx] on. *)
Fixpoint sequence_anchor (target : string) (history : list Z) (words : list tag_Token)
    (jdx : Z) : option Z :=
  match words with
  | [] => None
  | tok :: rest =>
      if String.eqb (Token_Text tok) target && negb (IntInSlice jdx history)
      then Some jdx
      else sequence_anchor target history rest (jdx + 1)
  end.

(** The walk to the left of the anchor, [for i := 1; idx-i >= 0; i++], with
    at most [n] turns left: [None] when the walk returns the empty slice,
    else the text with which the function goes on. *)
Fixpoint sequence_left (n : nat) (i idx jdx : Z) (toks : list NLPToken)
    (words : list tag_Token) (text : list string) : Go.Result (option (list string)) :=
  match n with
  | O => mret (Some text)
  | S n' =>
      if Go.int_sub idx i >=? 0 then
        word ← Go.index words (Go.int_sub jdx i);
        let text := Token_Text word :: text in
        tok ← Go.index toks (Go.int_sub idx i);
        let mat := tokensMatch tok word in
        let opt := optional tok in
        if negb mat && negb opt then mret None
        else if mat && opt then mret (Some text)
        else sequence_left n' (Go.int_add i 1) idx jdx toks words text
      else mret (Some text)
  end.

(** The walk to the right, [for i := 1; idx+i < sizeT; i++]. *)
Fixpoint sequence_right (n : nat) (i idx jdx index : Z) (toks : list NLPToken)
    (words : list tag_Token) (text : list string) : Go.Result (option (list string)) :=
  match n with
  | O => mret (Some text)
  | S n' =>
      if Go.int_add idx i <? Go.len toks then
        text ← (if i =? 1
                then first ← Go.index words index; mret (text ++ [Token_Text first])
                else mret text);
        word ← Go.index words (Go.int_add jdx i);
        let text := text ++ [Token_Text word] in
        tok ← Go.index toks (Go.int_add idx i);
        let mat := tokensMatch tok word in
        let opt := optional tok in
        if negb mat && negb opt then mret None
        else if mat && opt then mret (Some text)
        else sequence_right n' (Go.int_add i 1) idx jdx index toks words text
      else mret (Some text)
  end.

Definition sequenceMatches (idx : Z) (chk : Sequence) (target src : string)
    : Go.Result (list string * Z) :=
  let toks := Sequence_Tokens chk in
  let sizeT := Go.len toks in
  let words := TextToTokens src (needsTagging chk) in
  match sequence_anchor target (Sequence_history chk) words 0 with
  | None => mret ([], 0)
  | Some jdx =>
      let index := jdx in
      left ← (if idx >? 0
              then sequence_left (S (Z.to_nat idx)) 1 idx jdx toks words []
              else mret (Some []));
      match left with
      | None => mret ([], index)
      | Some text =>
          right ← (if idx <? sizeT
                   then sequence_right (S (Z.to_nat sizeT)) 1 idx jdx index toks words text
                   else mret (Some text));
          match right with
          | None => mret ([], index)
          | Some text => mret (text, index)
          end
      end
  end.

(** The loop of [stepsToString], with [s] built so far. *)
Fixpoint stepsToString_loop (steps : list string) (s : string) : string :=
  match steps with
  | [] => s
  | step :: rest =>
      stepsToString_loop rest
        (if Go.HasPrefix step "'" then s +:+ step else s +:+ " " +:+ step)
  end.

Definition stepsToString (steps : list string) : string :=
  Go.Trim (stepsToString_loop steps "") " ".

(** The loop of [checkExistence] over the matches. *)
Fixpoint checkExistence_loop (txt : string) (chk : Existence) (locs : list (list Z))
    (alerts : list core.Alert) : Go.Result (list core.Alert) :=
  match locs with
  | [] => mret alerts
  | loc :: rest =>
      a ← makeAlert (Existence_Definition chk) loc txt;
      checkExistence_loop txt chk rest (alerts ++ [a])
  end.

Definition checkExistence (txt : string) (chk : Existence) (f : core.File)
    (r : CompiledRegexp) : Go.Result (list core.Alert) :=
  checkExistence_loop txt chk (re_FindAllStringIndex r txt) [].

(** What the loop of [checkRepetition] carries from one match to the
    next. *)
Record RepState : Type := {
  rep_alerts : list core.Alert;
  prev : string;
  ploc : list Z;
  count : Z;
}.

Definition repetition_step (txt : string) (chk : Repetition) (loc : list Z)
    (st : RepState) : Go.Result RepState :=
  lo ← Go.index loc 0;
  hi ← Go.index loc 1;
  found ← Go.slice txt lo hi;
  let curr := TrimSpace found in
  let hit :=
    if Repetition_Ignorecase chk
    then String.eqb (ToLower curr) (ToLower (prev st)) && negb (String.eqb curr "")
    else String.eqb curr (prev st) && negb (String.eqb curr "") in
  let hit := hit && (negb (Alpha chk) || IsLetter curr) in
  let count := if hit then Go.int_add (count st) 1 else count st in
  '(alerts, count) ←
    (if hit && (count >? Repetition_Max chk) then
       plo ← Go.index (ploc st) 0;
       hi ← Go.index loc 1;
       between ← Go.slice txt plo hi;
       if negb (Go.Contains between regexp.newline) then
         plo ← Go.index (ploc st) 0;
         hi ← Go.index loc 1;
         let floc := [plo; hi] in
         a ← makeAlert (Repetition_Definition chk) floc txt;
         let '(message, description) :=
           formatMessages (Message (Repetition_Definition chk))
             (Description (Repetition_Definition chk)) [curr] in
         mret (rep_alerts st ++ [core.with_text a message description], 0)
       else mret (rep_alerts st, count)
     else mret (rep_alerts st, count));
  mret {| rep_alerts := alerts; prev := curr; ploc := loc; count := count |}.

Fixpoint repetition_loop (txt : string) (chk : Repetition) (locs : list (list Z))
    (st : RepState) : Go.Result RepState :=
  match locs with
  | [] => mret st
  | loc :: rest =>
      st' ← repetition_step txt chk loc st;
      repetition_loop txt chk rest st'
  end.

Definition checkRepetition (txt : string) (chk : Repetition) (f : core.File)
    (r : CompiledRegexp) : Go.Result (list core.Alert) :=
  st ← repetition_loop txt chk (re_FindAllStringIndex r txt)
         {| rep_alerts := []; prev := ""; ploc := []; count := 0 |};
  mret (rep_alerts st).

Definition checkCapitalization (txt : string) (chk : Capitalization) (f : core.File)
    : Go.Result (list core.Alert) :=
  if negb (Capitalization_Check chk txt (Exceptions chk) (exceptRe chk)) then
    a ← makeAlert (Capitalization_Definition chk) [0; Go.strlen txt] txt;
    mret [a]
  else mret [].

Definition with_history (chk : Sequence) (history : list Z) : Sequence :=
  {| Sequence_Definition := Sequence_Definition chk;
     Sequence_Ignorecase := Sequence_Ignorecase chk;
     Sequence_Tokens := Sequence_Tokens chk; needsTagging := needsTagging chk;
     Sequence_history := history |}.

(** The loop of [checkSequence] over the matches of the token at [idx]:
    [chk] carries the history from one match to the next. *)
Fixpoint checkSequence_matches (txt : string) (idx : Z) (locs : list (list Z))
    (chk : Sequence) (alerts : list core.Alert) : Go.Result (list core.Alert) :=
  match locs with
  | [] => mret alerts
  | loc :: rest =>
      lo ← Go.index loc 0;
      hi ← Go.index loc 1;
      target ← Go.slice txt lo hi;
      '(steps, index) ← sequenceMatches idx chk target txt;
      let chk := with_history chk (Sequence_history chk ++ [index]) in
      let alerts :=
        if Go.len steps >? 0 then
          let seq := stepsToString steps in
          let idx := Go.Index txt seq in
          let '(message, description) :=
            formatMessages (Message (Sequence_Definition chk))
              (Description (Sequence_Definition chk)) steps in
          alerts ++ [ {| core.Action_ := Action (Sequence_Definition chk);
                         core.Check := Name (Sequence_Definition chk);
                         core.Description := description; core.Line := 0;
                         core.Link := Link (Sequence_Definition chk);
                         core.Message := message;
                         core.Severity := Level (Sequence_Definition chk);
                         core.Span := [idx; Go.int_add idx (Go.strlen seq)];
                         core.Match := seq; core.Hide := false |} ]
        else alerts in
      checkSequence_matches txt idx rest chk alerts
  end.

(** [for idx, tok := range chk.Tokens], from index [idx] on: the first
    token that is not negated and has a pattern is the one whose matches
    are looked at; its pattern is nil when it could not be compiled. *)
Fixpoint checkSequence_tokens (txt : string) (chk : Sequence) (toks : list NLPToken)
    (idx : Z) : Go.Result (list core.Alert) :=
  match toks with
  | [] => mret []
  | tok :: rest =>
      if negb (Negate tok) && negb (String.eqb (NLPToken_Pattern tok) "") then
        match re tok with
        | None => Go.Panic "invalid memory address or nil pointer dereference"
        | Some r => checkSequence_matches txt idx (re_FindAllStringIndex r txt) chk []
        end
      else checkSequence_tokens txt chk rest (idx + 1)
  end.

Definition checkSequence (txt : string) (chk : Sequence) (f : core.File)
    : Go.Result (list core.Alert) :=
  checkSequence_tokens txt chk (Sequence_Tokens chk) 0.

End MoreRules.

(** *** Loading a rule definition *)

Section Manager.
Context `{CoreUtil} `{RegexpLib} `{TextLib}.

Definition ruleFn : Type := string -> core.File -> core.File * Go.Result (list core.Alert).

Record Check : Type := {
  Check_Code : bool;
  Check_Extends : string;
  Check_Level : Z;
  Check_Limit : Z;
  Pattern : string;
  Rule : ruleFn;
  Check_Scope : core.Selector;
}.

(** Of [core.Config], the field [addCheck] reads. *)
Record Config : Type := {
  RuleToLevel : gmap string string;
}.

Record Manager : Type := {
  AllChecks : gmap string Check;
  Config_ : Config;
  Scopes : gset string;
}.

Definition set_Scopes (mgr : Manager) (v : gset string) : Manager :=
  {| AllChecks := AllChecks mgr; Config_ := Config_ mgr; Scopes := v |}.

(** [v.(string)] *)
Definition assert_string (v : iface) : Go.Result string :=
  match v with
  | IString s => mret s
  | _ => Go.Panic "interface conversion: interface {} is not string"
  end.

Definition validateDefinition (generic : gmap string iface) (name : string)
    : Go.Result error :=
  let msg := name +:+ ": %s!" in
  match generic !! "extends" with
  | None => mret (Some (Sprintf msg ["missing extension point"]))
  | Some point =>
      p ← assert_string point;
      if negb (core.StringInSlice p extensionPoints) then
        mret (Some (Sprintf msg ["unknown extension point"]))
      else
        match generic !! "message" with
        | None => mret (Some (Sprintf msg ["missing message"]))
        | Some _ => mret None
        end
  end.

(** A value of [checkBuilders]: it decodes [generic] into the rule's
    structure and registers the rule with [mgr]; it may delete keys of
    [generic], and its result is not read by [addCheck]. *)
Definition builder : Type :=
  string -> gmap string iface -> Manager -> gmap string iface * Manager * Go.Result unit.

(** [checkBuilders] has one entry for each extension point; [builders]
    gives the function stored under a key. *)
Definition checkBuilders (builders : string -> builder) (extends : string)
    : option builder :=
  if bool_decide (extends ∈ extensionPoints) then Some (builders extends) else None.

Definition addCheck (builders : string -> builder) (mgr : Manager)
    (file : string) (chkName : string) : Manager * Go.Result error :=
  match yaml_Unmarshal file with
  | inl err => (mgr, mret (Some (Sprintf "%s: %s" [chkName; err])))
  | inr generic =>
      match validateDefinition generic chkName with
      | Go.Panic why => (mgr, Go.Panic why)
      | Go.Ok (Some defErr) => (mgr, mret (Some defErr))
      | Go.Ok None =>
          let generic := <["name" := IString chkName]> generic in
          let generic :=
            match RuleToLevel (Config_ mgr) !! chkName with
            | Some level => <["level" := IString level]> generic
            | None =>
                match generic !! "level" with
                | Some _ => generic
                | None => <["level" := IString "warning"]> generic
                end
            end in
          let generic :=
            match generic !! "scope" with
            | Some _ => generic
            | None => <["scope" := IString "text"]> generic
            end in
          match assert_string (default INil (generic !! "extends")) with
          | Go.Panic why => (mgr, Go.Panic why)
          | Go.Ok extends =>
              let '(generic, mgr, built) :=
                match checkBuilders builders extends with
                | Some build => build chkName generic mgr
                | None => (generic, mgr, mret ())
                end in
              match built with
              | Go.Panic why => (mgr, Go.Panic why)
              | Go.Ok _ =>
                  match (scope ← assert_string (default INil (generic !! "scope"));
                         Go.index (Go.Split scope ".") 0) with
                  | Go.Panic why => (mgr, Go.Panic why)
                  | Go.Ok base => (set_Scopes mgr ({[base]} ∪ Scopes mgr), mret None)
                  end
              end
          end
      end
  end.

Definition AddCheck (builders : string -> builder) (mgr : Manager)
    (content : string) (chkName : string) : Manager * Go.Result error :=
  addCheck builders mgr content chkName.

End Manager.

(** *** Building a pattern *)

Definition ignoreCase : string := "(?i)".
Definition wordTemplate : string := "(?m)\b(?:%s)\b".
Definition nonwordTemplate : string := "(?m)(?:%s)".

Definition makeRegexp (template : string) (noCase : bool) (word : unit -> bool)
    (callback : unit -> string) (append : bool) : string :=
  let regex := "" in
  let regex :=
    if word tt then
      if negb (String.eqb template "") then regex +:+ template
      else regex +:+ wordTemplate
    else regex +:+ nonwordTemplate in
  let regex := if append then regex +:+ callback tt else callback tt +:+ regex in
  if noCase then ignoreCase +:+ regex else regex.

(** *** The builder of sequence rules: [checkBuilders["sequence"]] *)

Section Builders.
Context `{CoreUtil} `{RegexpLib} `{TextLib} `{RuleLib}.

(** [mapstructure.Decode(token, &tok)] on an empty token, its error
    dropped as the builder drops it. *)
Variable decode_token : iface -> NLPToken.
(** [mapstructure.Decode(generic, &def)]: the rule as it is left, and the
    error. *)
Variable decode_Sequence : gmap string iface -> Sequence -> Sequence * error.
(** [mgr.addSequenceCheck(name, def)], of which nothing is asked below. *)
Variable addSequenceCheck : string -> Sequence -> Manager -> Manager * Go.Result unit.

Definition with_optional (tok : NLPToken) (v : bool) : NLPToken :=
  {| NLPToken_Pattern := NLPToken_Pattern tok; Negate := Negate tok;
     NLPToken_Tag := NLPToken_Tag tok; Skip := Skip tok; re := re tok; optional := v |}.

(** [Sequence{}] with its tokens set. *)
Definition sequence_of (tokens : list NLPToken) : Sequence :=
  {| Sequence_Definition :=
       {| Action := {| core.Action_Name := ""; core.Params := [] |}; Code := false;
          Description := ""; Extends := ""; Level := ""; Limit := 0; Link := "";
          Message := ""; Name := ""; Scope := "" |};
     Sequence_Ignorecase := false; Sequence_Tokens := tokens;
     needsTagging := false; Sequence_history := [] |}.

(** [for i := tok.Skip; i > 0; i--], with at most [n] turns left. *)
Fixpoint skip_loop (n : nat) (i : Z) (tok : NLPToken) (tokens : list NLPToken)
    : list NLPToken :=
  match n with
  | O => tokens
  | S n' =>
      if i >? 0 then skip_loop n' (Go.int_sub i 1) tok (tokens ++ [tok]) else tokens
  end.

(** [for _, token := range generic["tokens"].([]interface{})]. *)
Fixpoint sequence_tokens (tokens : list iface) (acc : list NLPToken) : list NLPToken :=
  match tokens with
  | [] => acc
  | token :: rest =>
      let tok := decode_token token in
      let acc := acc ++ [tok] in
      let tok := with_optional tok true in
      sequence_tokens rest (skip_loop (Z.to_nat (Skip tok)) (Skip tok) tok acc)
  end.

(** [v.([]interface{})] *)
Definition assert_slice (v : iface) : Go.Result (list iface) :=
  match v with
  | ISlice l => mret l
  | _ => Go.Panic "interface conversion: interface {} is not []interface {}"
  end.

Definition sequence_builder : builder := fun name generic mgr =>
  match assert_slice (default INil (generic !! "tokens")) with
  | Go.Panic why => (generic, mgr, Go.Panic why)
  | Go.Ok tokens =>
      let def := sequence_of (sequence_tokens tokens []) in
      let generic := delete "tokens" generic in
      match decode_Sequence generic def with
      | (def, None) =>
          let '(mgr, r) := addSequenceCheck name def mgr in (generic, mgr, r)
      | (_, Some _) => (generic, mgr, mret ())
      end
  end.

End Builders.

(** *** The existence rule of version 2 (second file of check.go) *)

Module v2.

Record Config : Type := { WordTemplate : string }.

Section NewExistence.
Context `{RegexpLib} `{TextLib}.

Record Existence : Type := {
  Existence_Definition : Definition_;
  Append : bool;
  IgnoreCase : bool;
  Nonword : bool;
  Raw : list string;
  Tokens : list string;
  pattern : option CompiledRegexp;
}.

(** [mapstructure.Decode(generic, &rule)]: the rule as it is left, and the
    error. *)
Variable mapstructure_Decode : gmap string iface -> Existence -> Existence * error.
(** [readStructureError(err, path)] and [core.NewE201FromPosition(msg,
    path, line)], which make the errors returned. *)
Variable readStructureError : string -> string -> string.
Variable NewE201FromPosition : string -> string -> Z -> string.
(** [regexp.Compile]: the pattern, or the message of the error. *)
Variable regexp_Compile : string -> CompiledRegexp + string.

Definition with_pattern (rule : Existence) (re : CompiledRegexp) : Existence :=
  {| Existence_Definition := Existence_Definition rule; Append := Append rule;
     IgnoreCase := IgnoreCase rule; Nonword := Nonword rule; Raw := Raw rule;
     Tokens := Tokens rule; pattern := Some re |}.

Definition NewExistence (cfg : Config) (generic : gmap string iface)
    : Existence * error :=
  let rule :=
    {| Existence_Definition :=
         {| Action := {| core.Action_Name := ""; core.Params := [] |}; Code := false;
            Description := ""; Extends := ""; Level := ""; Limit := 0; Link := "";
            Message := ""; Name := ""; Scope := "" |};
       Append := false; IgnoreCase := false; Nonword := false; Raw := [];
       Tokens := []; pattern := None |} in
  let path := "" in
  let '(p, ok) :=
    match generic !! "path" with
    | Some (IString p) => (p, true)
    | _ => ("", false)
    end in
  let path := if negb ok then p else path in
  let '(rule, err) := mapstructure_Decode generic rule in
  match err with
  | Some err => (rule, Some (readStructureError err path))
  | None =>
      let regex :=
        makeRegexp (WordTemplate cfg) (IgnoreCase rule)
          (fun _ => negb (Nonword rule) && (Go.len (Tokens rule) >? 0))
          (fun _ => Go.Join (Raw rule) "") (Append rule) in
      let regex := Sprintf regex [Go.Join (Tokens rule) "|"] in
      match regexp_Compile regex with
      | inr msg => (rule, Some (NewE201FromPosition msg path 1))
      | inl re => (with_pattern rule re, None)
      end
  end.

End NewExistence.

End v2.

End check.

(* ===================================================================== *)
(** ** Libraries to run the model on concrete inputs                      *)
(* ===================================================================== *)

Module run.

(** [fmt]'s verb [%s], each filled with the next argument. *)
Fixpoint fill_verbs (format : string) (args : list string) : string :=
  match format with
  | String "%" (String "s" rest) =>
      match args with
      | a :: args' => a +:+ fill_verbs rest args'
      | [] => "%!s(MISSING)" +:+ fill_verbs rest []
      end
  | String c rest => String c (fill_verbs rest args)
  | EmptyString => EmptyString
  end.

(** Replaces the runes of the first occurrence of [sub] in [src], line
    feeds apart, by [char]. *)
Definition mask_first (src sub : string) (char : ascii) : string * bool :=
  match String.index 0 sub src with
  | None => (src, false)
  | Some i =>
      let masked := (fun r => if String.eqb r regexp.newline then r
                              else String char EmptyString) <$> Go.runes sub in
      (substring 0 i src +:+ Go.Join masked EmptyString
         +:+ Go.string_drop (i + String.length sub) src, true)
  end.

(** [core/util.go] for matches that occur in their context as they are:
    no closest-match index, no part-of-speech tagger. *)
#[export] Instance exact_CoreUtil : CoreUtil := {|
  ClosestMatch := unit;
  initialPosition ctx sub _ :=
    match String.index 0 sub ctx with
    | Some i => (Go.RuneCountInString (substring 0 i ctx) + 1, sub)
    | None => (-1, EmptyString)
    end;
  Substitute := mask_first;
  FormatMessage := fill_verbs;
  CheckPOS _ _ _ := false;
  ToSentence words _ := Go.Join words ", ";
|}.

(** [insertionSort] of package sort, which [sort.Sort] runs on a short
    slice: [x] moves down past the elements it is [Less] than. The sorted
    part is held last element first. *)
Fixpoint insert_down {A} (less : A -> A -> Go.Result bool) (x : A) (sorted : list A)
    : list A * Go.Result unit :=
  match sorted with
  | [] => ([x], mret ())
  | y :: rest =>
      match less x y with
      | Go.Panic why => (x :: y :: rest, Go.Panic why)
      | Go.Ok true => let '(rest', r) := insert_down less x rest in (y :: rest', r)
      | Go.Ok false => (x :: y :: rest, mret ())
      end
  end.

Fixpoint insertion_loop {A} (less : A -> A -> Go.Result bool) (sorted todo : list A)
    : list A * Go.Result unit :=
  match todo with
  | [] => (reverse sorted, mret ())
  | x :: todo' =>
      match insert_down less x sorted with
      | (sorted', Go.Ok _) => insertion_loop less sorted' todo'
      | (sorted', Go.Panic why) => (reverse sorted' ++ todo', Go.Panic why)
      end
  end.

#[export] Instance insertion_SortLib : SortLib := {|
  sort_Sort A less l := insertion_loop less [] l;
|}.

(** Patterns of the fragment of section regexp. *)
#[export] Instance fragment_RegexpLib : RegexpLib := {|
  CompiledRegexp := regexp.Regexp;
  re_MatchString := regexp.MatchString;
  re_FindAllStringIndex := regexp.FindAllStringIndex;
  re_FindAllStringSubmatchIndex := regexp.FindAllStringSubmatchIndex;
|}.

Definition is_ascii_space (c : ascii) : bool :=
  let b := Go.byte_val c in ((9 <=? b) && (b <=? 13)) || (b =? 32).

Fixpoint trim_left (s : string) : string :=
  match s with
  | String c r => if is_ascii_space c then trim_left r else s
  | EmptyString => EmptyString
  end.

(** [strings.TrimSpace] on ASCII text. *)
Definition trim_ascii (s : string) : string :=
  String.rev (trim_left (String.rev (trim_left s))).

Definition is_digit (c : ascii) : bool :=
  (48 <=? Go.byte_val c) && (Go.byte_val c <=? 57).

Fixpoint all_digits (s : string) : bool :=
  match s with
  | String c r => is_digit c && all_digits r
  | EmptyString => true
  end.

Fixpoint decimal (acc : Z) (s : string) : Z :=
  match s with
  | String c r => decimal (10 * acc + (Go.byte_val c - 48)) r
  | EmptyString => acc
  end.

(** A plain YAML scalar as yaml.v2 resolves it. *)
Definition yaml_scalar (v : string) : iface :=
  if String.eqb v "" || String.eqb v "~" || String.eqb v "null" then INil
  else if String.eqb v "true" then IBool true
  else if String.eqb v "false" then IBool false
  else if all_digits v then IInt (decimal 0 v)
  else IString v.

(** YAML documents that are one block mapping of plain scalars, one
    [key: value] to a line. *)
Fixpoint yaml_lines (lines : list string) (generic : gmap string iface)
    : string + gmap string iface :=
  match lines with
  | [] => inr generic
  | line :: rest =>
      if String.eqb line "" then yaml_lines rest generic
      else match String.index 0 ": " line with
           | Some i =>
               yaml_lines rest
                 (<[substring 0 i line :=
                      yaml_scalar (trim_ascii (Go.string_drop (i + 2) line))]> generic)
           | None => inl "yaml: could not find expected ':'"
           end
  end.

#[export] Instance flat_TextLib : TextLib := {|
  TrimSpace := trim_ascii;
  Sprintf := fill_verbs;
  yaml_Unmarshal file := yaml_lines (Go.Split file (ascii_of_nat 10)) ∅;
|}.

(** The three levels of an alert, by rank. *)
#[export] Instance three_levels : CoreTables := {|
  AlertLevels := ["suggestion"; "warning"; "error"];
|}.

Definition is_ascii_letter (c : ascii) : bool :=
  let b := Go.byte_val c in
  ((65 <=? b) && (b <=? 90)) || ((97 <=? b) && (b <=? 122)).

Fixpoint all_letters (s : string) : bool :=
  match s with
  | String c r => is_ascii_letter c && all_letters r
  | EmptyString => true
  end.

Definition lower (c : ascii) : ascii :=
  let b := Go.byte_val c in
  if (65 <=? b) && (b <=? 90) then ascii_of_N (N_of_ascii c + 32) else c.

(** [strings.ToLower] on ASCII text. *)
Fixpoint to_lower (s : string) : string :=
  match s with
  | String c r => String (lower c) (to_lower r)
  | EmptyString => EmptyString
  end.

(** Texts whose words stand between single spaces and carry no tag, and
    tag patterns without metacharacters. *)
#[export] Instance words_RuleLib : RuleLib := {|
  TextToTokens src _ :=
    (fun w => {| Token_Tag := ""; Token_Text := w |}) <$> Go.Split src " ";
  IntInSlice z l := existsb (Z.eqb z) l;
  IsLetter := all_letters;
  CheckError err _ := match err with None => true | Some _ => false end;
  ToLower := to_lower;
  regexp_MatchString pattern s := (Go.Contains s pattern, None);
|}.

(** A file as [NewFile] makes it for text given on standard input, with
    [ChkToCtx] as the linter sets it before it adds alerts. *)
Definition new_file (content : string) : core.File :=
  {| core.Alerts := []; core.ChkToCtx := Some ∅; core.Comments := ∅;
     core.Format := "prose"; core.Lines := Go.SplitAfter content (ascii_of_nat 10);
     core.Simple := false; core.history := ∅; core.matcher := () |}.

End run.

(* ===================================================================== *)
(** ** The vocabulary of the properties                                   *)
(* ===================================================================== *)

Section SelectorVocabulary.

(** No byte of the string is a dot. *)
Fixpoint dotless (s : string) : Prop :=
  match s with
  | EmptyString => True
  | String c r => c <> "."%char /\ dotless r
  end.

(** [tokens] are the dotted tokens of the selector: there is one at
    least, none has a dot, and the value of the selector is the tokens in
    their order with a dot between one and the next. *)
Definition dotted_tokens (s : core.Selector) (tokens : list string) : Prop :=
  tokens <> [] /\ Forall dotless tokens /\ core.Value s = Go.Join tokens ".".

End SelectorVocabulary.

Section CommentVocabulary.






End CommentVocabulary.

Section AlertVocabulary.
Context `{CoreUtil}.

(** What two alerts must not share: line, span start and check. *)
Definition alert_key (a : core.Alert) : Z * option Z * string :=
  (core.Line a, core.Span a !! 0%nat, core.Check a).


(** No alert of the file has, in its span, an element of the span of
    [a]. *)
Definition apart_from (s : core.State) (a : core.Alert_ Go.ints) : Prop :=
  forall b, b ∈ core.Alerts (core.file s) ->
    Go.places (core.Span b) ## Go.places (core.Span a).

(** No two calls have alerts whose spans have an element in common. *)
Fixpoint unshared (calls : list core.AddAlertCall) : Prop :=
  match calls with
  | [] => True
  | c :: rest =>
      Forall (fun d => Go.places (core.Span (core.call_alert c))
                       ## Go.places (core.Span (core.call_alert d))) rest
      /\ unshared rest
  end.

(** The outcome [ran] of a call that was given the slice [loc] in the
    memory [m] is what [pure] tells by the elements: when the call returns,
    the same value and a slice that has the elements of [pure] and no place
    but places of [loc]; the same panic else. Memory is written at places
    of [loc] alone. *)
Definition agrees {A} (loc : Go.ints) (m : Go.memory) (pure : Go.Result (A * list Z))
    (ran : Go.memory * Go.Result (A * Go.ints)) : Prop :=
  (forall p, p ∉ Go.places loc -> Go.load ran.1 p = Go.load m p)
  /\ match pure, ran.2 with
     | Go.Ok (x, l), Go.Ok (y, loc') =>
         x = y /\ Go.elements ran.1 loc' = l /\ Go.places loc' ⊆ Go.places loc
     | Go.Panic why, Go.Panic why' => why = why'
     | _, _ => False
     end.

End AlertVocabulary.

Section SortVocabulary.

(** The ordering [sort.Sort] asks of [Less]: irreflexive, transitive, and
    transitive where it is false. *)
Definition StrictWeak {A} (lt : A -> A -> bool) : Prop :=
  (forall x, lt x x = false)
  /\ (forall x y z, lt x y = true -> lt y z = true -> lt x z = true)
  /\ (forall x y z, lt x y = false -> lt y z = false -> lt x z = false).

(** What package sort documents of [Sort]: when [Less] is such an
    ordering and does not panic on the elements of the slice, the slice is
    left a rearrangement of itself in which no element is [Less] than one
    before it. *)
Definition SortContract (S : SortLib) : Prop :=
  forall (A : Type) (less : A -> A -> Go.Result bool) (lt : A -> A -> bool) (l : list A),
    StrictWeak lt ->
    (forall x y, x ∈ l -> y ∈ l -> less x y = Go.Ok (lt x y)) ->
    exists l', sort_Sort A less l = (l', Go.Ok ())
      /\ l' ≡ₚ l
      /\ forall i j x y, (i < j)%nat -> l' !! i = Some x -> l' !! j = Some y -> lt y x = false.

(** [ByPosition.Less] where it does not panic. *)
Definition position_lt (ai aj : core.Alert) : bool :=
  if negb (core.Line ai =? core.Line aj) then core.Line ai <? core.Line aj
  else default 0 (core.Span ai !! 0%nat) <? default 0 (core.Span aj !! 0%nat).

End SortVocabulary.

Section SubstitutionVocabulary.
Context `{CoreUtil} `{RegexpLib} `{TextLib}.

(** The offsets of one match, two by two: the match, then its groups. *)
Fixpoint offset_pairs (submat : list Z) : list (Z * Z) :=
  match submat with
  | lo :: hi :: rest => (lo, hi) :: offset_pairs rest
  | _ => []
  end.

(** The groups, numbered from [g], that took part in the match. *)
Fixpoint groups_from (g : nat) (pairs : list (Z * Z)) : list (nat * Z * Z) :=
  match pairs with
  | [] => []
  | (lo, hi) :: rest =>
      (if lo =? -1 then [] else [(g, lo, hi)]) ++ groups_from (S g) rest
  end.

(** The capture-group matches of one match of the pattern: the number of
    the group (from 1) and the offsets of its text. *)
Definition group_matches (submat : list Z) : list (nat * Z * Z) :=
  groups_from 1 (tail (offset_pairs submat)).

(** The capture-group matches that [checkSubstitution] looks at. *)
Definition all_group_matches (r : CompiledRegexp) (txt : string) : list (nat * Z * Z) :=
  if re_MatchString r txt
  then mjoin (group_matches <$> re_FindAllStringSubmatchIndex r txt)
  else [].

(** The trimmed text of the group is not the replacement configured for
    the group. *)
Definition differs (txt : string) (repl : list string) (m : nat * Z * Z) : bool :=
  let '(g, lo, hi) := m in
  match Go.slice txt lo hi, repl !! (g - 1)%nat with
  | Go.Ok found, Some expected => negb (String.eqb expected (TrimSpace found))
  | _, _ => false
  end.

(** [a] is an alert for the capture-group match [m]. *)
Definition alert_for (txt : string) (repl : list string) (a : core.Alert)
    (m : nat * Z * Z) : Prop :=
  let '(g, lo, hi) := m in
  core.Span a = [lo; hi]
  /\ exists found expected,
       Go.slice txt lo hi = Go.Ok found
       /\ repl !! (g - 1)%nat = Some expected
       /\ core.Match a = TrimSpace found
       /\ core.Match a <> expected.

(** What the library returns for a pattern with one group per
    replacement: the offsets of the match and of each group, a group that
    took no part at -1, the others within the text. *)
Definition match_offsets (txt : string) (repl : list string) (submat : list Z) : Prop :=
  length submat = (2 * (1 + length repl))%nat
  /\ Forall (fun p => p.1 = -1 \/ (0 <= p.1 <= p.2 /\ p.2 <= Go.strlen txt))
       (offset_pairs submat).

End SubstitutionVocabulary.

Section MoreVocabulary.
Context `{CoreUtil}.

(** No byte of the string is a dash. *)
Fixpoint dashless (s : string) : Prop :=
  match s with
  | EmptyString => True
  | String c r => c <> "-"%char /\ dashless r
  end.

(** Every entry of the history is the entry of an alert of the file. *)
Definition history_of_alerts (f : core.File) : Prop :=
  forall entry, is_Some (core.history f !! entry) ->
    exists b s0, b ∈ core.Alerts f /\ core.Span b !! 0%nat = Some s0
      /\ entry = core.history_entry (core.Line b) s0 (core.Check b).

(** An alert that [AddAlert] may store: not hidden, with a span that
    starts at a positive column. *)
Definition visible_and_placed (a : core.Alert) : Prop :=
  core.Hide a = false /\ exists s0, core.Span a !! 0%nat = Some s0 /\ 0 < s0.

End MoreVocabulary.

Section RuleVocabulary.
Context `{CoreUtil} `{RegexpLib} `{TextLib} `{RuleLib}.

(** The offsets of a match that lies within the text: a start and an end
    (more elements are not read), in order and in bounds. *)
Definition in_text (txt : string) (loc : list Z) : Prop :=
  exists lo hi, loc !! 0%nat = Some lo /\ loc !! 1%nat = Some hi
    /\ 0 <= lo /\ lo <= hi /\ hi <= Go.strlen txt.

(** [p] and [l] are two matches of the list, one after the other. *)
Definition adjacent {A} (p l : A) (locs : list A) : Prop :=
  exists before after, locs = before ++ p :: l :: after.

(** [a] reports that the match [l] repeats the match [p]: the text of
    both, trimmed, is the same (cases apart when the rule ignores case) and
    not empty, no line ends between the start of the one and the end of the
    other, and the alert spans both. *)
Definition repeats (txt : string) (chk : check.Repetition) (p l : list Z)
    (a : core.Alert) : Prop :=
  exists plo phi lo hi first second between,
    p !! 0%nat = Some plo /\ p !! 1%nat = Some phi
    /\ l !! 0%nat = Some lo /\ l !! 1%nat = Some hi
    /\ Go.slice txt plo phi = Go.Ok first
    /\ Go.slice txt lo hi = Go.Ok second
    /\ Go.slice txt plo hi = Go.Ok between
    /\ TrimSpace second <> ""
    /\ (if check.Repetition_Ignorecase chk
        then ToLower (TrimSpace second) = ToLower (TrimSpace first)
        else TrimSpace second = TrimSpace first)
    /\ Go.Contains between regexp.newline = false
    /\ core.Span a = [plo; hi]
    /\ core.Match a = between.

(** What the loop of [checkRepetition] carries after the matches [seen]:
    before the first match nothing, then the last match and its trimmed
    text. *)
Definition previous_match (txt : string) (seen : list (list Z)) (st : check.RepState)
    : Prop :=
  match last seen with
  | None => check.prev st = "" /\ check.ploc st = []
  | Some p =>
      check.ploc st = p
      /\ exists plo phi first,
           p !! 0%nat = Some plo /\ p !! 1%nat = Some phi
           /\ Go.slice txt plo phi = Go.Ok first
           /\ check.prev st = TrimSpace first
  end.

(** The matches are listed from left to right: none ends before the one
    before it starts. *)
Definition left_to_right (locs : list (list Z)) : Prop :=
  forall p l plo hi,
    adjacent p l locs -> p !! 0%nat = Some plo -> l !! 1%nat = Some hi -> plo <= hi.

End RuleVocabulary.

(* ===================================================================== *)
(** ** Concrete inputs                                                    *)
(* ===================================================================== *)

Module examples.
Import run.

Definition no_action : core.Action := {| core.Action_Name := ""; core.Params := [] |}.

(** An alert as a rule function returns it: not yet localized. *)
Definition raw_alert (check match_ : string) (lo hi : Z) (hide : bool) : core.Alert :=
  {| core.Action_ := no_action; core.Check := check; core.Description := "";
     core.Line := 0; core.Link := ""; core.Message := ""; core.Severity := "warning";
     core.Span := [lo; hi]; core.Match := match_; core.Hide := hide |}.

(** The same alert with its span in memory, two elements from the place
    [base] on. *)
Definition alert_at (base : nat) (check match_ : string) (hide : bool)
    : core.Alert_ Go.ints :=
  {| core.Action_ := no_action; core.Check := check; core.Description := "";
     core.Line := 0; core.Link := ""; core.Message := ""; core.Severity := "warning";
     core.Span := Go.At base 2; core.Match := match_; core.Hide := hide |}.

Definition text : string := "This is is a test.".

Definition add (a : core.Alert_ Go.ints) : core.AddAlertCall :=
  {| core.call_alert := a; core.call_ctx := text; core.call_txt := text;
     core.call_lines := 1; core.call_pad := 0 |}.

(** The offsets of the two occurrences of " is", of " is a" and of
    "test", in four slices. *)
Definition offsets : Go.memory :=
  list_to_map [(0%nat, 4); (1%nat, 7); (2%nat, 7); (3%nat, 10); (4%nat, 7); (5%nat, 12);
               (6%nat, 13); (7%nat, 17)].

(** A file as [NewFile] makes it, in memory, with [ChkToCtx] made. *)
Definition start (content : string) (m : Go.memory) : core.State :=
  {| core.cells := m; core.file := core.set_Alerts (new_file content) [] |}.

(** The two occurrences of "is" as words, then the second one again,
    found through the context in which the first two are masked; each
    alert has a span of its own. *)
Definition calls : list core.AddAlertCall :=
  [ add (alert_at 0 "Vale.Repetition" " is" false);
    add (alert_at 2 "Vale.Repetition" " is" false);
    add (alert_at 4 "Vale.Repetition" "### a" false) ].

Definition after_calls : core.State := core.AddAlerts (start text offsets) calls.

Definition linted : core.File := core.read after_calls.

(** An alert for "test", with a span of its own. *)
Definition later (hide : bool) : core.Alert_ Go.ints := alert_at 6 "Vale.Terms" "test" hide.

(** One alert that is handed to [AddAlert] twice. *)
Definition twice : list core.AddAlertCall :=
  [ add (alert_at 0 "Vale.Repetition" " is" false);
    add (alert_at 0 "Vale.Repetition" " is" false) ].



Definition definition (extends name message : string) : check.Definition_ :=
  {| check.Action := no_action; check.Code := false; check.Description := "";
     check.Extends := extends; check.Level := "warning"; check.Limit := 0;
     check.Link := ""; check.Message := message; check.Name := name;
     check.Scope := "text" |}.

(** At least one and at most three "however" in a scope. *)
Definition however : check.Occurrence :=
  {| check.Occurrence_Definition :=
       definition "occurrence" "Style.However" "Use 'however' one to three times.";
     check.Occurrence_Ignorecase := false; check.Max := 3; check.Min := 1;
     check.Token := "however" |}.

(** [swap: {'e-mail|email': email}] *)
Definition email : check.Substitution :=
  {| check.Substitution_Definition :=
       definition "substitution" "Style.Email" "Use '%s' instead of '%s'.";
     check.Substitution_Ignorecase := false; check.Nonword := true;
     check.Swap := {[ "e-mail|email" := "email" ]}; check.POS := "" |}.

Definition email_pattern : @CompiledRegexp fragment_RegexpLib :=
  regexp.Capture 1 (regexp.Alternate (regexp.Literals "e-mail") (regexp.Literals "email")).

Definition however_pattern : @CompiledRegexp fragment_RegexpLib :=
  regexp.Literals "however".

Definition however_text : string := "however, however, however, however".

Definition existence_manifest : string :=
  "extends: existence" +:+ regexp.newline +:+ "message: Avoid this." +:+ regexp.newline
  +:+ "colour: blue" +:+ regexp.newline.

Definition manifest : string :=
  "extends: 5" +:+ regexp.newline +:+ "message: Avoid this." +:+ regexp.newline.

Definition unknown_manifest : string :=
  "extends: nothing" +:+ regexp.newline +:+ "message: Avoid this." +:+ regexp.newline.

Definition no_builders : string -> check.builder :=
  fun _ _ generic mgr => (generic, mgr, Go.Ok ()).

Definition manager : check.Manager :=
  {| check.AllChecks := ∅; check.Config_ := {| check.RuleToLevel := ∅ |};
     check.Scopes := ∅ |}.

(** A file in which [vale off] has been read. *)
Definition file_off : core.File := core.UpdateComments (new_file "") "vale off".

(** A match that runs over the end of a line. *)
Definition two_lines : string := "ab" +:+ regexp.newline +:+ "cd".

Definition over_the_line : string := "b" +:+ regexp.newline +:+ "c".

(** A file as [NewFile] leaves it: the map [ChkToCtx] is not made. *)
Definition unmade : core.State :=
  {| core.cells := offsets;
     core.file := core.set_ChkToCtx (core.set_Alerts (new_file text) []) None |}.

Definition word_pattern : @CompiledRegexp fragment_RegexpLib :=
  regexp.Plus regexp.WordChar.

(** [tokens: [very]] *)
Definition avoid : check.Existence :=
  {| check.Existence_Definition :=
       definition "existence" "Style.Very" "Avoid '%s'.";
     check.Append := false; check.Existence_Ignorecase := false;
     check.Existence_Nonword := false; check.Raw := [];
     check.Existence_Tokens := ["very"] |}.

Definition very_pattern : @CompiledRegexp fragment_RegexpLib :=
  regexp.Literals "very".

(** A word that is there twice in a row. *)
Definition doubled : check.Repetition :=
  {| check.Repetition_Definition :=
       definition "repetition" "Vale.Repetition" "'%s' is repeated!";
     check.Repetition_Max := 0; check.Repetition_Ignorecase := true;
     check.Alpha := true; check.Repetition_Tokens := ["\w+"] |}.

(** A title must not be empty. *)
Definition titled : check.Capitalization :=
  {| check.Capitalization_Definition :=
       definition "capitalization" "Style.Title" "'%s' should be a title.";
     check.Capitalization_Match := "$title";
     check.Capitalization_Check := fun txt _ _ => negb (String.eqb txt "");
     check.Style := ""; check.Exceptions := []; check.Indicators := [];
     check.exceptRe := None |}.

Definition token (pattern tag : string) (r : option CompiledRegexp) : check.NLPToken :=
  {| check.NLPToken_Pattern := pattern; check.Negate := false;
     check.NLPToken_Tag := tag; check.Skip := 0; check.re := r;
     check.optional := false |}.

(** A noun, then the word "however". *)
Definition noun_however : check.Sequence :=
  {| check.Sequence_Definition :=
       definition "sequence" "Style.However" "Do not use '%s'.";
     check.Sequence_Ignorecase := false;
     check.Sequence_Tokens := [token "" "NN" None; token "however" "" (Some however_pattern)];
     check.needsTagging := true; check.Sequence_history := [] |}.

(** The word "however", then a noun. *)
Definition however_noun : check.Sequence :=
  {| check.Sequence_Definition :=
       definition "sequence" "Style.However" "Do not use '%s'.";
     check.Sequence_Ignorecase := false;
     check.Sequence_Tokens := [token "however" "" (Some however_pattern); token "" "NN" None];
     check.needsTagging := true; check.Sequence_history := [] |}.

(** The word "however", then any word. *)
Definition however_then : check.Sequence :=
  {| check.Sequence_Definition :=
       definition "sequence" "Style.However" "Do not use '%s'.";
     check.Sequence_Ignorecase := false;
     check.Sequence_Tokens := [token "however" "" (Some however_pattern); token "" "" None];
     check.needsTagging := false; check.Sequence_history := [] |}.

(** A sequence rule without tokens. *)
Definition sequence_manifest : string :=
  "extends: sequence" +:+ regexp.newline +:+ "message: Avoid this." +:+ regexp.newline.

(** Tokens that are given by their [skip] alone. *)
Definition skip_token (v : iface) : check.NLPToken :=
  {| check.NLPToken_Pattern := ""; check.Negate := false; check.NLPToken_Tag := "";
     check.Skip := match v with IInt n => n | _ => 0 end; check.re := None;
     check.optional := false |}.

Definition sequence_builders : string -> check.builder :=
  fun _ =>
    check.sequence_builder skip_token (fun _ def => (def, None))
      (fun _ _ mgr => (mgr, Go.Ok ())).

(** A decoder that rejects every manifest. *)
Definition rejecting : gmap string iface -> check.v2.Existence -> check.v2.Existence * error :=
  fun _ rule => (rule, Some "unknown field").

Definition error_at (err path : string) : string := err +:+ " in " +:+ path.

End examples.

(* ===================================================================== *)
(** * Properties                                                          *)
(* ===================================================================== *)

(** ** The model on small inputs *)

Section Runs.
Import run examples.

Example Sections_of_a_path :
  core.Sections {| core.Value := "text.comment.line.py" |}
  = ["text"; "comment"; "line"; "py"].
Proof. reflexivity. Qed.

Example Has_a_token :
  core.Has {| core.Value := "text.comment.line.py" |} "comment" = true.
Proof. reflexivity. Qed.

Example directive_is_matched :
  regexp.FindStringSubmatch core.commentControlRE "vale Vale.Spelling = NO"
  = ["vale Vale.Spelling = NO"; "Vale.Spelling"; "NO"].
Proof. vm_compute. reflexivity. Qed.

(** The dot of the control pattern stands for any character. *)
Example directive_without_dot :
  regexp.FindStringSubmatch core.commentControlRE "vale Rule Name = YES"
  = ["vale Rule Name = YES"; "Rule Name"; "YES"].
Proof. vm_compute. reflexivity. Qed.

Example directive_must_end_the_comment :
  regexp.MatchString core.commentControlRE "vale Vale.Spelling = YES please" = false.
Proof. vm_compute. reflexivity. Qed.

Example occurrence_above_max :
  match check.checkOccurrence however_text however (new_file "") however_pattern with
  | Go.Ok [a] =>
      (core.Span a, core.Match a, core.Message a)
      = ([0; 7], "however", "Use 'however' one to three times.")
  | _ => False
  end.
Proof. vm_compute. reflexivity. Qed.

Example localized_alerts :
  (fun a => (core.Line a, core.Span a)) <$> core.Alerts linted
  = [(1, [5; 7]); (1, [8; 10])].
Proof. vm_compute. reflexivity. Qed.

(** [FindLoc] writes the span into the slice it was given: the offsets 4
    and 7 of the first alert have become the columns 5 and 7. *)
Example span_is_written_in_place :
  Go.elements (core.cells after_calls) (Go.At 0 2) = [5; 7].
Proof. vm_compute. reflexivity. Qed.

(** The history keeps the entries of both calls of an alert that is
    handed over twice; the alerts stored for them share their span. *)
Example history_of_shared_span :
  (map_to_list (core.history (core.file (core.AddAlerts (start text offsets) twice)))).*1
  ≡ₚ ["1-5-Vale.Repetition"; "1-8-Vale.Repetition"].
Proof. vm_compute. reflexivity. Qed.

(** A hyphen is no word character: the control pattern does not match a
    directive for a style such as write-good. *)
Example directive_with_hyphen :
  regexp.MatchString core.commentControlRE "vale write-good.Passive = NO" = false.
Proof. vm_compute. reflexivity. Qed.

Example manifest_is_loaded :
  (check.addCheck no_builders manager existence_manifest "Style.Rule").2 = Go.Ok None.
Proof. vm_compute. reflexivity. Qed.

End Runs.

(** ** Selectors *)

Section SelectorFacts.

(** The left-to-right search decides the subsequence relation. *)
Lemma AllStringsInSlice_sublist (strings slice : list string) :
  core.AllStringsInSlice strings slice = true <-> strings `sublist_of` slice.
Proof.
  revert strings. induction slice as [|x slice IH]; intros strings.
  - destruct strings as [|s strings]; simpl.
    + split; [intros _; constructor | done].
    + split; [done | intros Hs; apply sublist_nil_r in Hs; done].
  - destruct strings as [|s strings]; simpl.
    + split; [intros _; apply sublist_nil_l | done].
    + destruct (String.eqb_spec s x) as [->|Hne].
      * rewrite IH. split.
        -- intros Hs. by constructor.
        -- intros Hs. apply sublist_cons_r in Hs as [Hs | (k & Hk & Hs)].
           ++ etransitivity; [|exact Hs]. by apply sublist_cons.
           ++ by simplify_eq.
      * rewrite IH. split.
        -- intros Hs. by apply sublist_cons.
        -- intros Hs. apply sublist_cons_r in Hs as [Hs | (k & Hk & Hs)]; [done|].
           by simplify_eq.
Qed.

Lemma Split_cons (s : string) (sep : ascii) :
  exists h t, Go.Split s sep = h :: t.
Proof.
  destruct s as [|c r]; simpl; [by eexists _, _|].
  destruct (Ascii.eqb c sep); [by eexists _, _|].
  destruct (Go.Split r sep); by eexists _, _.
Qed.

Lemma Join_char (c : ascii) (h : string) (t : list string) (sep : string) :
  Go.Join (String c h :: t) sep = String c (Go.Join (h :: t) sep).
Proof. destruct t; reflexivity. Qed.

Lemma Join_dot (h : string) (t : list string) :
  Go.Join (EmptyString :: h :: t) "." = String "." (Go.Join (h :: t) ".").
Proof. reflexivity. Qed.

(** The value of a selector is its sections with dots between them. *)
Lemma Join_Split (s : string) : Go.Join (Go.Split s ".") "." = s.
Proof.
  induction s as [|c r IH]; [done|]. cbn [Go.Split].
  destruct (Split_cons r ".") as (h & t & Hr). rewrite Hr in IH |- *.
  destruct (Ascii.eqb c "."%char) eqn:Hc.
  - apply Ascii.eqb_eq in Hc. subst c. by rewrite Join_dot, IH.
  - by rewrite Join_char, IH.
Qed.

Lemma Split_dotless (s : string) : Forall dotless (Go.Split s ".").
Proof.
  induction s as [|c r IH]; [by repeat constructor|]. cbn [Go.Split].
  destruct (Ascii.eqb c "."%char) eqn:Hc; [by constructor|].
  apply Ascii.eqb_neq in Hc.
  destruct (Go.Split r ".") as [|h t]; [by repeat constructor|].
  apply Forall_cons in IH as [Hh Ht]. by repeat constructor.
Qed.

Lemma Split_token (p : string) : dotless p -> Go.Split p "." = [p].
Proof.
  induction p as [|c r IH]; [done|]. intros [Hc Hr]. cbn [Go.Split].
  apply Ascii.eqb_neq in Hc. rewrite Hc. by rewrite (IH Hr).
Qed.

Lemma Split_token_dot (p rest : string) :
  dotless p -> Go.Split (p +:+ String "." rest) "." = p :: Go.Split rest ".".
Proof.
  induction p as [|c r IH]; [done|]. intros [Hc Hr].
  change (String c r +:+ String "." rest) with (String c (r +:+ String "." rest)).
  cbn [Go.Split]. apply Ascii.eqb_neq in Hc. rewrite Hc. by rewrite (IH Hr).
Qed.

(** Tokens without dots, joined with dots, are split into themselves. *)
Lemma Split_Join (tokens : list string) :
  tokens <> [] -> Forall dotless tokens -> Go.Split (Go.Join tokens ".") "." = tokens.
Proof.
  induction tokens as [|p [|q rest] IH]; [done| |].
  - intros _ Hp. apply Forall_cons in Hp as [Hp _]. by apply Split_token.
  - intros _ Hall. apply Forall_cons in Hall as [Hp Hall].
    change (Go.Join (p :: q :: rest) ".") with (p +:+ String "." (Go.Join (q :: rest) ".")).
    rewrite (Split_token_dot _ _ Hp). f_equal. by apply IH.
Qed.

(** C2. The tokens that [Sections] gives are the dotted tokens of the
    selector, and there are no others; [A.Contains(B)] holds exactly when
    the tokens of B occur among the tokens of A in the order they have in
    B; when every token of B occurs in A but not in that order, [Contains]
    is false. *)
Theorem Contains_tokens_in_order (A B : core.Selector) :
  (core.Contains A B = true <-> core.Sections B `sublist_of` core.Sections A)
  /\ (core.Sections B ⊆ core.Sections A ->
      ~ core.Sections B `sublist_of` core.Sections A ->
      core.Contains A B = false)
  /\ dotted_tokens A (core.Sections A)
  /\ dotted_tokens B (core.Sections B)
  /\ (forall tokens, dotted_tokens A tokens -> core.Sections A = tokens)
  /\ (forall tokens, dotted_tokens B tokens -> core.Sections B = tokens)
  /\ (forall ta tb,
        dotted_tokens A ta -> dotted_tokens B tb ->
        (core.Contains A B = true <-> tb `sublist_of` ta)
        /\ (tb ⊆ ta -> ~ tb `sublist_of` ta -> core.Contains A B = false)).
Proof.
  assert (Hdotted : forall S, dotted_tokens S (core.Sections S)).
  { intros S. unfold dotted_tokens, core.Sections. split; [|split].
    - destruct (Split_cons (core.Value S) ".") as (h & t & ->). done.
    - apply Split_dotless.
    - by rewrite Join_Split. }
  assert (Honly : forall S tokens, dotted_tokens S tokens -> core.Sections S = tokens).
  { intros S tokens (Hne & Hall & Hvalue). unfold core.Sections. rewrite Hvalue.
    by apply Split_Join. }
  assert (Horder : core.Contains A B = true
                   <-> core.Sections B `sublist_of` core.Sections A)
    by apply AllStringsInSlice_sublist.
  assert (Hnot : ~ core.Sections B `sublist_of` core.Sections A ->
                 core.Contains A B = false).
  { intros Hno. apply not_true_is_false. by rewrite Horder. }
  split; [done|]. split; [auto|]. split; [done|]. split; [done|].
  split; [auto|]. split; [auto|].
  intros ta tb Ha Hb. rewrite <- (Honly A ta Ha), <- (Honly B tb Hb). auto.
Qed.

(** Every token of [line.text] is a token of [text.comment.line], but
    not in this order. *)
Lemma Contains_tokens_in_order_witness :
  core.Contains {| core.Value := "text.comment.line" |} {| core.Value := "line.text" |} = false.
Proof.
  destruct (Contains_tokens_in_order
              {| core.Value := "text.comment.line" |} {| core.Value := "line.text" |})
    as (_ & _ & _ & _ & _ & _ & Htokens).
  apply (Htokens ["text"; "comment"; "line"] ["line"; "text"]).
  - split; [done|]. split; [|reflexivity]. repeat constructor; discriminate.
  - split; [done|]. split; [|reflexivity]. repeat constructor; discriminate.
  - intros t. rewrite !elem_of_cons, !elem_of_nil. tauto.
  - intros Hs. apply AllStringsInSlice_sublist in Hs. vm_compute in Hs. done.
Defined.

(** C8. Containment of selectors is transitive. *)
Theorem Contains_transitive (A B C : core.Selector) :
  core.Contains A B = true -> core.Contains B C = true -> core.Contains A C = true.
Proof.
  unfold core.Contains. rewrite !AllStringsInSlice_sublist.
  intros HAB HBC. by etransitivity.
Qed.

Lemma Contains_transitive_witness :
  core.Contains {| core.Value := "text.comment.line.py" |} {| core.Value := "text.py" |} = true.
Proof.
  apply (Contains_transitive _ {| core.Value := "text.line.py" |} _); vm_compute; reflexivity.
Defined.

End SelectorFacts.

(** ** The control pattern *)

Section PatternFacts.












Lemma substring_whole (s : string) : substring 0 (String.length s) s = s.
Proof. induction s as [|c s IH]; simpl; [done|]. by rewrite IH. Qed.











End PatternFacts.

(** ** Comment control *)

Section CommentFacts.
Context `{CoreUtil}.







(** C9. While the global flag is set, the query answers true for every
    check, whatever the comments recorded for the check itself. *)
Theorem QueryComments_global_off (f : core.File) (check : string) :
  core.Comments f !! "off" = Some true ->
  core.QueryComments f check = true.
Proof.
  intros Hoff. unfold core.QueryComments, core.comment. rewrite Hoff. reflexivity.
Qed.

End CommentFacts.

Section CommentExamples.
Import run examples.



(** [vale off], then [vale Vale.Spelling = YES]: the rule is recorded as
    enabled and the query answers true. *)
Lemma QueryComments_global_off_witness :
  core.Comments (core.UpdateComments file_off "vale Vale.Spelling = YES")
    !! "Vale.Spelling" = Some false
  /\ core.QueryComments (core.UpdateComments file_off "vale Vale.Spelling = YES")
       "Vale.Spelling" = true.
Proof.
  split; [vm_compute; reflexivity|].
  apply (QueryComments_global_off
           (core.UpdateComments file_off "vale Vale.Spelling = YES") "Vale.Spelling").
  vm_compute. reflexivity.
Defined.

End CommentExamples.

(** ** Adding alerts *)

Section AlertFacts.
Context `{CoreUtil}.

Lemma index_Ok {A} (l : list A) (i : Z) (x : A) :
  Go.index l i = Go.Ok x <-> 0 <= i /\ l !! Z.to_nat i = Some x.
Proof.
  unfold Go.index, Go.len.
  destruct (Z.leb_spec 0 i); simpl.
  - destruct (Z.ltb_spec i (Z.of_nat (length l))).
    + destruct (l !! Z.to_nat i) eqn:Hl.
      * split; [intros [= ->]; done | intros [_ [= ->]]; done].
      * split; [done | intros [_ [=]]].
    + split; [done|]. intros [_ Hl]. apply lookup_lt_Some in Hl. lia.
  - split; [done|]. lia.
Qed.

(** *** Spans in memory *)

Lemma load_insert (m : Go.memory) (p q : nat) (x : Z) :
  Go.load (<[p := x]> m) q = if decide (p = q) then x else Go.load m q.
Proof. unfold Go.load. rewrite lookup_insert. by case_decide. Qed.

(** A slice has the elements it had when memory is the same at its
    places. *)
Lemma elements_same (m m' : Go.memory) (loc : Go.ints) :
  (forall p, p ∈ Go.places loc -> Go.load m' p = Go.load m p) ->
  Go.elements m' loc = Go.elements m loc.
Proof.
  destruct loc as [base n|l]; simpl; [|done].
  intros Hsame. apply Forall_fmap_ext, Forall_forall. exact Hsame.
Qed.

Lemma elements_At (m : Go.memory) (base n : nat) :
  Go.elements m (Go.At base (S (S n)))
  = Go.load m base :: Go.load m (S base) :: (Go.load m <$> seq (S (S base)) n).
Proof. reflexivity. Qed.

Lemma set_index_at_0 (base n : nat) (x : Z) (m : Go.memory) :
  Go.set_index_at (Go.At base (S n)) 0 x m = (<[base := x]> m, Go.Ok (Go.At base (S n))).
Proof. unfold Go.set_index_at. simpl. by rewrite Nat.add_0_r. Qed.

Lemma set_index_at_1 (base n : nat) (x : Z) (m : Go.memory) :
  Go.set_index_at (Go.At base (S (S n))) 1 x m
  = (<[S base := x]> m, Go.Ok (Go.At base (S (S n)))).
Proof.
  unfold Go.set_index_at.
  assert ((0 <=? 1) && (1 <? Z.of_nat (S (S n))) = true) as ->
    by (rewrite andb_true_iff, Z.leb_le, Z.ltb_lt; lia).
  by replace (base + Z.to_nat 1)%nat with (S base) by lia.
Qed.

Lemma index_at_0 (base n : nat) (m : Go.memory) :
  Go.index_at (Go.At base (S n)) 0 m = (m, Go.Ok (Go.load m base)).
Proof. reflexivity. Qed.

Lemma index_at_1 (base n : nat) (m : Go.memory) :
  Go.index_at (Go.At base (S (S n))) 1 m = (m, Go.Ok (Go.load m (S base))).
Proof.
  unfold Go.index_at. f_equal. apply index_Ok. by split.
Qed.

Lemma set_index_at_Made_0 (b x : Z) (l : list Z) (m : Go.memory) :
  Go.set_index_at (Go.Made (b :: l)) 0 x m = (m, Go.Ok (Go.Made (x :: l))).
Proof. reflexivity. Qed.

Lemma set_index_at_Made_1 (b e x : Z) (l : list Z) (m : Go.memory) :
  Go.set_index_at (Go.Made (b :: e :: l)) 1 x m = (m, Go.Ok (Go.Made (b :: x :: l))).
Proof.
  unfold Go.set_index_at, Go.set_index, Go.len.
  assert ((0 <=? 1) && (1 <? Z.of_nat (length (b :: e :: l))) = true) as ->
    by (rewrite andb_true_iff, Z.leb_le, Z.ltb_lt; simpl length; lia).
  reflexivity.
Qed.

Lemma index_at_Made_1 (b e : Z) (l : list Z) (m : Go.memory) :
  Go.index_at (Go.Made (b :: e :: l)) 1 m = (m, Go.Ok e).
Proof. unfold Go.index_at. f_equal. apply index_Ok. by split. Qed.

Lemma Run_bind_Ok {A B} (r : Go.Run A) (k : A -> Go.Run B) (m m' : Go.memory) (a : A) :
  r m = (m', Go.Ok a) -> (r ≫= k) m = k a m'.
Proof. unfold mbind, Run_bind. by intros ->. Qed.

Lemma Run_bind_Panic {A B} (r : Go.Run A) (k : A -> Go.Run B) (m m' : Go.memory)
    (why : string) :
  r m = (m', Go.Panic why) -> (r ≫= k) m = (m', Go.Panic why).
Proof. unfold mbind, Run_bind. by intros ->. Qed.

(** The statements that [FindLoc] runs on the line in which it places the
    match, on the elements of a span of two or more. *)
Lemma FindLoc_body_two (b e v0 extent ret : Z) (rest : list Z) (f : Z -> Z) :
  (loc ← Go.set_index (b :: e :: rest) 0 v0;
   loc0 ← Go.index loc 0;
   loc ← Go.set_index loc 1 (f loc0);
   loc1 ← Go.index loc 1;
   loc ← (if loc1 >? extent then Go.set_index loc 1 extent else mret loc);
   mret (ret, loc))
  = Go.Ok (ret, v0 :: (if f v0 >? extent then extent else f v0) :: rest).
Proof.
  assert (Hset : forall x y z, Go.set_index (x :: y :: rest) 1 z = Go.Ok (x :: z :: rest)).
  { intros x y z. unfold Go.set_index, Go.len.
    assert ((0 <=? 1) && (1 <? Z.of_nat (length (x :: y :: rest))) = true) as ->
      by (rewrite andb_true_iff, Z.leb_le, Z.ltb_lt; simpl length; lia).
    reflexivity. }
  assert (Hget : forall x y, Go.index (x :: y :: rest) 1 = Go.Ok y).
  { intros x y. apply index_Ok. by split. }
  change (Go.set_index (b :: e :: rest) 0 v0) with (Go.Ok (v0 :: e :: rest)).
  cbn [mbind Result_bind Go.bind].
  change (Go.index (v0 :: e :: rest) 0) with (Go.Ok v0).
  cbn [mbind Result_bind Go.bind].
  rewrite Hset. cbn [mbind Result_bind Go.bind].
  rewrite Hget. cbn [mbind Result_bind Go.bind].
  destruct (f v0 >? extent); [by rewrite Hset|done].
Qed.

(** The same statements on the slice in memory. *)
Lemma FindLoc_body_agrees (loc : Go.ints) (m : Go.memory) (v0 extent ret : Z)
    (f : Z -> Z) :
  agrees loc m
    (l ← Go.set_index (Go.elements m loc) 0 v0;
     loc0 ← Go.index l 0;
     l ← Go.set_index l 1 (f loc0);
     loc1 ← Go.index l 1;
     l ← (if loc1 >? extent then Go.set_index l 1 extent else mret l);
     mret (ret, l))
    ((loc ← Go.set_index_at loc 0 v0;
      loc0 ← Go.index_at loc 0;
      loc ← Go.set_index_at loc 1 (f loc0);
      loc1 ← Go.index_at loc 1;
      loc ← (if loc1 >? extent then Go.set_index_at loc 1 extent else mret loc);
      mret (ret, loc)) m).
Proof.
  destruct loc as [base [|[|n]] | [|b [|e rest]]].
  - split; [done|]. reflexivity.
  - rewrite (Run_bind_Ok _ _ _ _ _ (set_index_at_0 base 0 v0 m)).
    rewrite (Run_bind_Ok _ _ _ _ _ (index_at_0 base 0 _)).
    split.
    + intros p Hp. simpl. rewrite load_insert. case_decide; [|done].
      subst p. destruct Hp. simpl. by left.
    + reflexivity.
  - rewrite elements_At, FindLoc_body_two.
    rewrite (Run_bind_Ok _ _ _ _ _ (set_index_at_0 base (S n) v0 m)).
    rewrite (Run_bind_Ok _ _ _ _ _ (index_at_0 base (S n) _)).
    rewrite load_insert, decide_True by done.
    rewrite (Run_bind_Ok _ _ _ _ _ (set_index_at_1 base n (f v0) _)).
    rewrite (Run_bind_Ok _ _ _ _ _ (index_at_1 base n _)).
    rewrite load_insert, decide_True by done.
    assert (Hfar : forall p, p <> base -> p <> S base ->
              forall m', (m' = <[S base := f v0]> (<[base := v0]> m)
                     \/ m' = <[S base := extent]> (<[S base := f v0]> (<[base := v0]> m))) ->
              Go.load m' p = Go.load m p).
    { intros p Hp Hp' m' [->| ->]; rewrite ?load_insert;
        repeat (case_decide; [congruence|]); done. }
    assert (Hout : forall p, p ∉ Go.places (Go.At base (S (S n))) -> p <> base /\ p <> S base).
    { intros p Hp. split; intros ->; apply Hp; simpl; [by left | right; by left]. }
    assert (Hrest : forall m', (forall p, p <> base -> p <> S base -> Go.load m' p = Go.load m p) ->
              Go.load m' <$> seq (S (S base)) n = Go.load m <$> seq (S (S base)) n).
    { intros m' Hm'. apply Forall_fmap_ext, Forall_forall. intros p Hp.
      apply elem_of_seq in Hp. apply Hm'; lia. }
    destruct (f v0 >? extent).
    + rewrite (Run_bind_Ok _ _ _ _ _ (set_index_at_1 base n extent _)).
      unfold agrees, mret, Run_ret. cbn [fst snd]. split.
      * intros p Hp. destruct (Hout p Hp). apply Hfar; auto.
      * split; [done|]. split; [|done].
        rewrite elements_At. rewrite !load_insert.
        rewrite decide_False, decide_False, decide_True by (done || lia).
        rewrite decide_True by done.
        f_equal. f_equal. apply Hrest. intros p Hp Hp'. apply Hfar; auto.
    + unfold agrees, mbind, Run_bind, mret, Run_ret. cbn [fst snd]. split.
      * intros p Hp. destruct (Hout p Hp). apply Hfar; auto.
      * split; [done|]. split; [|done].
        rewrite elements_At. rewrite !load_insert.
        rewrite decide_False, decide_True by (done || lia).
        rewrite decide_True by done.
        f_equal. f_equal. apply Hrest. intros p Hp Hp'. apply Hfar; auto.
  - split; [done|]. reflexivity.
  - split; [done|]. reflexivity.
  - cbn [Go.elements]. rewrite FindLoc_body_two.
    rewrite (Run_bind_Ok _ _ _ _ _ (set_index_at_Made_0 b v0 _ m)).
    rewrite (Run_bind_Ok _ _ m m v0) by reflexivity.
    rewrite (Run_bind_Ok _ _ _ _ _ (set_index_at_Made_1 v0 e (f v0) _ m)).
    rewrite (Run_bind_Ok _ _ _ _ _ (index_at_Made_1 v0 (f v0) _ m)).
    destruct (f v0 >? extent).
    + rewrite (Run_bind_Ok _ _ _ _ _ (set_index_at_Made_1 v0 (f v0) extent _ m)).
      by split.
    + by split.
Qed.

Lemma FindLoc_loop_agrees (lines : list string) (substring : string) (loc : Go.ints)
    (m : Go.memory) (n pos pad count : Z) :
  forall idx counter,
    agrees loc m
      (core.FindLoc_loop lines idx n counter pos pad count substring (Go.elements m loc))
      (core.FindLoc_loop_at lines idx n counter pos pad count substring loc m).
Proof.
  induction lines as [|l lines IH]; intros idx counter.
  - by split.
  - cbn [core.FindLoc_loop core.FindLoc_loop_at].
    destruct (Go.int_add counter (Go.RuneCountInString l) >=? pos); [|apply IH].
    apply (FindLoc_body_agrees loc m (Go.int_add (Go.int_sub pos counter) pad)
             (Go.int_add (Go.RuneCountInString l) pad)
             (Go.int_sub count (Go.int_sub n (Go.int_add idx 1)))
             (fun loc0 => Go.int_sub (Go.int_add loc0 (Go.RuneCountInString substring)) 1)).
Qed.

(** [FindLoc] on a slice in memory returns what [FindLoc] tells by the
    elements of the slice, and writes to the places of that slice alone. *)
Lemma FindLoc_at_agrees {A} (f : core.File_ A) (ctx s match_ : string) (pad count : Z)
    (loc : Go.ints) (m : Go.memory) :
  agrees loc m (core.FindLoc f ctx s match_ pad count (Go.elements m loc))
    (core.FindLoc_at f ctx s match_ pad count loc m).
Proof.
  unfold core.FindLoc, core.FindLoc_at.
  destruct (initialPosition ctx match_ (core.matcher f)) as [pos substring].
  destruct (pos <? 0); [|apply FindLoc_loop_agrees].
  split; [done|]. cbn. split; [done|]. split; [done|]. apply list_subseteq_nil.
Qed.

(** What one call of [AddAlert] does: it writes to the span of its alert
    alone, and to the alerts and the history it does nothing, or it appends
    the alert, localized, and records its entry; the latter only for an
    alert that is not hidden, whose span starts at a positive column and
    whose entry is new. *)
Lemma AddAlert_cases (s : core.State) (a : core.Alert_ Go.ints) (ctx txt : string)
    (lines pad : Z) :
  let s' := (core.AddAlert s a ctx txt lines pad).1 in
  let f := core.file s in
  (forall p, p ∉ Go.places (core.Span a) -> Go.load (core.cells s') p = Go.load (core.cells s) p)
  /\ ((core.Alerts (core.file s') = core.Alerts f
       /\ core.history (core.file s') = core.history f)
      \/ (exists line span loc s0,
            core.FindLoc f (core.context_for f a ctx) txt (core.Match a) pad lines
              (Go.elements (core.cells s) (core.Span a)) = Go.Ok (line, span)
            /\ Go.elements (core.cells s') loc = span
            /\ Go.places loc ⊆ Go.places (core.Span a)
            /\ span !! 0%nat = Some s0 /\ 0 < s0 /\ core.Hide a = false
            /\ core.history f !! core.history_entry line s0 (core.Check a) = None
            /\ core.Alerts (core.file s') = core.Alerts f ++ [core.with_loc a line loc]
            /\ core.history (core.file s')
               = <[core.history_entry line s0 (core.Check a) := 1]> (core.history f))).
Proof.
  unfold core.AddAlert.
  destruct (FindLoc_at_agrees (core.file s) (core.context_for (core.file s) a ctx) txt
              (core.Match a) pad lines (core.Span a) (core.cells s)) as [Hframe Hres].
  destruct (core.FindLoc_at (core.file s) (core.context_for (core.file s) a ctx) txt
              (core.Match a) pad lines (core.Span a) (core.cells s)) as [m r].
  cbn [fst snd] in Hframe, Hres.
  destruct (core.FindLoc (core.file s) (core.context_for (core.file s) a ctx) txt
              (core.Match a) pad lines (Go.elements (core.cells s) (core.Span a)))
    as [[line span]|why] eqn:Hloc; destruct r as [[line' loc]|why']; try done.
  2:{ cbn. split; [done|]. by left. }
  destruct Hres as (<- & Hspan & Hplaces).
  cbn [core.with_loc core.Span]. unfold Go.index_at. rewrite Hspan.
  destruct (Go.index span 0) as [s0|why] eqn:Hs0; [|cbn; split; [done|]; by left].
  apply index_Ok in Hs0 as [_ Hs0]. simpl in Hs0.
  destruct (Z.gtb_spec s0 0) as [Hpos|Hneg]; [|cbn; split; [done|]; by left].
  destruct (core.ChkToCtx (core.file s)) as [c|]; [|cbn; split; [done|]; by left].
  cbn [core.Hide core.with_loc].
  destruct (core.Hide a) eqn:Hhide; [cbn; split; [done|]; by left|].
  cbn [negb core.Line core.Check core.with_loc core.history core.set_ChkToCtx].
  destruct (core.history (core.file s) !! core.history_entry line s0 (core.Check a))
    eqn:Hentry; [cbn; split; [done|]; by left|].
  cbn. split; [done|]. right. exists line, span, loc, s0.
  repeat split; first [done | lia].
Qed.

(** An alert reads as it did when memory is as it was at the places of
    its span. *)
Lemma read_alert_same (m m' : Go.memory) (b : core.Alert_ Go.ints) :
  (forall p, p ∈ Go.places (core.Span b) -> Go.load m' p = Go.load m p) ->
  core.read_alert m' b = core.read_alert m b.
Proof. intros Hsame. unfold core.read_alert. by rewrite (elements_same m m'). Qed.

(** The alerts that a file had read after a call of [AddAlert] as before,
    when the alert of the call has no element of its span in common with
    them. *)
Lemma read_apart (s : core.State) (a : core.Alert_ Go.ints) (ctx txt : string)
    (lines pad : Z) :
  apart_from s a ->
  core.read_alert (core.cells (core.AddAlert s a ctx txt lines pad).1)
    <$> core.Alerts (core.file s)
  = core.read_alert (core.cells s) <$> core.Alerts (core.file s).
Proof.
  intros Hapart. destruct (AddAlert_cases s a ctx txt lines pad) as [Hframe _].
  apply Forall_fmap_ext, Forall_forall. intros b Hb.
  apply read_alert_same. intros p Hp. apply Hframe. intros Hp'.
  exact (Hapart b Hb p Hp Hp').
Qed.

(** The alerts as they read after one call of [AddAlert] whose alert
    shares no element with the alerts of the file. *)
Lemma read_AddAlert (s : core.State) (a : core.Alert_ Go.ints) (ctx txt : string)
    (lines pad : Z) :
  apart_from s a ->
  let s' := (core.AddAlert s a ctx txt lines pad).1 in
  let f := core.file s in
  (core.Alerts (core.read s') = core.Alerts (core.read s)
   /\ core.history (core.file s') = core.history f)
  \/ (exists line span s0,
        core.FindLoc f (core.context_for f a ctx) txt (core.Match a) pad lines
          (Go.elements (core.cells s) (core.Span a)) = Go.Ok (line, span)
        /\ span !! 0%nat = Some s0 /\ 0 < s0 /\ core.Hide a = false
        /\ core.history f !! core.history_entry line s0 (core.Check a) = None
        /\ core.Alerts (core.read s') = core.Alerts (core.read s) ++ [core.with_loc a line span]
        /\ core.history (core.file s')
           = <[core.history_entry line s0 (core.Check a) := 1]> (core.history f)).
Proof.
  intros Hapart s' f. pose proof (read_apart s a ctx txt lines pad Hapart) as Hread.
  fold s' in Hread.
  destruct (AddAlert_cases s a ctx txt lines pad)
    as [_ [[HA Hh] | (line & span & loc & s0 & Hloc & Hspan & _ & Hs0 & Hpos & Hhide
                       & Hnew & HA & Hh)]]; fold s' in HA, Hh.
  - left. split; [|done]. cbn [core.read core.Alerts core.set_Alerts]. by rewrite HA.
  - right. exists line, span, s0. fold s' in Hspan. repeat split; try done.
    cbn [core.read core.Alerts core.set_Alerts]. rewrite HA, fmap_app, Hread.
    f_equal. cbn [fmap list_fmap]. unfold core.read_alert.
    cbn [core.with_loc core.Span core.Line]. by rewrite Hspan.
Qed.

(** A later alert that shares no element with the alert of a call, nor
    with the alerts of the file, shares none with the alerts of the file
    after the call. *)
Lemma apart_from_AddAlert (s : core.State) (a d : core.Alert_ Go.ints) (ctx txt : string)
    (lines pad : Z) :
  apart_from s d ->
  Go.places (core.Span a) ## Go.places (core.Span d) ->
  apart_from (core.AddAlert s a ctx txt lines pad).1 d.
Proof.
  intros Hd Had.
  destruct (AddAlert_cases s a ctx txt lines pad)
    as [_ [[HA _] | (line & span & loc & s0 & _ & _ & Hplaces & _ & _ & _ & _ & HA & _)]];
    unfold apart_from; rewrite HA; [done|].
  intros b Hb. apply elem_of_app in Hb as [Hb|Hb]; [by apply Hd|].
  apply list_elem_of_singleton in Hb. subst b. cbn [core.with_loc core.Span].
  intros p Hp Hp'. exact (Had p (Hplaces p Hp) Hp').
Qed.


(** Calls that share no element among them, nor with the alerts of the
    file: each call finds the file without an alert that shares an element
    with its own. *)
Lemma unshared_step (s : core.State) (c : core.AddAlertCall) (calls : list core.AddAlertCall) :
  unshared (c :: calls) ->
  Forall (fun d => apart_from s (core.call_alert d)) (c :: calls) ->
  unshared calls
  /\ Forall (fun d => apart_from (core.AddAlert s (core.call_alert c) (core.call_ctx c)
                                    (core.call_txt c) (core.call_lines c)
                                    (core.call_pad c)).1 (core.call_alert d)) calls.
Proof.
  intros [Hc Hcalls] Hs. split; [done|].
  apply Forall_cons in Hs as [_ Hs].
  rewrite Forall_forall in Hc, Hs |- *. intros d Hd.
  apply apart_from_AddAlert; auto.
Qed.


Lemma apart_from_empty (s : core.State) (a : core.Alert_ Go.ints) :
  core.Alerts (core.file s) = [] -> apart_from s a.
Proof. intros Hempty b Hb. rewrite Hempty in Hb. by apply elem_of_nil in Hb. Qed.

Lemma apart_from_AddAlerts (s : core.State) (calls : list core.AddAlertCall)
    (a : core.Alert_ Go.ints) :
  apart_from s a ->
  Forall (fun c => Go.places (core.Span (core.call_alert c)) ## Go.places (core.Span a))
    calls ->
  apart_from (core.AddAlerts s calls) a.
Proof.
  revert s. induction calls as [|c calls IH]; intros s Hs Hcalls; [done|].
  apply Forall_cons in Hcalls as [Hc Hcalls].
  apply IH; [|done]. by apply apart_from_AddAlert.
Qed.



End AlertFacts.

Section AlertExamples.
Import run examples.



End AlertExamples.

(** ** Sorting alerts *)

Section SortFacts.

Lemma position_lt_StrictWeak : StrictWeak position_lt.
Proof.
  unfold StrictWeak, position_lt. repeat split.
  - intros x. rewrite Z.eqb_refl. simpl. apply Z.ltb_irrefl.
  - intros x y z.
    destruct (Z.eqb_spec (core.Line x) (core.Line y)),
             (Z.eqb_spec (core.Line y) (core.Line z)),
             (Z.eqb_spec (core.Line x) (core.Line z)); simpl;
      rewrite ?Z.ltb_lt; lia.
  - intros x y z.
    destruct (Z.eqb_spec (core.Line x) (core.Line y)),
             (Z.eqb_spec (core.Line y) (core.Line z)),
             (Z.eqb_spec (core.Line x) (core.Line z)); simpl;
      rewrite ?Z.ltb_ge; lia.
Qed.

Lemma Less_position_lt (ai aj : core.Alert) :
  core.Span ai <> [] -> core.Span aj <> [] ->
  core.Less ai aj = Go.Ok (position_lt ai aj).
Proof.
  intros Hi Hj. unfold core.Less, position_lt.
  destruct (negb (core.Line ai =? core.Line aj)); [done|].
  destruct (core.Span ai) as [|x si]; [done|].
  destruct (core.Span aj) as [|y sj]; [done|].
  reflexivity.
Qed.

Lemma StronglySorted_lookup {A} (R : A -> A -> Prop) (l : list A) (i j : nat) (x y : A) :
  StronglySorted R l -> (i < j)%nat -> l !! i = Some x -> l !! j = Some y -> R x y.
Proof.
  intros Hs. revert i j. induction Hs as [|a l Hs IH Hall]; intros i j Hij Hi Hj.
  - by rewrite lookup_nil in Hi.
  - destruct j as [|j]; [lia|]. simpl in Hj. destruct i as [|i].
    + simpl in Hi. injection Hi as <-.
      rewrite Forall_forall in Hall. apply Hall. by eapply list_elem_of_lookup_2.
    + simpl in Hi. apply (IH i j); [lia|done..].
Qed.

Lemma StronglySorted_reverse {A} (R : A -> A -> Prop) (l : list A) :
  StronglySorted R l -> StronglySorted (flip R) (reverse l).
Proof.
  induction 1 as [|a l Hs IH Hall].
  - constructor.
  - rewrite reverse_cons. apply StronglySorted_app. split; [|split].
    + intros x1 x2 Hx1 Hx2. apply list_elem_of_singleton in Hx2. subst x2.
      rewrite elem_of_reverse in Hx1. rewrite Forall_forall in Hall. unfold flip. by apply Hall.
    + done.
    + repeat constructor.
Qed.

Section Insertion.
Context {A : Type} (less : A -> A -> Go.Result bool) (lt : A -> A -> bool).
Hypothesis lt_order : StrictWeak lt.

(** In the part sorted so far, last element first, no element is below
    one that follows it. *)
Let above (a b : A) : Prop := lt a b = false.

Lemma insert_down_sorted (x : A) (sorted : list A) :
  (forall y, y ∈ sorted -> less x y = Go.Ok (lt x y)) ->
  StronglySorted above sorted ->
  exists sorted', run.insert_down less x sorted = (sorted', Go.Ok ())
    /\ sorted' ≡ₚ x :: sorted /\ StronglySorted above sorted'.
Proof.
  destruct lt_order as (Hirr & Htrans & Hneg).
  induction sorted as [|y rest IH]; intros Hless Hs; simpl.
  - exists [x]. repeat split; [done|]. repeat constructor.
  - rewrite Hless by (left). apply StronglySorted_cons in Hs as [Hy Hs].
    destruct (lt x y) eqn:Hxy.
    + destruct IH as (rest' & -> & Hperm & Hs'); [intros z Hz; apply Hless; by right|done|].
      exists (y :: rest'). split; [done|]. split.
      * rewrite Hperm. apply Permutation_swap.
      * apply StronglySorted_cons. split; [|done].
        rewrite Hperm. constructor; [|done]. unfold above.
        destruct (lt y x) eqn:Hyx; [|done].
        rewrite <- (Hirr x). symmetry. by apply (Htrans x y x).
    + exists (x :: y :: rest). split; [done|]. split; [done|].
      apply StronglySorted_cons. split; [|by apply StronglySorted_cons].
      constructor; [done|]. rewrite Forall_forall in Hy |- *.
      intros z Hz. unfold above. apply (Hneg x y z); [done|]. by apply Hy.
Qed.

Lemma insertion_loop_sorted (sorted todo : list A) :
  (forall x y, x ∈ sorted ++ todo -> y ∈ sorted ++ todo -> less x y = Go.Ok (lt x y)) ->
  StronglySorted above sorted ->
  exists l', run.insertion_loop less sorted todo = (l', Go.Ok ())
    /\ l' ≡ₚ sorted ++ todo /\ StronglySorted (flip above) l'.
Proof.
  revert sorted. induction todo as [|x todo IH]; intros sorted Hless Hs; simpl.
  - exists (reverse sorted). split; [done|]. split.
    + rewrite app_nil_r. apply reverse_Permutation.
    + by apply StronglySorted_reverse.
  - destruct (insert_down_sorted x sorted) as (sorted' & -> & Hperm & Hs'); [|done|].
    { intros y Hy. apply Hless; rewrite elem_of_app, elem_of_cons; auto. }
    destruct (IH sorted') as (l' & -> & Hperm' & Hs''); [|done|].
    { intros a b Ha Hb. apply Hless.
      - rewrite elem_of_app, Hperm, elem_of_cons in Ha.
        rewrite elem_of_app, elem_of_cons. tauto.
      - rewrite elem_of_app, Hperm, elem_of_cons in Hb.
        rewrite elem_of_app, elem_of_cons. tauto. }
    exists l'. split; [done|]. split; [|done].
    rewrite Hperm', Hperm. simpl. apply Permutation_middle.
Qed.

End Insertion.

(** Insertion sort keeps what package sort documents. *)
Lemma insertion_SortContract : SortContract run.insertion_SortLib.
Proof.
  intros A less lt l Horder Hless. simpl.
  destruct (insertion_loop_sorted less lt Horder [] l) as (l' & Hrun & Hperm & Hs).
  - done.
  - constructor.
  - exists l'. split; [done|]. split; [done|].
    intros i j x y Hij Hi Hj. by apply (StronglySorted_lookup _ l' i j x y Hs).
Qed.

End SortFacts.

Section SortedAlertsFacts.
Context `{CoreUtil} `{SortLib}.

(** C7. [SortedAlerts] returns the alerts of the file rearranged so that
    of two alerts the earlier one is on a smaller line, or on the same line
    with a span that does not start later. The alerts carry a span, as
    every alert that [AddAlert] stores does. *)
Theorem SortedAlerts_by_position (f : core.File) :
  SortContract _ ->
  Forall (fun a => core.Span a <> []) (core.Alerts f) ->
  exists sorted,
    core.SortedAlerts f = (core.set_Alerts f sorted, Go.Ok sorted)
    /\ sorted ≡ₚ core.Alerts f
    /\ forall i j ai aj,
         (i < j)%nat -> sorted !! i = Some ai -> sorted !! j = Some aj ->
         exists si sj,
           core.Span ai !! 0%nat = Some si /\ core.Span aj !! 0%nat = Some sj
           /\ (core.Line ai < core.Line aj \/ (core.Line ai = core.Line aj /\ si <= sj)).
Proof.
  intros Hsort Hspans.
  destruct (Hsort core.Alert core.Less position_lt (core.Alerts f) position_lt_StrictWeak)
    as (sorted & Hrun & Hperm & Hord).
  { intros x y Hx Hy. rewrite Forall_forall in Hspans.
    apply Less_position_lt; by apply Hspans. }
  exists sorted. split; [|split; [done|]].
  - unfold core.SortedAlerts. by rewrite Hrun.
  - intros i j ai aj Hij Hi Hj.
    assert (Hspans' : Forall (fun a => core.Span a <> []) sorted) by by rewrite Hperm.
    rewrite Forall_forall in Hspans'.
    assert (Hai := Hspans' ai (list_elem_of_lookup_2 _ _ _ Hi)).
    assert (Haj := Hspans' aj (list_elem_of_lookup_2 _ _ _ Hj)).
    specialize (Hord i j ai aj Hij Hi Hj). unfold position_lt in Hord.
    destruct (core.Span ai) as [|si ?]; [done|].
    destruct (core.Span aj) as [|sj ?]; [done|].
    exists si, sj. split; [done|]. split; [done|]. simpl in Hord.
    destruct (Z.eqb_spec (core.Line aj) (core.Line ai)); simpl in Hord;
      apply Z.ltb_ge in Hord; lia.
Qed.

End SortedAlertsFacts.

(** ** The occurrence rule *)

Section OccurrenceFacts.
Context `{CoreUtil} `{RegexpLib} `{TextLib}.

(** C1 fails on a text without a match: when the count 0 is below [min]
    (or above [max]), [checkOccurrence] reads [locs[0]] of an empty slice
    and panics; it returns no alert. *)
Theorem checkOccurrence_without_match (txt : string) (chk : check.Occurrence)
    (f : core.File) (r : CompiledRegexp) :
  re_FindAllStringIndex r txt = [] ->
  0 > check.Max chk \/ 0 < check.Min chk ->
  check.checkOccurrence txt chk f r = Go.Panic "index out of range".
Proof.
  intros Hlocs Hcount. unfold check.checkOccurrence. rewrite Hlocs. simpl.
  change (Go.len (@nil (list Z))) with 0.
  assert (((0 >? check.Max chk) || (0 <? check.Min chk)) = true) as ->; [|done].
  apply orb_true_iff. rewrite Z.gtb_gt, Z.ltb_lt. lia.
Qed.

(** With a match, the rest of C1 holds: one alert, on the first match,
    exactly when the count is above [max] or below [min]. *)
Lemma checkOccurrence_with_match (txt : string) (chk : check.Occurrence)
    (f : core.File) (r : CompiledRegexp) (lo hi : Z) (locs : list (list Z)) :
  re_FindAllStringIndex r txt = [lo; hi] :: locs ->
  0 <= lo <= hi -> hi <= Go.strlen txt ->
  let count := Go.len ([lo; hi] :: locs) in
  exists alerts,
    check.checkOccurrence txt chk f r = Go.Ok alerts
    /\ ((count > check.Max chk \/ count < check.Min chk) ->
        exists a, alerts = [a] /\ core.Span a = [lo; hi]
          /\ core.Message a = check.Message (check.Occurrence_Definition chk))
    /\ (~ (count > check.Max chk \/ count < check.Min chk) -> alerts = []).
Proof.
  intros Hlocs Hlo Hhi count. unfold check.checkOccurrence. rewrite Hlocs.
  fold count.
  destruct ((count >? check.Max chk) || (count <? check.Min chk)) eqn:Hout.
  - unfold check.makeAlert, Go.slice. simpl.
    assert (((0 <=? lo) && (lo <=? hi) && (hi <=? Go.strlen txt)) = true) as ->.
    { rewrite !andb_true_iff, !Z.leb_le. lia. }
    simpl. eexists. split; [reflexivity|]. split.
    + intros _. eexists. split; [reflexivity|]. done.
    + intros Hno. apply orb_true_iff in Hout. rewrite Z.gtb_gt, Z.ltb_lt in Hout. tauto.
  - exists []. split; [done|]. split; [|done].
    intros Hyes. apply orb_false_iff in Hout as [Hmax Hmin].
    rewrite Z.gtb_ltb in Hmax. apply Z.ltb_ge in Hmax. apply Z.ltb_ge in Hmin. lia.
Qed.

End OccurrenceFacts.

(** ** Loading a rule definition *)

Section LoadFacts.
Context `{CoreUtil} `{RegexpLib} `{TextLib}.

(** C6 fails on a manifest whose [extends] is not a string (a number, a
    list, null): [validateDefinition] asserts the type of the value and
    panics, so [addCheck], and [AddCheck] with it, returns no error. *)
Theorem addCheck_extends_not_string (builders : string -> check.builder)
    (mgr : check.Manager) (file chkName : string) (generic : gmap string iface) (v : iface) :
  yaml_Unmarshal file = inr generic ->
  generic !! "extends" = Some v ->
  (forall s, v <> IString s) ->
  exists why,
    (check.addCheck builders mgr file chkName).2 = Go.Panic why
    /\ (check.AddCheck builders mgr file chkName).2 = Go.Panic why.
Proof.
  intros Hyaml Hext Hv. unfold check.AddCheck, check.addCheck, check.validateDefinition.
  rewrite Hyaml, Hext.
  destruct v; try (eexists; split; reflexivity). by destruct (Hv s).
Qed.

Lemma StringInSlice_elem_of (a : string) (slice : list string) :
  core.StringInSlice a slice = true <-> a ∈ slice.
Proof.
  unfold core.StringInSlice. rewrite existsb_exists. split.
  - intros (x & Hx & Heq). apply String.eqb_eq in Heq. subst. by apply list_elem_of_In.
  - intros Ha. exists a. split; [by apply list_elem_of_In | apply String.eqb_refl].
Qed.

(** On a map whose [extends], when present, is a string,
    [validateDefinition] returns, and it returns an error exactly when
    [extends] is absent or no extension point, or [message] is absent. *)
Lemma validateDefinition_error (generic : gmap string iface) (name : string) :
  (forall v, generic !! "extends" = Some v -> exists s, v = IString s) ->
  exists r, check.validateDefinition generic name = Go.Ok r
    /\ (is_Some r
        <-> generic !! "extends" = None
            \/ (exists s, generic !! "extends" = Some (IString s)
                  /\ s ∉ check.extensionPoints)
            \/ generic !! "message" = None).
Proof.
  intros Htyped. unfold check.validateDefinition.
  destruct (generic !! "extends") as [v|] eqn:Hext.
  2:{ eexists. split; [reflexivity|]. split; eauto. }
  destruct (Htyped v eq_refl) as [s ->].
  change (check.assert_string (IString s) ≫= ?k) with (k s). cbv beta.
  destruct (core.StringInSlice s check.extensionPoints) eqn:Hin.
  - apply StringInSlice_elem_of in Hin.
    destruct (generic !! "message") as [m|] eqn:Hmsg; simpl.
    + eexists. split; [reflexivity|]. split.
      * intros [e [=]].
      * intros [[=] | [(s' & [= <-] & Hnot) | [=]]]. done.
    + eexists. split; [reflexivity|]. split; eauto.
  - eexists. split; [reflexivity|]. split; [intros _|eauto]. right. left.
    exists s. split; [done|]. intros Hs. apply StringInSlice_elem_of in Hs. congruence.
Qed.

(** For a manifest whose [extends], when present, is a string, C6 holds:
    an error is returned exactly when decoding fails, or [extends] is
    absent or no extension point, or [message] is absent. *)
Lemma addCheck_error_iff (builders : string -> check.builder)
    (mgr : check.Manager) (file chkName : string) :
  (forall generic v, yaml_Unmarshal file = inr generic ->
     generic !! "extends" = Some v -> exists s, v = IString s) ->
  (exists e, (check.addCheck builders mgr file chkName).2 = Go.Ok (Some e))
  <-> ((exists err, yaml_Unmarshal file = inl err)
       \/ exists generic, yaml_Unmarshal file = inr generic
            /\ (generic !! "extends" = None
                \/ (exists s, generic !! "extends" = Some (IString s)
                      /\ s ∉ check.extensionPoints)
                \/ generic !! "message" = None)).
Proof.
  intros Htyped. unfold check.addCheck.
  destruct (yaml_Unmarshal file) as [err|generic] eqn:Hyaml.
  { split; eauto. }
  destruct (validateDefinition_error generic chkName (fun v => Htyped generic v eq_refl))
    as (r & -> & Hr).
  destruct r as [e|].
  - split; [intros _|eauto]. right. exists generic. split; [done|].
    apply Hr. eauto.
  - split.
    + intros [e He]. exfalso. revert He.
      repeat case_match; simpl; intros; discriminate.
    + intros [[err [=]] | (g & [= <-] & Hg)]. apply Hr in Hg. by destruct Hg.
Qed.

(** Keys other than [extends] and [message] do not change what
    [validateDefinition] answers. *)
Lemma validateDefinition_other_key (generic : gmap string iface) (name key : string)
    (v : iface) :
  key <> "extends" -> key <> "message" ->
  check.validateDefinition (<[key := v]> generic) name
  = check.validateDefinition generic name.
Proof.
  intros He Hm. unfold check.validateDefinition.
  by rewrite !lookup_insert_ne.
Qed.

End LoadFacts.

(** ** The substitution rule *)

Section SubstitutionFacts.
Context `{CoreUtil} `{RegexpLib} `{TextLib}.

Lemma index_lookup {A} (l : list A) (i : nat) (x : A) :
  l !! i = Some x -> Go.index l (Z.of_nat i) = Go.Ok x.
Proof. intros Hl. apply index_Ok. rewrite Nat2Z.id. split; [lia | done]. Qed.

Lemma index_None {A} (l : list A) (i : nat) :
  l !! i = None -> exists why, Go.index l (Z.of_nat i) = Go.Panic why.
Proof.
  intros Hl. destruct (Go.index l (Z.of_nat i)) as [x|why] eqn:Hi; [|eauto].
  apply index_Ok in Hi as [_ Hi]. rewrite Nat2Z.id in Hi. congruence.
Qed.

(** The turn of the inner loop at the first offset of group [g]. *)
Lemma substitution_step_group (txt POS_ : string) (repl : list string)
    (submat : list Z) (g : nat) (mat hi : Z) (st st' : check.SubstState) :
  (1 <= g)%nat ->
  submat !! (2 * g + 1)%nat = Some hi ->
  check.substitution_step txt POS_ repl submat (2 * Z.of_nat g) mat st = Go.Ok st' ->
  exists new,
    check.alerts st' = check.alerts st ++ new
    /\ Forall2 (alert_for txt repl) new
         (filter (differs txt repl) (if mat =? -1 then [] else [(g, mat, hi)])).
Proof.
  intros Hg Hhi. unfold check.substitution_step.
  destruct (mat =? -1) eqn:Hmat; simpl.
  { intros [= <-]. exists []. rewrite app_nil_r. split; [done|constructor]. }
  assert ((2 * Z.of_nat g >? 0) = true) as -> by (apply Z.gtb_lt; lia).
  assert (Z.rem (2 * Z.of_nat g) 2 = 0) as ->
    by (rewrite Z.mul_comm; apply Z.rem_mul; lia).
  simpl.
  replace (2 * Z.of_nat g + 1) with (Z.of_nat (2 * g + 1)) by lia.
  rewrite (index_lookup _ _ _ Hhi).
  change (Go.Ok hi ≫= ?k) with (k hi). cbv beta.
  replace (Z.quot (2 * Z.of_nat g) 2 - 1) with (Z.of_nat (g - 1)).
  2:{ rewrite Z.mul_comm, Z.quot_mul by lia. lia. }
  destruct (repl !! (g - 1)%nat) as [expected|] eqn:Hrepl.
  2:{ destruct (index_None _ _ Hrepl) as [why ->]. discriminate. }
  rewrite (index_lookup _ _ _ Hrepl).
  change (Go.Ok expected ≫= ?k) with (k expected). cbv beta.
  destruct (Go.slice txt mat hi) as [found|why] eqn:Hslice; [|discriminate].
  change (Go.Ok found ≫= ?k) with (k found). cbv beta.
  rewrite filter_cons, filter_nil.
  assert (Hd : differs txt repl (g, mat, hi)
               = negb (String.eqb expected (TrimSpace found)))
    by (unfold differs; by rewrite Hslice, Hrepl).
  destruct (String.eqb_spec expected (TrimSpace found)) as [Heq|Hne];
    simpl in Hd |- *.
  - intros [= <-]. exists []. rewrite app_nil_r. split; [done|].
    rewrite decide_False by (rewrite Hd; intros []). constructor.
  - rewrite decide_True by (by rewrite Hd).
    repeat case_match; intros [= <-]; simpl; eexists; (split; [reflexivity|]);
      (constructor; [|constructor]); (split; [reflexivity|]);
      exists found, expected; repeat split; simpl; congruence.
Qed.

(** The turn at the second offset of a group, and the turns for the
    offsets of the match itself, change nothing. *)
Lemma substitution_step_odd (txt POS_ : string) (repl : list string)
    (submat : list Z) (g : nat) (mat : Z) (st : check.SubstState) :
  check.substitution_step txt POS_ repl submat (2 * Z.of_nat g + 1) mat st = Go.Ok st.
Proof.
  unfold check.substitution_step.
  assert (Z.rem (2 * Z.of_nat g + 1) 2 = 1) as ->.
  { rewrite Z.rem_mod_nonneg by lia.
    rewrite Z.add_comm, Z.mul_comm, Z_mod_plus_full. reflexivity. }
  by rewrite !andb_false_r.
Qed.

Lemma substitution_step_zero (txt POS_ : string) (repl : list string)
    (submat : list Z) (mat : Z) (st : check.SubstState) :
  check.substitution_step txt POS_ repl submat 0 mat st = Go.Ok st.
Proof.
  unfold check.substitution_step. simpl. by rewrite andb_false_r.
Qed.

Lemma list_pair_ind {A} (P : list A -> Prop) :
  P [] -> (forall a, P [a]) -> (forall a b l, P l -> P (a :: b :: l)) ->
  forall l, P l.
Proof.
  intros Hnil Hone Hstep l.
  assert (P l /\ forall a, P (a :: l)) as [Hl _]; [|done].
  induction l as [|b l [IH1 IH2]]; [by split|].
  split; [apply IH2|]. intros a. by apply Hstep.
Qed.

(** The inner loop from the first offset of group [g] on: the alerts it
    adds are, in order, alerts for the groups from [g] on that took part
    and differ from their replacement. *)
Lemma substitution_inner_groups (txt POS_ : string) (repl : list string)
    (submat : list Z) (rest : list Z) :
  forall (g : nat) (pre : list Z) (st st' : check.SubstState),
    submat = pre ++ rest -> length pre = (2 * g)%nat -> (1 <= g)%nat ->
    check.substitution_inner txt POS_ repl submat rest (2 * Z.of_nat g) st = Go.Ok st' ->
    exists new,
      check.alerts st' = check.alerts st ++ new
      /\ Forall2 (alert_for txt repl) new
           (filter (differs txt repl) (groups_from g (offset_pairs rest))).
Proof.
  induction rest as [|a|a b rest IH] using list_pair_ind;
    intros g pre st st' Hsub Hpre Hg; simpl.
  - intros [= <-]. exists []. rewrite app_nil_r. split; [done|constructor].
  - destruct (check.substitution_step txt POS_ repl submat (2 * Z.of_nat g) a st)
      as [st1|why] eqn:Hstep; [|discriminate].
    intros [= <-]. exists []. rewrite app_nil_r. split; [|constructor].
    revert Hstep. unfold check.substitution_step.
    destruct (a =? -1); simpl; [by intros [= <-]|].
    assert ((2 * Z.of_nat g >? 0) = true) as -> by (apply Z.gtb_lt; lia).
    assert (Z.rem (2 * Z.of_nat g) 2 = 0) as ->
      by (rewrite Z.mul_comm; apply Z.rem_mul; lia).
    simpl. replace (2 * Z.of_nat g + 1) with (Z.of_nat (2 * g + 1)) by lia.
    destruct (index_None submat (2 * g + 1)) as [why ->]; [|discriminate].
    apply lookup_ge_None. subst submat. rewrite length_app. simpl. lia.
  - destruct (check.substitution_step txt POS_ repl submat (2 * Z.of_nat g) a st)
      as [st1|why] eqn:Hstep; [|discriminate].
    change (Go.Ok st1 ≫= ?k) with (k st1). cbv beta.
    rewrite substitution_step_odd.
    change (Go.Ok st1 ≫= ?k) with (k st1). cbv beta.
    replace (2 * Z.of_nat g + 1 + 1) with (2 * Z.of_nat (S g)) by lia.
    intros Hrest.
    destruct (substitution_step_group txt POS_ repl submat g a b st st1)
      as (new1 & Hnew1 & Hfor1); [done| |done|].
    { subst submat. rewrite lookup_app_r by lia.
      replace (2 * g + 1 - length pre)%nat with 1%nat by lia. done. }
    destruct (IH (S g) (pre ++ [a; b]) st1 st') as (new2 & Hnew2 & Hfor2);
      [by rewrite <- app_assoc | rewrite length_app; simpl; lia | lia | done |].
    exists (new1 ++ new2). split.
    + by rewrite Hnew2, Hnew1, app_assoc.
    + rewrite filter_app. by apply Forall2_app.
Qed.

(** The inner loop over one match. *)
Lemma substitution_inner_match (txt POS_ : string) (repl : list string)
    (submat : list Z) (st st' : check.SubstState) :
  check.substitution_inner txt POS_ repl submat submat 0 st = Go.Ok st' ->
  exists new,
    check.alerts st' = check.alerts st ++ new
    /\ Forall2 (alert_for txt repl) new
         (filter (differs txt repl) (group_matches submat)).
Proof.
  destruct submat as [|a [|b rest]]; simpl.
  - intros [= <-]. exists []. rewrite app_nil_r. split; [done|constructor].
  - rewrite substitution_step_zero. intros [= <-].
    exists []. rewrite app_nil_r. split; [done|constructor].
  - rewrite substitution_step_zero.
    change (Go.Ok st ≫= ?k) with (k st). cbv beta.
    change (0 + 1) with (2 * Z.of_nat 0 + 1).
    rewrite (substitution_step_odd txt POS_ repl (a :: b :: rest) 0 b st).
    change (Go.Ok st ≫= ?k) with (k st). cbv beta.
    change (2 * Z.of_nat 0 + 1 + 1) with (2 * Z.of_nat 1).
    apply (substitution_inner_groups txt POS_ repl (a :: b :: rest) rest 1 [a; b]);
      [done | done | lia].
Qed.

Lemma substitution_outer_matches (txt POS_ : string) (repl : list string)
    (submats : list (list Z)) :
  forall st st' : check.SubstState,
    check.substitution_outer txt POS_ repl submats st = Go.Ok st' ->
    exists new,
      check.alerts st' = check.alerts st ++ new
      /\ Forall2 (alert_for txt repl) new
           (filter (differs txt repl) (mjoin (group_matches <$> submats))).
Proof.
  induction submats as [|submat submats IH]; intros st st'; simpl.
  - intros [= <-]. exists []. rewrite app_nil_r. split; [done|constructor].
  - destruct (check.substitution_inner txt POS_ repl submat submat 0 st)
      as [st1|why] eqn:Hinner; [|discriminate].
    change (Go.Ok st1 ≫= ?k) with (k st1). cbv beta. intros Hrest.
    destruct (substitution_inner_match _ _ _ _ _ _ Hinner) as (new1 & Hnew1 & Hfor1).
    destruct (IH _ _ Hrest) as (new2 & Hnew2 & Hfor2).
    exists (new1 ++ new2). split.
    + by rewrite Hnew2, Hnew1, app_assoc.
    + rewrite filter_app. by apply Forall2_app.
Qed.

Lemma substitution_step_returns (txt POS_ : string) (repl : list string)
    (submat : list Z) (g : nat) (mat hi : Z) (st : check.SubstState) :
  (1 <= g <= length repl)%nat ->
  submat !! (2 * g + 1)%nat = Some hi ->
  mat = -1 \/ (0 <= mat <= hi /\ hi <= Go.strlen txt) ->
  exists st', check.substitution_step txt POS_ repl submat (2 * Z.of_nat g) mat st
              = Go.Ok st'.
Proof.
  intros Hg Hhi Hmat. unfold check.substitution_step.
  destruct (Z.eqb_spec mat (-1)) as [->|Hne]; simpl; [eauto|].
  destruct Hmat as [?|[Hlo Hle]]; [done|].
  assert ((2 * Z.of_nat g >? 0) = true) as -> by (apply Z.gtb_lt; lia).
  assert (Z.rem (2 * Z.of_nat g) 2 = 0) as ->
    by (rewrite Z.mul_comm; apply Z.rem_mul; lia).
  simpl.
  replace (2 * Z.of_nat g + 1) with (Z.of_nat (2 * g + 1)) by lia.
  rewrite (index_lookup _ _ _ Hhi).
  change (Go.Ok hi ≫= ?k) with (k hi). cbv beta.
  replace (Z.quot (2 * Z.of_nat g) 2 - 1) with (Z.of_nat (g - 1)).
  2:{ rewrite Z.mul_comm, Z.quot_mul by lia. lia. }
  destruct (lookup_lt_is_Some_2 repl (g - 1)) as [expected Hrepl]; [lia|].
  rewrite (index_lookup _ _ _ Hrepl).
  change (Go.Ok expected ≫= ?k) with (k expected). cbv beta.
  unfold Go.slice.
  assert (((0 <=? mat) && (mat <=? hi) && (hi <=? Go.strlen txt)) = true) as ->.
  { rewrite !andb_true_iff, !Z.leb_le. lia. }
  change (Go.Ok ?x ≫= ?k) with (k x). cbv beta.
  repeat case_match; eauto.
Qed.

Lemma substitution_inner_returns (txt POS_ : string) (repl : list string)
    (submat : list Z) (rest : list Z) :
  forall (g : nat) (pre : list Z) (st : check.SubstState),
    submat = pre ++ rest -> length pre = (2 * g)%nat -> (1 <= g)%nat ->
    length submat = (2 * (1 + length repl))%nat ->
    Forall (fun p => p.1 = -1 \/ (0 <= p.1 <= p.2 /\ p.2 <= Go.strlen txt))
      (offset_pairs rest) ->
    exists st', check.substitution_inner txt POS_ repl submat rest (2 * Z.of_nat g) st
                = Go.Ok st'.
Proof.
  induction rest as [|a|a b rest IH] using list_pair_ind;
    intros g pre st Hsub Hpre Hg Hlen Hoff; simpl.
  - eauto.
  - exfalso. subst submat. rewrite length_app in Hlen. simpl in Hlen. lia.
  - simpl in Hoff. apply Forall_cons in Hoff as [Ha Hoff]. simpl in Ha.
    destruct (substitution_step_returns txt POS_ repl submat g a b st) as [st1 ->];
      [ | |done|].
    { subst submat. rewrite length_app in Hlen. simpl in Hlen. lia. }
    { subst submat. rewrite lookup_app_r by lia.
      replace (2 * g + 1 - length pre)%nat with 1%nat by lia. done. }
    change (Go.Ok st1 ≫= ?k) with (k st1). cbv beta.
    rewrite substitution_step_odd.
    change (Go.Ok st1 ≫= ?k) with (k st1). cbv beta.
    replace (2 * Z.of_nat g + 1 + 1) with (2 * Z.of_nat (S g)) by lia.
    apply (IH (S g) (pre ++ [a; b]));
      [by rewrite <- app_assoc | rewrite length_app; simpl; lia | lia | done | done].
Qed.

Lemma substitution_outer_returns (txt POS_ : string) (repl : list string)
    (submats : list (list Z)) :
  Forall (match_offsets txt repl) submats ->
  forall st, exists st', check.substitution_outer txt POS_ repl submats st = Go.Ok st'.
Proof.
  induction 1 as [|submat submats [Hlen Hoff] _ IH]; intros st; simpl; [eauto|].
  assert (exists st1, check.substitution_inner txt POS_ repl submat submat 0 st
                      = Go.Ok st1) as [st1 ->].
  { destruct submat as [|a [|b rest]]; simpl in Hlen; [lia..|]. simpl.
    rewrite substitution_step_zero.
    change (Go.Ok st ≫= ?k) with (k st). cbv beta.
    change (0 + 1) with (2 * Z.of_nat 0 + 1).
    rewrite (substitution_step_odd txt POS_ repl (a :: b :: rest) 0 b st).
    change (Go.Ok st ≫= ?k) with (k st). cbv beta.
    change (2 * Z.of_nat 0 + 1 + 1) with (2 * Z.of_nat 1).
    apply (substitution_inner_returns txt POS_ repl (a :: b :: rest) rest 1 [a; b]);
      [done | done | lia | done |].
    simpl in Hoff. by apply Forall_cons in Hoff as [_ Hoff]. }
  apply IH.
Qed.

(** [checkSubstitution] returns whenever the library hands it matches of
    a pattern with one group per replacement. *)
Lemma checkSubstitution_returns (txt : string) (chk : check.Substitution)
    (f : core.File) (r : CompiledRegexp) (repl : list string) :
  Forall (match_offsets txt repl) (re_FindAllStringSubmatchIndex r txt) ->
  exists alerts, check.checkSubstitution txt chk f r repl = Go.Ok alerts.
Proof.
  intros Hwf. unfold check.checkSubstitution.
  destruct (re_MatchString r txt); simpl; [|eauto].
  destruct (substitution_outer_returns txt (check.POS chk) repl _ Hwf
              {| check.alerts := []; check.pos := false;
                 check.chk_ := check.Substitution_Definition chk |}) as [st' ->].
  eauto.
Qed.

(** C10. The alerts that [checkSubstitution] returns are, one for one and
    in order, alerts for the capture-group matches whose trimmed text
    differs from the replacement of their group: a match whose trimmed
    text is the replacement gets no alert. *)
Theorem checkSubstitution_only_when_differs (txt : string) (chk : check.Substitution)
    (f : core.File) (r : CompiledRegexp) (repl : list string) (alerts : list core.Alert) :
  check.checkSubstitution txt chk f r repl = Go.Ok alerts ->
  Forall2 (alert_for txt repl) alerts
    (filter (differs txt repl) (all_group_matches r txt)).
Proof.
  unfold check.checkSubstitution, all_group_matches.
  destruct (re_MatchString r txt); simpl.
  - destruct (check.substitution_outer txt (check.POS chk) repl
                (re_FindAllStringSubmatchIndex r txt) _) as [st'|why] eqn:Houter;
      [|discriminate].
    intros [= <-].
    destruct (substitution_outer_matches _ _ _ _ _ _ Houter) as (new & Hnew & Hfor).
    simpl in Hnew. by rewrite Hnew.
  - intros [= <-]. constructor.
Qed.

End SubstitutionFacts.

(** ** The entries of the history *)

Section HistoryFacts.
Context `{CoreUtil}.

Lemma pretty_N_go_dashless (x : N) (s : string) :
  dashless s -> dashless (pretty_N_go x s).
Proof.
  revert s. induction (N.lt_wf_0 x) as [x _ IH]; intros s Hs.
  assert (x = 0 \/ 0 < x)%N as [->|Hx] by lia; [by rewrite pretty_N_go_0|].
  rewrite pretty_N_go_step by done. apply IH; [by apply N.div_lt|].
  split; [|done]. unfold pretty_N_char. repeat case_match; discriminate.
Qed.

Lemma pretty_N_go_nonempty (x : N) (s : string) :
  s <> "" -> pretty_N_go x s <> "".
Proof.
  revert s. induction (N.lt_wf_0 x) as [x _ IH]; intros s Hs.
  assert (x = 0 \/ 0 < x)%N as [->|Hx] by lia; [by rewrite pretty_N_go_0|].
  rewrite pretty_N_go_step by done. apply IH; [by apply N.div_lt|done].
Qed.

(** A natural number is printed as a non-empty string without a dash. *)
Lemma pretty_N_digits (x : N) :
  exists c r, pretty x = String c r /\ c <> "-"%char /\ dashless r.
Proof.
  assert (Hd : dashless (pretty x)).
  { unfold pretty, pretty_N. case_decide; [by repeat split|].
    by apply pretty_N_go_dashless. }
  assert (Hne : pretty x <> "").
  { unfold pretty, pretty_N. case_decide; [done|].
    assert (0 < x)%N by lia. rewrite pretty_N_go_step by done.
    by apply pretty_N_go_nonempty. }
  destruct (pretty x) as [|c r]; [done|]. destruct Hd. eauto.
Qed.

Lemma dashless_sep_inj (d d' r r' : string) :
  dashless d -> dashless d' ->
  d +:+ String "-" r = d' +:+ String "-" r' -> d = d' /\ r = r'.
Proof.
  revert d'. induction d as [|c d IH]; intros [|c' d'] Hd Hd' Heq; simpl in *.
  - by injection Heq as ->.
  - injection Heq as <- _. by destruct Hd'.
  - injection Heq as -> _. by destruct Hd.
  - injection Heq as -> Heq. destruct Hd as [_ Hd], Hd' as [_ Hd'].
    destruct (IH d' Hd Hd' Heq) as [-> ->]. done.
Qed.

(** A printed integer followed by a dash can be read back in one way. *)
Lemma Itoa_sep_inj (z z' : Z) (r r' : string) :
  Go.Itoa z +:+ String "-" r = Go.Itoa z' +:+ String "-" r' -> z = z' /\ r = r'.
Proof.
  assert (Hnat : forall z, 0 <= z ->
            exists c t, Go.Itoa z = String c t /\ c <> "-"%char /\ dashless t).
  { intros [|p|p] Hz; [by exists "0"%char, ""; repeat split| |lia].
    apply (pretty_N_digits (N.pos p)). }
  assert (Hneg : forall z, z < 0 ->
            exists c t, Go.Itoa z = String "-" (String c t)
                        /\ c <> "-"%char /\ dashless t).
  { intros [|p|p] Hz; [lia..|].
    destruct (pretty_N_digits (N.pos p)) as (c & t & Hp & Hc & Ht).
    exists c, t. split; [|done]. unfold Go.Itoa, pretty, pretty_Z.
    change (pretty p) with (pretty (N.pos p)). by rewrite Hp. }
  intros Heq.
  destruct (Z.lt_ge_cases z 0) as [Hz|Hz], (Z.lt_ge_cases z' 0) as [Hz'|Hz'].
  - destruct (Hneg z Hz) as (c & t & Hi & Hc & Ht),
             (Hneg z' Hz') as (c' & t' & Hi' & Hc' & Ht').
    rewrite Hi, Hi' in Heq. injection Heq as -> Heq.
    destruct (dashless_sep_inj t t' r r' Ht Ht' Heq) as [-> ->].
    split; [|done]. apply (inj pretty). unfold Go.Itoa in Hi, Hi'. congruence.
  - destruct (Hneg z Hz) as (c & t & Hi & Hc & Ht),
             (Hnat z' Hz') as (c' & t' & Hi' & Hc' & Ht').
    rewrite Hi, Hi' in Heq. by injection Heq as <-.
  - destruct (Hnat z Hz) as (c & t & Hi & Hc & Ht),
             (Hneg z' Hz') as (c' & t' & Hi' & Hc' & Ht').
    rewrite Hi, Hi' in Heq. by injection Heq as ->.
  - destruct (Hnat z Hz) as (c & t & Hi & Hc & Ht),
             (Hnat z' Hz') as (c' & t' & Hi' & Hc' & Ht').
    destruct (dashless_sep_inj (Go.Itoa z) (Go.Itoa z') r r') as [Hd ->];
      [rewrite Hi; by split | rewrite Hi'; by split | done |].
    split; [|done]. by apply (inj pretty).
Qed.

(** Two alerts have the same entry only when they have the same line,
    span start and check, dashes and digits in check names
    notwithstanding. *)
Theorem history_entry_inj (line line' span0 span0' : Z) (check check' : string) :
  core.history_entry line span0 check = core.history_entry line' span0' check' ->
  line = line' /\ span0 = span0' /\ check = check'.
Proof.
  unfold core.history_entry. simpl. intros Heq.
  apply Itoa_sep_inj in Heq as [-> Heq].
  apply Itoa_sep_inj in Heq as [-> ->]. done.
Qed.

End HistoryFacts.

(** ** More on adding alerts *)

Section MoreAlertFacts.
Context `{CoreUtil}.

Lemma set_index_lookup {A} (l : list A) (i : nat) (x y : A) :
  l !! i = Some y -> Go.set_index l (Z.of_nat i) x = Go.Ok (<[i := x]> l).
Proof.
  intros Hl. apply lookup_lt_Some in Hl. unfold Go.set_index, Go.len.
  rewrite Nat2Z.id.
  assert (((0 <=? Z.of_nat i) && (Z.of_nat i <? Z.of_nat (length l))) = true) as ->;
    [|done].
  rewrite andb_true_iff, Z.leb_le, Z.ltb_lt. lia.
Qed.

Lemma set_index_0 {A} (l : list A) (b x : A) :
  Go.set_index (b :: l) 0 x = Go.Ok (x :: l).
Proof. apply (set_index_lookup (b :: l) 0 x b eq_refl). Qed.

Lemma set_index_1 {A} (l : list A) (b e x : A) :
  Go.set_index (b :: e :: l) 1 x = Go.Ok (b :: x :: l).
Proof. apply (set_index_lookup (b :: e :: l) 1 x e eq_refl). Qed.

Lemma index_0 {A} (l : list A) (b : A) : Go.index (b :: l) 0 = Go.Ok b.
Proof. apply (index_lookup (b :: l) 0 b eq_refl). Qed.

Lemma index_1 {A} (l : list A) (b e : A) : Go.index (b :: e :: l) 1 = Go.Ok e.
Proof. apply (index_lookup (b :: e :: l) 1 e eq_refl). Qed.

(** The statements that [FindLoc] runs on the line in which it places the
    match, on a span of two elements or more: the span start is set, the
    span end is computed from it and clamped to the extent of the line. *)
Lemma FindLoc_body_returns (b e v0 extent ret : Z) (rest : list Z) (f : Z -> Z) :
  exists span,
    (loc ← Go.set_index (b :: e :: rest) 0 v0;
     loc0 ← Go.index loc 0;
     loc ← Go.set_index loc 1 (f loc0);
     loc1 ← Go.index loc 1;
     loc ← (if loc1 >? extent then Go.set_index loc 1 extent else mret loc);
     mret (ret, loc)) = Go.Ok (ret, span)
    /\ length span = S (S (length rest))
    /\ span !! 0%nat = Some v0
    /\ span !! 1%nat = Some (if f v0 >? extent then extent else f v0).
Proof.
  rewrite set_index_0. simpl. rewrite set_index_1. simpl.
  rewrite index_1. simpl.
  destruct (f v0 >? extent).
  - rewrite set_index_1. by eexists.
  - by eexists.
Qed.

(** The same statements on any span: when they return, the span end is at
    most the extent. *)
Lemma FindLoc_body_clamped (loc : list Z) (v0 extent ret : Z) (f : Z -> Z)
    (line : Z) (span : list Z) :
  (loc ← Go.set_index loc 0 v0;
   loc0 ← Go.index loc 0;
   loc ← Go.set_index loc 1 (f loc0);
   loc1 ← Go.index loc 1;
   loc ← (if loc1 >? extent then Go.set_index loc 1 extent else mret loc);
   mret (ret, loc)) = Go.Ok (line, span) ->
  exists e, span !! 1%nat = Some e /\ e <= extent.
Proof.
  destruct loc as [|b [|e rest]]; [discriminate..|].
  destruct (FindLoc_body_returns b e v0 extent ret rest f) as (span' & -> & _ & _ & H1).
  intros [= <- <-]. eexists. split; [exact H1|].
  destruct (Z.gtb_spec (f v0) extent); lia.
Qed.

(** With a span of two elements or more, the loop of [FindLoc] returns,
    and the span it returns has as many elements. *)
Lemma FindLoc_loop_returns (lines : list string) (substring : string) (loc : list Z)
    (n pos pad count : Z) :
  (2 <= length loc)%nat ->
  forall idx counter,
    exists line span,
      core.FindLoc_loop lines idx n counter pos pad count substring loc
      = Go.Ok (line, span)
      /\ length span = length loc.
Proof.
  intros Hlen. destruct loc as [|b [|e rest]]; simpl in Hlen; [lia..|].
  induction lines as [|l lines IH]; intros idx counter.
  - eexists _, _. split; reflexivity.
  - cbn [core.FindLoc_loop].
    destruct (Go.int_add counter (Go.RuneCountInString l) >=? pos); [|apply IH].
    destruct (FindLoc_body_returns b e (Go.int_add (Go.int_sub pos counter) pad)
                (Go.int_add (Go.RuneCountInString l) pad)
                (Go.int_sub count (Go.int_sub n (Go.int_add idx 1))) rest
                (fun loc0 =>
                   Go.int_sub (Go.int_add loc0 (Go.RuneCountInString substring)) 1))
      as (span & Hrun & Hlen' & _).
    exists (Go.int_sub count (Go.int_sub n (Go.int_add idx 1))), span.
    split; [exact Hrun | exact Hlen'].
Qed.

Lemma FindLoc_span {A} (f : core.File_ A) (ctx s m : string) (pad count : Z)
    (loc : list Z) :
  (2 <= length loc)%nat ->
  exists line span,
    core.FindLoc f ctx s m pad count loc = Go.Ok (line, span)
    /\ (2 <= length span)%nat.
Proof.
  unfold core.FindLoc.
  destruct (initialPosition ctx m (core.matcher f)) as [pos substring].
  intros Hlen. destruct (pos <? 0); [exists pos, [0; 0]; by split|].
  edestruct (FindLoc_loop_returns) as (line & span & -> & Hspan); [done|].
  exists line, span. split; [done|]. lia.
Qed.

(** [FindLoc] returns for every span of two elements or more, with a
    span of two elements or more; for a match that [initialPosition]
    cannot place it returns the span [0, 0], whatever span it is given. *)
Theorem FindLoc_returns (f : core.File) (ctx s m : string) (pad count : Z) (loc : list Z) :
  ((2 <= length loc)%nat ->
   exists line span,
     core.FindLoc f ctx s m pad count loc = Go.Ok (line, span)
     /\ (2 <= length span)%nat)
  /\ ((initialPosition ctx m (core.matcher f)).1 < 0 ->
      core.FindLoc f ctx s m pad count loc
      = Go.Ok ((initialPosition ctx m (core.matcher f)).1, [0; 0])).
Proof.
  split; [apply FindLoc_span|].
  unfold core.FindLoc.
  destruct (initialPosition ctx m (core.matcher f)) as [pos substring]. simpl.
  intros Hpos. apply Z.ltb_lt in Hpos. by rewrite Hpos.
Qed.

(** The clamp of [FindLoc]: when the loop places the match in a line, the
    end of the span is at most the length of that line in runes plus the
    padding; else the span is returned as it was given. *)
Lemma FindLoc_loop_clamped (lines : list string) (substring : string) (loc : list Z)
    (n pos pad count : Z) :
  forall idx counter line span,
    core.FindLoc_loop lines idx n counter pos pad count substring loc
    = Go.Ok (line, span) ->
    span = loc
    \/ exists l e, l ∈ lines /\ span !! 1%nat = Some e
         /\ e <= Go.int_add (Go.RuneCountInString l) pad.
Proof.
  induction lines as [|l lines IH]; intros idx counter line span.
  - intros [= <- <-]. by left.
  - cbn [core.FindLoc_loop].
    destruct (Go.int_add counter (Go.RuneCountInString l) >=? pos).
    2:{ intros Hrest. destruct (IH _ _ _ _ Hrest) as [->|(l' & e & Hl & He)];
          [by left|]. right. exists l', e. split; [by right | done]. }
    intros Hrun. right. exists l.
    destruct (FindLoc_body_clamped loc (Go.int_add (Go.int_sub pos counter) pad)
                (Go.int_add (Go.RuneCountInString l) pad)
                (Go.int_sub count (Go.int_sub n (Go.int_add idx 1)))
                (fun loc0 =>
                   Go.int_sub (Go.int_add loc0 (Go.RuneCountInString substring)) 1)
                line span Hrun) as (e & He & Hle).
    exists e. split; [by left | done].
Qed.

(** The end of the span that [FindLoc] returns is at most the length
    in runes of one of the lines it looks at plus the padding, unless the
    match is placed in no line and the span comes back as it was given, or
    cannot be placed at all. *)
Theorem FindLoc_clamped (f : core.File) (ctx s m : string) (pad count : Z)
    (loc : list Z) (line : Z) (span : list Z) :
  core.FindLoc f ctx s m pad count loc = Go.Ok (line, span) ->
  span = [0; 0] \/ span = loc
  \/ exists l e,
       l ∈ (if String.eqb (core.Format f) "markup" && negb (core.Simple f)
            then core.Lines f else Go.SplitAfter ctx (ascii_of_nat 10))
       /\ span !! 1%nat = Some e
       /\ e <= Go.int_add (Go.RuneCountInString l) pad.
Proof.
  unfold core.FindLoc.
  destruct (initialPosition ctx m (core.matcher f)) as [pos substring].
  destruct (pos <? 0); [intros [= <- <-]; by left|].
  intros Hrun. right. by apply FindLoc_loop_clamped in Hrun.
Qed.

Lemma int_wrap_small (z : Z) : - 2 ^ 63 <= z < 2 ^ 63 -> Go.int_wrap z = z.
Proof. intros Hz. unfold Go.int_wrap. rewrite Z.mod_small; lia. Qed.




(** One call of [AddAlert] that stores its alert. *)
Lemma AddAlert_appends (s : core.State) (a : core.Alert_ Go.ints) (ctx txt : string)
    (lines pad line : Z) (span : list Z) (z : Z) (c : gmap string string) :
  core.FindLoc (core.file s) (core.context_for (core.file s) a ctx) txt (core.Match a)
    pad lines (Go.elements (core.cells s) (core.Span a)) = Go.Ok (line, span) ->
  span !! 0%nat = Some z -> 0 < z -> core.Hide a = false ->
  core.ChkToCtx (core.file s) = Some c ->
  core.history (core.file s) !! core.history_entry line z (core.Check a) = None ->
  exists loc,
    core.Alerts (core.file (core.AddAlert s a ctx txt lines pad).1)
    = core.Alerts (core.file s) ++ [core.with_loc a line loc]
    /\ Go.elements (core.cells (core.AddAlert s a ctx txt lines pad).1) loc = span.
Proof.
  intros Hloc Hz Hpos Hhide Hctx Hnew.
  destruct (AddAlert_cases s a ctx txt lines pad)
    as [_ [[HA _] | (line' & span' & loc & z' & Hloc' & Hspan & _ & _ & _ & _ & _ & HA & _)]].
  - exfalso. revert HA. unfold core.AddAlert.
    destruct (FindLoc_at_agrees (core.file s) (core.context_for (core.file s) a ctx) txt
                (core.Match a) pad lines (core.Span a) (core.cells s)) as [_ Hres].
    destruct (core.FindLoc_at (core.file s) (core.context_for (core.file s) a ctx) txt
                (core.Match a) pad lines (core.Span a) (core.cells s)) as [m r].
    cbn [snd fst] in Hres. rewrite Hloc in Hres.
    destruct r as [[line' loc]|why']; [|done].
    destruct Hres as (<- & Hspan & _).
    cbn [core.with_loc core.Span]. unfold Go.index_at. rewrite Hspan.
    rewrite (proj2 (index_Ok span 0 z) (conj (Z.le_refl 0) Hz)).
    assert ((z >? 0) = true) as -> by (apply Z.gtb_lt; lia).
    rewrite Hctx. cbn [core.Hide core.with_loc]. rewrite Hhide.
    cbn [negb core.Line core.Check core.with_loc core.history core.set_ChkToCtx].
    rewrite Hnew. cbn. intros Heq. apply (f_equal length) in Heq.
    rewrite length_app in Heq. simpl in Heq. lia.
  - rewrite Hloc in Hloc'. injection Hloc' as <- <-. by exists loc.
Qed.

Lemma history_of_alerts_AddAlert (s : core.State) (a : core.Alert_ Go.ints)
    (ctx txt : string) (lines pad : Z) :
  apart_from s a ->
  history_of_alerts (core.read s) ->
  history_of_alerts (core.read (core.AddAlert s a ctx txt lines pad).1).
Proof.
  intros Hapart Hinv.
  destruct (read_AddAlert s a ctx txt lines pad Hapart)
    as [[HA Hh] | (line & span & z & _ & Hz & _ & _ & _ & HA & Hh)];
    unfold history_of_alerts; rewrite HA; cbn [core.read core.history core.set_Alerts];
    rewrite Hh; [done|].
  intros entry Hentry. apply lookup_insert_is_Some in Hentry as [<-|[_ Hentry]].
  - exists (core.with_loc a line span), z. split; [|done].
    apply elem_of_app. right. by apply list_elem_of_singleton.
  - destruct (Hinv entry Hentry) as (b & z' & Hb & Hz' & ->).
    exists b, z'. split; [|done]. apply elem_of_app. by left.
Qed.

Lemma history_of_alerts_AddAlerts (s : core.State) (calls : list core.AddAlertCall) :
  unshared calls ->
  Forall (fun d => apart_from s (core.call_alert d)) calls ->
  history_of_alerts (core.read s) -> history_of_alerts (core.read (core.AddAlerts s calls)).
Proof.
  revert s. induction calls as [|c calls IH]; intros s Hun Hs Hinv; [done|].
  destruct (unshared_step s c calls Hun Hs) as [Hun' Hs'].
  apply IH; [done..|]. apply history_of_alerts_AddAlert; [|done].
  by apply Forall_cons in Hs as [Hc _].
Qed.

(** No alert is lost to the check for double reports: on a file that
    starts with no alert and an empty history, after calls of which no two
    share an element of their spans, a call of [AddAlert] with an alert
    that is not hidden, is placed at a positive column and has the line,
    span start and check of no alert of the file, stores the alert (the map
    [ChkToCtx] being made). *)
Theorem AddAlert_stores_new_alert (s0 : core.State) (calls : list core.AddAlertCall)
    (a : core.Alert_ Go.ints) (ctx txt : string) (lines pad line : Z) (span : list Z)
    (z : Z) :
  core.Alerts (core.file s0) = [] -> core.history (core.file s0) = ∅ ->
  unshared calls ->
  let s := core.AddAlerts s0 calls in
  let f := core.file s in
  core.FindLoc f (core.context_for f a ctx) txt (core.Match a) pad lines
    (Go.elements (core.cells s) (core.Span a)) = Go.Ok (line, span) ->
  span !! 0%nat = Some z -> 0 < z -> core.Hide a = false ->
  is_Some (core.ChkToCtx f) ->
  (forall b, b ∈ core.Alerts (core.read s) ->
     alert_key b <> alert_key (core.with_loc a line span)) ->
  let s' := (core.AddAlert s a ctx txt lines pad).1 in
  (exists loc,
     core.Alerts (core.file s') = core.Alerts f ++ [core.with_loc a line loc]
     /\ Go.elements (core.cells s') loc = span)
  /\ (apart_from s a ->
      core.Alerts (core.read s') = core.Alerts (core.read s) ++ [core.with_loc a line span]).
Proof.
  intros Hempty Hhist Hun s f Hloc Hz Hpos Hhide [c Hctx] Hfresh s'.
  assert (Hnew : core.history f !! core.history_entry line z (core.Check a) = None).
  { assert (Hinv : history_of_alerts (core.read s)).
    { apply history_of_alerts_AddAlerts; [done| |].
      - apply Forall_forall. intros d _. by apply apart_from_empty.
      - intros entry [v Hv]. cbn [core.read core.history core.set_Alerts] in Hv.
        rewrite Hhist, lookup_empty in Hv. discriminate. }
    destruct (core.history f !! core.history_entry line z (core.Check a)) eqn:Hentry;
      [|done].
    destruct (Hinv _ (mk_is_Some _ _ Hentry)) as (b & z' & Hb & Hz' & Heq).
    apply history_entry_inj in Heq as (-> & -> & Hcheck).
    destruct (Hfresh b Hb). unfold alert_key. simpl. congruence. }
  destruct (AddAlert_appends s a ctx txt lines pad line span z c Hloc Hz Hpos Hhide Hctx Hnew)
    as (loc & HA & Hspan).
  fold s' in HA, Hspan. split; [by exists loc|].
  intros Hapart. cbn [core.read core.Alerts core.set_Alerts].
  rewrite HA, fmap_app. f_equal; [by apply read_apart|].
  cbn [fmap list_fmap]. unfold core.read_alert.
  cbn [core.with_loc core.Span core.Line]. by rewrite Hspan.
Qed.

(** What one call of [AddAlert] appends: at most one alert, which has no
    place but places of the span of the call and reads visible and
    placed. *)
Lemma AddAlert_new (s : core.State) (a : core.Alert_ Go.ints) (ctx txt : string)
    (lines pad : Z) :
  let s' := (core.AddAlert s a ctx txt lines pad).1 in
  exists new,
    core.Alerts (core.file s') = core.Alerts (core.file s) ++ new
    /\ (length new <= 1)%nat
    /\ Forall (fun b => Go.places (core.Span b) ⊆ Go.places (core.Span a)) new
    /\ Forall visible_and_placed (core.read_alert (core.cells s') <$> new).
Proof.
  intros s'.
  destruct (AddAlert_cases s a ctx txt lines pad)
    as [_ [[HA _] | (line & span & loc & z & _ & Hspan & Hplaces & Hz & Hpos & Hhide
                     & _ & HA & _)]]; fold s' in HA.
  - exists []. rewrite app_nil_r. split; [done|]. split; [simpl; lia|].
    split; constructor.
  - fold s' in Hspan. exists [core.with_loc a line loc].
    split; [done|]. split; [done|]. split.
    + constructor; [done|constructor].
    + constructor; [|constructor]. split; [done|]. exists z.
      unfold core.read_alert. cbn [core.with_loc core.Span]. rewrite Hspan. by split.
Qed.

(** A run of calls writes to the spans of its alerts alone. *)
Lemma AddAlerts_frame (calls : list core.AddAlertCall) (s : core.State) (p : nat) :
  Forall (fun d => p ∉ Go.places (core.Span (core.call_alert d))) calls ->
  Go.load (core.cells (core.AddAlerts s calls)) p = Go.load (core.cells s) p.
Proof.
  revert s. induction calls as [|c calls IH]; intros s Hp; [done|].
  apply Forall_cons in Hp as [Hc Hcalls]. cbn [core.AddAlerts foldl].
  etransitivity; [apply (IH _ Hcalls)|].
  by apply (AddAlert_cases s (core.call_alert c)).
Qed.

(** Alerts that share no element with the alerts of a run of calls read
    after the run as before. *)
Lemma read_AddAlerts (calls : list core.AddAlertCall) (s : core.State)
    (alerts : list (core.Alert_ Go.ints)) :
  Forall (fun d => Forall (fun b => Go.places (core.Span b)
                                    ## Go.places (core.Span (core.call_alert d))) alerts)
    calls ->
  core.read_alert (core.cells (core.AddAlerts s calls)) <$> alerts
  = core.read_alert (core.cells s) <$> alerts.
Proof.
  intros Hcalls. apply Forall_fmap_ext, Forall_forall. intros b Hb.
  apply read_alert_same. intros p Hp. apply AddAlerts_frame.
  eapply Forall_impl; [exact Hcalls|]. intros d Hd Hp'.
  rewrite Forall_forall in Hd. exact (Hd b Hb p Hp Hp').
Qed.

(** [AddAlert] only ever appends: after a run of calls the file holds the
    alerts it held, in their order, followed by at most one new alert for
    each call; and when no two calls share an element of their spans, nor
    one with an alert of the file, the alerts that the file had read as
    they did and each new one reads visible and placed. *)
Theorem AddAlerts_append_only (s : core.State) (calls : list core.AddAlertCall) :
  let s' := core.AddAlerts s calls in
  exists new,
    core.Alerts (core.file s') = core.Alerts (core.file s) ++ new
    /\ (length new <= length calls)%nat
    /\ (unshared calls ->
        Forall (fun d => apart_from s (core.call_alert d)) calls ->
        core.Alerts (core.read s')
        = core.Alerts (core.read s) ++ (core.read_alert (core.cells s') <$> new)
        /\ Forall visible_and_placed (core.read_alert (core.cells s') <$> new)).
Proof.
  revert s. induction calls as [|c calls IH]; intros s.
  - exists []. cbn [core.AddAlerts foldl]. rewrite app_nil_r.
    split; [done|]. split; [done|]. intros _ _. rewrite fmap_nil, app_nil_r.
    split; [done|constructor].
  - cbn [core.AddAlerts foldl].
    set (s1 := (core.AddAlert s (core.call_alert c) (core.call_ctx c) (core.call_txt c)
                  (core.call_lines c) (core.call_pad c)).1).
    destruct (IH s1) as (rest & HA & Hlen & Hrest).
    destruct (AddAlert_new s (core.call_alert c) (core.call_ctx c) (core.call_txt c)
                (core.call_lines c) (core.call_pad c))
      as (new & HA1 & Hlen1 & Hplaces & Hnew).
    fold s1 in HA1, Hnew. fold (core.AddAlerts s1 calls) in HA, Hrest |- *.
    exists (new ++ rest). split; [by rewrite HA, HA1, <- app_assoc|].
    split; [rewrite length_app; simpl; lia|].
    intros Hun Hs. destruct (unshared_step s c calls Hun Hs) as [Hun' Hs'].
    fold s1 in Hs'. destruct (Hrest Hun' Hs') as [Hread Hvisible].
    destruct Hun as [Hc _]. apply Forall_cons in Hs as [Hapart Hs].
    assert (Hkeep : core.read_alert (core.cells (core.AddAlerts s1 calls)) <$> new
                    = core.read_alert (core.cells s1) <$> new).
    { apply read_AddAlerts. eapply Forall_impl; [exact Hc|]. intros d Hd.
      eapply Forall_impl; [exact Hplaces|]. intros b Hb p Hp Hp'.
      exact (Hd p (Hb p Hp) Hp'). }
    split.
    + rewrite Hread. cbn [core.read core.Alerts core.set_Alerts].
      rewrite HA1, !fmap_app, <- app_assoc. f_equal; [|by rewrite Hkeep].
      by apply read_apart.
    + rewrite fmap_app. apply Forall_app. split; [|done]. by rewrite Hkeep.
Qed.

(** With a span of two elements or more, [AddAlert] panics exactly
    when the alert is placed at a positive column and the map [ChkToCtx]
    of the file is nil, as [NewFile] leaves it; the file is then as it was:
    [FindLoc] has written into the span of the alert, and an alert of the
    file reads as before unless it has an element of that span. *)
Theorem AddAlert_panics_iff (s : core.State) (a : core.Alert_ Go.ints) (ctx txt : string)
    (lines pad : Z) :
  (2 <= length (Go.elements (core.cells s) (core.Span a)))%nat ->
  let f := core.file s in
  let s' := (core.AddAlert s a ctx txt lines pad).1 in
  ((exists why, (core.AddAlert s a ctx txt lines pad).2 = Go.Panic why)
   <-> core.ChkToCtx f = None
       /\ exists line span z,
            core.FindLoc f (core.context_for f a ctx) txt (core.Match a) pad lines
              (Go.elements (core.cells s) (core.Span a)) = Go.Ok (line, span)
            /\ span !! 0%nat = Some z /\ 0 < z)
  /\ ((exists why, (core.AddAlert s a ctx txt lines pad).2 = Go.Panic why) ->
      core.file s' = f
      /\ (forall p, p ∉ Go.places (core.Span a) ->
            Go.load (core.cells s') p = Go.load (core.cells s) p)
      /\ (apart_from s a -> core.read s' = core.read s)
      /\ (core.Alerts f = [] -> core.read s' = core.read s)).
Proof.
  intros Hlen f s'.
  destruct (FindLoc_span f (core.context_for f a ctx) txt (core.Match a)
              pad lines _ Hlen) as (line & span & Hloc & Hspan).
  destruct span as [|z span']; [simpl in Hspan; lia|].
  assert (Hframe : forall p, p ∉ Go.places (core.Span a) ->
            Go.load (core.cells s') p = Go.load (core.cells s) p)
    by apply (AddAlert_cases s a ctx txt lines pad).
  assert (Hread : core.file s' = f -> apart_from s a -> core.read s' = core.read s).
  { intros Hfile Hapart. unfold core.read. rewrite Hfile. f_equal.
    pose proof (read_apart s a ctx txt lines pad Hapart) as Hsame. exact Hsame. }
  subst s'. revert Hframe Hread. unfold core.AddAlert.
  destruct (FindLoc_at_agrees f (core.context_for f a ctx) txt
              (core.Match a) pad lines (core.Span a) (core.cells s)) as [_ Hres].
  fold f.
  destruct (core.FindLoc_at f (core.context_for f a ctx) txt
              (core.Match a) pad lines (core.Span a) (core.cells s)) as [m r].
  cbn [snd fst] in Hres. rewrite Hloc in Hres |- *.
  destruct r as [[line' loc]|why']; [|done].
  destruct Hres as (<- & Hels & _).
  cbn [core.with_loc core.Span]. unfold Go.index_at. rewrite Hels, index_0.
  destruct (core.ChkToCtx f) as [c|] eqn:Hctx.
  - intros _ _. cbn [core.Hide core.with_loc].
    destruct (z >? 0); [|split; [split|]; [by intros [why [=]] | by intros [[=] _]
                                          | by intros [why [=]]]].
    destruct (negb (core.Hide a)); [|split; [split|]; [by intros [why [=]]
                                          | by intros [[=] _] | by intros [why [=]]]].
    destruct (_ !! _); (split; [split|]; [by intros [why [=]] | by intros [[=] _]
                                          | by intros [why [=]]]).
  - intros Hframe Hread.
    destruct (Z.gtb_spec z 0) as [Hpos|Hneg].
    + cbn [fst snd] in *. split; [split|].
      * intros _. split; [done|]. exists line, (z :: span'), z. by repeat split.
      * intros _. eauto.
      * intros _. split; [done|]. split; [done|]. split; [by apply Hread|].
        intros Hempty. apply Hread; [done|]. by apply apart_from_empty.
    + split; [split|]; [| |by intros [why [=]]].
      * intros [why [=]].
      * intros [_ (line' & span2 & z1 & [= <- <-] & [= <-] & Hz1)]. lia.
Qed.

End MoreAlertFacts.

(** ** More on comment control *)

Section MoreCommentFacts.
Context `{CoreUtil}.

Lemma ResetComments_lookup (f : core.File) (check : string) :
  core.Comments (core.ResetComments f) !! check
  = (fun status => if negb (String.eqb check "off") then false else status)
      <$> core.Comments f !! check.
Proof.
  unfold core.ResetComments. simpl. rewrite map_lookup_imap.
  by destruct (core.Comments f !! check).
Qed.

(** After [ResetComments] the query answers, for every check, what the
    global flag says: no rule is switched off on its own any more. The
    global flag is as it was, and so are the names that have an entry. *)
Theorem ResetComments_query (f : core.File) (check : string) :
  core.QueryComments (core.ResetComments f) check = core.comment f "off"
  /\ core.comment (core.ResetComments f) "off" = core.comment f "off"
  /\ dom (core.Comments (core.ResetComments f)) = dom (core.Comments f).
Proof.
  assert (Hoff : core.comment (core.ResetComments f) "off" = core.comment f "off").
  { unfold core.comment. rewrite ResetComments_lookup.
    by destruct (core.Comments f !! "off"). }
  split; [|split; [done|]].
  - unfold core.QueryComments. rewrite Hoff.
    destruct (core.comment f "off") eqn:Hflag; [done|]. cbn [negb].
    rewrite ResetComments_lookup.
    destruct (core.Comments f !! check) as [status|] eqn:Hcheck; [|done]. simpl.
    destruct (String.eqb_spec check "off") as [->|_]; [|done]. simpl.
    unfold core.comment in Hflag. by rewrite Hcheck in Hflag.
  - apply set_eq. intros k. rewrite !elem_of_dom, ResetComments_lookup.
    by rewrite fmap_is_Some.
Qed.

(** A comment other than [vale off] and [vale on] in which the control
    pattern finds neither the name of the check nor the name [off] does not
    change what the query answers for the check. *)
Theorem UpdateComments_other_rules (f : core.File) (c check : string) :
  c <> "vale off" -> c <> "vale on" ->
  (forall whole flag,
     regexp.FindStringSubmatch core.commentControlRE c <> [whole; check; flag]) ->
  (forall whole flag,
     regexp.FindStringSubmatch core.commentControlRE c <> [whole; "off"; flag]) ->
  core.QueryComments (core.UpdateComments f c) check = core.QueryComments f check.
Proof.
  intros Hoff Hon Hcheck Hglobal. unfold core.UpdateComments.
  destruct (String.eqb_spec c "vale off"); [done|].
  destruct (String.eqb_spec c "vale on"); [done|].
  destruct (regexp.MatchString core.commentControlRE c); [|done].
  destruct (regexp.FindStringSubmatch core.commentControlRE c)
    as [|whole [|name [|flag [|more rest]]]];
    try (by destruct (Go.len _ =? 3)).
  simpl. unfold core.QueryComments, core.comment. simpl.
  rewrite !lookup_insert_ne; [done| |].
  - intros ->. by destruct (Hcheck whole flag).
  - intros ->. by destruct (Hglobal whole flag).
Qed.

End MoreCommentFacts.

(** ** Formatting an alert *)

Section FormatFacts.
Context `{CoreTables}.

(** [FormatAlert] does what its comment says when the name and the names
    of the levels are not empty: the severity and the check of the alert
    have data afterwards, a field that had data is not changed, and a
    second call, whatever its level and name, changes nothing. *)
Theorem FormatAlert_fills (a a' : core.Alert) (level : Z) (name : string) :
  core.FormatAlert a level name = Go.Ok a' ->
  name <> "" -> "" ∉ AlertLevels ->
  core.Severity a' <> "" /\ core.Check a' <> ""
  /\ (core.Severity a <> "" -> core.Severity a' = core.Severity a)
  /\ (core.Check a <> "" -> core.Check a' = core.Check a)
  /\ forall level' name', core.FormatAlert a' level' name' = Go.Ok a'.
Proof.
  intros Hrun Hname Hlevels.
  assert (Hfields : core.Severity a' <> "" /\ core.Check a' <> ""
                    /\ (core.Severity a <> "" -> core.Severity a' = core.Severity a)
                    /\ (core.Check a <> "" -> core.Check a' = core.Check a)).
  { unfold core.FormatAlert in Hrun.
    destruct (String.eqb_spec (core.Severity a) "") as [Hsev|Hsev].
    - destruct (Go.index AlertLevels level) as [severity|] eqn:Hlevel; [|done].
      apply index_Ok in Hlevel as [_ Hlevel]. apply list_elem_of_lookup_2 in Hlevel.
      simpl in Hrun.
      destruct (String.eqb_spec (core.Check a) "") as [Hchk|Hchk];
        injection Hrun as <-; simpl; repeat split; congruence.
    - simpl in Hrun.
      destruct (String.eqb_spec (core.Check a) "") as [Hchk|Hchk];
        injection Hrun as <-; simpl; repeat split; congruence. }
  destruct Hfields as (Hsev & Hchk & Hsev' & Hchk').
  repeat split; try done.
  intros level' name'. unfold core.FormatAlert.
  destruct (String.eqb_spec (core.Severity a') ""); [done|]. simpl.
  by destruct (String.eqb_spec (core.Check a') "").
Qed.

End FormatFacts.

(** ** The rule functions that report matches *)

Section MatchFacts.
Context `{CoreUtil} `{RegexpLib} `{TextLib} `{RuleLib}.

Lemma slice_Ok (txt : string) (lo hi : Z) :
  (exists found, Go.slice txt lo hi = Go.Ok found)
  <-> 0 <= lo /\ lo <= hi /\ hi <= Go.strlen txt.
Proof.
  unfold Go.slice.
  destruct (Z.leb_spec 0 lo), (Z.leb_spec lo hi), (Z.leb_spec hi (Go.strlen txt)); simpl;
    (split; [intros [found Hfound]; try discriminate; lia | intros ?; try lia; eauto]).
Qed.

Lemma slice_whole (txt : string) : Go.slice txt 0 (Go.strlen txt) = Go.Ok txt.
Proof.
  unfold Go.slice, Go.strlen.
  assert ((0 <=? 0) && (0 <=? Z.of_nat (String.length txt))
          && (Z.of_nat (String.length txt) <=? Z.of_nat (String.length txt)) = true) as ->.
  { rewrite !andb_true_iff, !Z.leb_le. lia. }
  rewrite Z.sub_0_r, Nat2Z.id. simpl. by rewrite substring_whole.
Qed.

(** What [makeAlert] returns, and when. *)
Lemma makeAlert_Ok (chk : check.Definition_) (loc : list Z) (txt : string) (a : core.Alert) :
  check.makeAlert chk loc txt = Go.Ok a
  <-> exists lo hi found,
        loc !! 0%nat = Some lo /\ loc !! 1%nat = Some hi
        /\ Go.slice txt lo hi = Go.Ok found
        /\ a = {| core.Action_ := check.Action chk; core.Check := check.Name chk;
                  core.Description := FormatMessage (check.Description chk) [found];
                  core.Line := 0; core.Link := check.Link chk;
                  core.Message := FormatMessage (check.Message chk) [found];
                  core.Severity := check.Level chk; core.Span := loc;
                  core.Match := found; core.Hide := false |}.
Proof.
  unfold check.makeAlert. split.
  - destruct (Go.index loc 0) as [lo|] eqn:Hlo; [|done].
    destruct (Go.index loc 1) as [hi|] eqn:Hhi; [|done].
    apply index_Ok in Hlo as [_ Hlo]. apply index_Ok in Hhi as [_ Hhi]. simpl.
    destruct (Go.slice txt lo hi) as [found|] eqn:Hfound; [|done]. simpl.
    intros [= <-]. by exists lo, hi, found.
  - intros (lo & hi & found & Hlo & Hhi & Hfound & ->).
    rewrite (proj2 (index_Ok loc 0 lo) (conj (Z.le_refl 0) Hlo)).
    rewrite (proj2 (index_Ok loc 1 hi) (conj Z.le_0_1 Hhi)). simpl.
    by rewrite Hfound.
Qed.

Lemma makeAlert_in_text (chk : check.Definition_) (loc : list Z) (txt : string) :
  (exists a, check.makeAlert chk loc txt = Go.Ok a) <-> in_text txt loc.
Proof.
  split.
  - intros [a Ha]. apply makeAlert_Ok in Ha as (lo & hi & found & Hlo & Hhi & Hfound & _).
    exists lo, hi. split; [done|]. split; [done|]. apply slice_Ok. eauto.
  - intros (lo & hi & Hlo & Hhi & Hbounds).
    destruct (proj2 (slice_Ok txt lo hi) Hbounds) as [found Hfound].
    eexists. apply makeAlert_Ok. by exists lo, hi, found.
Qed.

(** [makeAlert] returns exactly for a match that lies within the text
    (else the slice expression panics); the alert then has the span it was
    given, is for the rule of the definition, is not hidden, and its match
    is the text between the offsets. *)
Theorem makeAlert_returns_iff (chk : check.Definition_) (loc : list Z) (txt : string) :
  ((exists a, check.makeAlert chk loc txt = Go.Ok a) <-> in_text txt loc)
  /\ forall a, check.makeAlert chk loc txt = Go.Ok a ->
       core.Span a = loc /\ core.Check a = check.Name chk /\ core.Hide a = false
       /\ exists lo hi,
            loc !! 0%nat = Some lo /\ loc !! 1%nat = Some hi
            /\ Go.slice txt lo hi = Go.Ok (core.Match a).
Proof.
  split; [apply makeAlert_in_text|].
  intros a Ha. apply makeAlert_Ok in Ha as (lo & hi & found & Hlo & Hhi & Hfound & ->).
  simpl. repeat split. by exists lo, hi.
Qed.

Lemma checkExistence_loop_Ok (txt : string) (chk : check.Existence) (locs : list (list Z)) :
  forall acc alerts,
    check.checkExistence_loop txt chk locs acc = Go.Ok alerts ->
    exists new, alerts = acc ++ new
      /\ core.Span <$> new = locs
      /\ Forall (in_text txt) locs
      /\ Forall (fun a => core.Check a = check.Name (check.Existence_Definition chk)
                          /\ core.Hide a = false) new.
Proof.
  induction locs as [|loc locs IH]; intros acc alerts; simpl.
  - intros [= <-]. exists []. by rewrite app_nil_r.
  - destruct (check.makeAlert (check.Existence_Definition chk) loc txt) as [a|] eqn:Ha;
      [|done].
    simpl. intros Hrest. destruct (IH _ _ Hrest) as (new & -> & Hspans & Hlocs & Hnew).
    assert (Hloc : in_text txt loc) by (apply (makeAlert_in_text (check.Existence_Definition chk) loc txt); eauto).
    apply makeAlert_Ok in Ha as (lo & hi & found & _ & _ & _ & ->).
    eexists (_ :: new). rewrite <- app_assoc. split; [done|].
    split; [by rewrite fmap_cons, Hspans|]. split; constructor; done.
Qed.

Lemma checkExistence_loop_returns (txt : string) (chk : check.Existence)
    (locs : list (list Z)) :
  Forall (in_text txt) locs ->
  forall acc, exists alerts, check.checkExistence_loop txt chk locs acc = Go.Ok alerts.
Proof.
  induction 1 as [|loc locs Hloc _ IH]; intros acc; simpl; [eauto|].
  apply (makeAlert_in_text (check.Existence_Definition chk) loc txt) in Hloc as [a ->].
  simpl. apply IH.
Qed.

(** [checkExistence] returns exactly when every match the library finds
    lies within the text, and then with one alert for each match, in the
    order of the matches: the alert has the span of its match, is for the
    rule and is not hidden. *)
Theorem checkExistence_one_per_match (txt : string) (chk : check.Existence)
    (f : core.File) (r : CompiledRegexp) :
  ((exists alerts, check.checkExistence txt chk f r = Go.Ok alerts)
   <-> Forall (in_text txt) (re_FindAllStringIndex r txt))
  /\ forall alerts, check.checkExistence txt chk f r = Go.Ok alerts ->
       core.Span <$> alerts = re_FindAllStringIndex r txt
       /\ Forall (fun a => core.Check a = check.Name (check.Existence_Definition chk)
                           /\ core.Hide a = false) alerts.
Proof.
  unfold check.checkExistence. split; [split|].
  - intros [alerts Hrun].
    by apply checkExistence_loop_Ok in Hrun as (new & _ & _ & Hlocs & _).
  - intros Hlocs. by apply checkExistence_loop_returns.
  - intros alerts Hrun.
    by apply checkExistence_loop_Ok in Hrun as (new & -> & Hspans & _ & Hnew).
Qed.

(** [checkCapitalization] never panics: it returns no alert when the
    check of the rule accepts the text, and else one alert, whose span and
    match are the whole text. *)
Theorem checkCapitalization_whole_text (txt : string) (chk : check.Capitalization)
    (f : core.File) :
  exists a,
    core.Span a = [0; Go.strlen txt] /\ core.Match a = txt
    /\ core.Check a = check.Name (check.Capitalization_Definition chk)
    /\ check.checkCapitalization txt chk f
       = Go.Ok (if check.Capitalization_Check chk txt (check.Exceptions chk)
                     (check.exceptRe chk)
                then [] else [a]).
Proof.
  assert (exists a, check.makeAlert (check.Capitalization_Definition chk)
                      [0; Go.strlen txt] txt = Go.Ok a
                    /\ core.Span a = [0; Go.strlen txt] /\ core.Match a = txt
                    /\ core.Check a = check.Name (check.Capitalization_Definition chk))
    as (a & Ha & Hspan & Hmatch & Hcheck).
  { eexists. split.
    - apply makeAlert_Ok. exists 0, (Go.strlen txt), txt.
      split; [done|]. split; [done|]. split; [apply slice_whole | reflexivity].
    - done. }
  exists a. split; [done|]. split; [done|]. split; [done|].
  unfold check.checkCapitalization.
  destruct (check.Capitalization_Check chk txt _ _); simpl; [done|].
  by rewrite Ha.
Qed.

End MatchFacts.

(** ** Repeated words *)

Section RepetitionFacts.
Context `{CoreUtil} `{RegexpLib} `{TextLib} `{RuleLib}.

(** The test [hit] of [checkRepetition], before the test for letters. *)
Lemma repetition_hit (ignorecase : bool) (curr prev : string) :
  (if ignorecase
   then String.eqb (ToLower curr) (ToLower prev) && negb (String.eqb curr "")
   else String.eqb curr prev && negb (String.eqb curr "")) = true ->
  curr <> "" /\ (if ignorecase then ToLower curr = ToLower prev else curr = prev).
Proof.
  destruct ignorecase; rewrite andb_true_iff, negb_true_iff;
    intros [Heq Hne]; apply String.eqb_eq in Heq; apply String.eqb_neq in Hne; done.
Qed.

(** One turn of the loop that returns: the state it leaves, and the alert
    it adds if it adds one. *)
Lemma repetition_step_Ok (txt : string) (chk : check.Repetition) (loc : list Z)
    (st st' : check.RepState) :
  check.repetition_step txt chk loc st = Go.Ok st' ->
  exists lo hi found,
    loc !! 0%nat = Some lo /\ loc !! 1%nat = Some hi
    /\ Go.slice txt lo hi = Go.Ok found
    /\ check.prev st' = TrimSpace found /\ check.ploc st' = loc
    /\ (check.rep_alerts st' = check.rep_alerts st
        \/ exists plo between a,
             check.ploc st !! 0%nat = Some plo
             /\ Go.slice txt plo hi = Go.Ok between
             /\ Go.Contains between regexp.newline = false
             /\ TrimSpace found <> ""
             /\ (if check.Repetition_Ignorecase chk
                 then ToLower (TrimSpace found) = ToLower (check.prev st)
                 else TrimSpace found = check.prev st)
             /\ core.Span a = [plo; hi] /\ core.Match a = between
             /\ check.rep_alerts st' = check.rep_alerts st ++ [a]).
Proof.
  unfold check.repetition_step.
  destruct (Go.index loc 0) as [lo|] eqn:Hlo; [|done].
  destruct (Go.index loc 1) as [hi|] eqn:Hhi; [|done].
  cbn [mbind Result_bind Go.bind].
  destruct (Go.slice txt lo hi) as [found|] eqn:Hfound; [|done].
  cbn [mbind Result_bind Go.bind].
  apply index_Ok in Hlo as [_ Hlo]. simpl in Hlo.
  generalize (Go.int_add (check.count st) 1). intros next.
  match goal with
  | |- context [(?b && (negb (check.Alpha chk) || IsLetter (TrimSpace found)))%bool] =>
      destruct b eqn:Hhit
  end.
  2:{ simpl. intros [= <-]. exists lo, hi, found. simpl.
      apply index_Ok in Hhi as [_ Hhi]. repeat split; try done. by left. }
  apply repetition_hit in Hhit as [Hne Heq].
  destruct (negb (check.Alpha chk) || IsLetter (TrimSpace found)).
  2:{ simpl. intros [= <-]. exists lo, hi, found. simpl.
      apply index_Ok in Hhi as [_ Hhi]. repeat split; try done. by left. }
  cbn [andb]. destruct (next >? check.Repetition_Max chk).
  2:{ simpl. intros [= <-]. exists lo, hi, found. simpl.
      apply index_Ok in Hhi as [_ Hhi]. repeat split; try done. by left. }
  destruct (Go.index (check.ploc st) 0) as [plo|] eqn:Hplo; [|done].
  cbn [mbind Result_bind Go.bind].
  destruct (Go.slice txt plo hi) as [between|] eqn:Hbetween; [|done].
  cbn [mbind Result_bind Go.bind].
  apply index_Ok in Hhi as [_ Hhi]. simpl in Hhi.
  apply index_Ok in Hplo as [_ Hplo]. simpl in Hplo.
  destruct (Go.Contains between regexp.newline) eqn:Hline.
  { simpl. intros [= <-]. exists lo, hi, found. simpl. repeat split; try done. by left. }
  cbn [negb].
  destruct (check.makeAlert (check.Repetition_Definition chk) [plo; hi] txt)
    as [a|] eqn:Ha; [|done].
  apply makeAlert_Ok in Ha as (lo' & hi' & found' & [= <-] & [= <-] & Hfound' & ->).
  rewrite Hbetween in Hfound'. injection Hfound' as <-.
  simpl. intros [= <-]. exists lo, hi, found. simpl. repeat split; try done.
  right. eexists plo, between, _. repeat split; try done.
Qed.

Lemma adjacent_app {A} (p l : A) (locs more : list A) :
  adjacent p l locs -> adjacent p l (locs ++ more).
Proof.
  intros (before & after & ->). exists before, (after ++ more).
  by rewrite <- app_assoc.
Qed.

Lemma adjacent_last {A} (p l : A) (seen : list A) :
  last seen = Some p -> adjacent p l (seen ++ [l]).
Proof.
  intros Hlast. apply last_Some in Hlast as [before ->].
  exists before, []. by rewrite <- app_assoc.
Qed.

(** The previous match and the alerts after one more turn. *)
Lemma repetition_step_state (txt : string) (chk : check.Repetition) (loc : list Z)
    (seen : list (list Z)) (st st' : check.RepState) :
  previous_match txt seen st ->
  Forall (fun a => exists p l, adjacent p l seen /\ repeats txt chk p l a)
    (check.rep_alerts st) ->
  check.repetition_step txt chk loc st = Go.Ok st' ->
  previous_match txt (seen ++ [loc]) st'
  /\ Forall (fun a => exists p l, adjacent p l (seen ++ [loc]) /\ repeats txt chk p l a)
       (check.rep_alerts st').
Proof.
  intros Hprev Halerts Hstep.
  apply repetition_step_Ok in Hstep
    as (lo & hi & found & Hlo & Hhi & Hfound & Hprev' & Hploc' & Hnew).
  split.
  - unfold previous_match. rewrite last_snoc. split; [done|]. by exists lo, hi, found.
  - assert (Hold : Forall (fun a => exists p l, adjacent p l (seen ++ [loc])
                                      /\ repeats txt chk p l a) (check.rep_alerts st)).
    { eapply Forall_impl; [exact Halerts|]. intros a (p & l & Hadj & Ha).
      exists p, l. split; [by apply adjacent_app | done]. }
    destruct Hnew as [->|(plo & between & a & Hplo & Hbetween & Hline & Hne & Heq
                            & Hspan & Hmatch & ->)]; [done|].
    apply Forall_app. split; [done|]. constructor; [|done].
    unfold previous_match in Hprev. destruct (last seen) as [p|] eqn:Hlast.
    + destruct Hprev as [Hploc (plo' & phi & first & Hplo' & Hphi & Hfirst & Hprev)].
      rewrite Hploc in Hplo. assert (plo' = plo) as -> by congruence.
      exists p, loc. split; [by apply adjacent_last|].
      exists plo, phi, lo, hi, first, found, between. rewrite <- Hprev.
      repeat split; done.
    + destruct Hprev as [_ Hploc]. by rewrite Hploc in Hplo.
Qed.

Lemma repetition_loop_state (txt : string) (chk : check.Repetition) (locs : list (list Z)) :
  forall seen st st',
    previous_match txt seen st ->
    Forall (fun a => exists p l, adjacent p l seen /\ repeats txt chk p l a)
      (check.rep_alerts st) ->
    check.repetition_loop txt chk locs st = Go.Ok st' ->
    Forall (fun a => exists p l, adjacent p l (seen ++ locs) /\ repeats txt chk p l a)
      (check.rep_alerts st').
Proof.
  induction locs as [|loc locs IH]; intros seen st st' Hprev Halerts; simpl.
  - intros [= <-]. by rewrite app_nil_r.
  - destruct (check.repetition_step txt chk loc st) as [st1|] eqn:Hstep; [|done].
    simpl. intros Hrest.
    destruct (repetition_step_state txt chk loc seen st st1 Hprev Halerts Hstep)
      as [Hprev1 Halerts1].
    rewrite (cons_middle loc seen locs), app_assoc. by apply (IH _ st1 st').
Qed.

(** Every alert of [checkRepetition] is for two matches that follow one
    another in the list of the library: their trimmed texts are the same
    and not empty, they are on one line, and the alert spans from the start
    of the first to the end of the second. *)
Theorem checkRepetition_adjacent (txt : string) (chk : check.Repetition)
    (f : core.File) (r : CompiledRegexp) (alerts : list core.Alert) :
  check.checkRepetition txt chk f r = Go.Ok alerts ->
  Forall (fun a => exists p l,
            adjacent p l (re_FindAllStringIndex r txt) /\ repeats txt chk p l a) alerts.
Proof.
  unfold check.checkRepetition.
  destruct (check.repetition_loop txt chk _ _) as [st|] eqn:Hloop; [|done].
  simpl. intros [= <-].
  by apply (repetition_loop_state txt chk _ [] _ st) in Hloop.
Qed.

(** One turn of the loop returns for a match within the text that ends
    no earlier than the match before starts. *)
Lemma repetition_step_returns (txt : string) (chk : check.Repetition) (loc : list Z)
    (seen : list (list Z)) (st : check.RepState) :
  (check.Repetition_Ignorecase chk = true -> forall s, ToLower s = ToLower "" -> s = "") ->
  previous_match txt seen st ->
  in_text txt loc ->
  (forall p plo hi,
     last seen = Some p -> p !! 0%nat = Some plo -> loc !! 1%nat = Some hi -> plo <= hi) ->
  exists st', check.repetition_step txt chk loc st = Go.Ok st'.
Proof.
  intros Hlower Hprev (lo & hi & Hlo & Hhi & Hlo0 & Hlohi & Hhi') Horder.
  unfold check.repetition_step.
  rewrite (proj2 (index_Ok loc 0 lo) (conj (Z.le_refl 0) Hlo)).
  rewrite (proj2 (index_Ok loc 1 hi) (conj Z.le_0_1 Hhi)).
  cbn [mbind Result_bind Go.bind].
  destruct (proj2 (slice_Ok txt lo hi) (conj Hlo0 (conj Hlohi Hhi'))) as [found ->].
  cbn [mbind Result_bind Go.bind].
  generalize (Go.int_add (check.count st) 1). intros next.
  match goal with
  | |- context [(?b && (negb (check.Alpha chk) || IsLetter (TrimSpace found)))%bool] =>
      destruct b eqn:Hhit
  end; [|simpl; eauto].
  apply repetition_hit in Hhit as [Hne Heq].
  destruct (negb (check.Alpha chk) || IsLetter (TrimSpace found)); [|simpl; eauto].
  cbn [andb]. destruct (next >? check.Repetition_Max chk); [|simpl; eauto].
  unfold previous_match in Hprev. destruct (last seen) as [p|] eqn:Hlast.
  - destruct Hprev as [Hploc (plo & phi & first & Hplo & Hphi & Hfirst & Hprev)].
    rewrite Hploc. rewrite (proj2 (index_Ok p 0 plo) (conj (Z.le_refl 0) Hplo)).
    cbn [mbind Result_bind Go.bind].
    assert (Hbounds : 0 <= plo /\ plo <= hi /\ hi <= Go.strlen txt).
    { destruct (proj1 (slice_Ok txt plo phi) (ex_intro _ first Hfirst)) as [Hplo0 _].
      split; [done|]. split; [|done]. by apply (Horder p plo hi). }
    destruct (proj2 (slice_Ok txt plo hi) Hbounds) as [between Hbetween].
    rewrite Hbetween. cbn [mbind Result_bind Go.bind].
    destruct (Go.Contains between regexp.newline); [simpl; eauto|]. cbn [negb].
    destruct (proj2 (makeAlert_in_text (check.Repetition_Definition chk) [plo; hi] txt))
      as [a ->]; [by exists plo, hi|].
    simpl. eauto.
  - destruct Hprev as [Hprev _]. rewrite Hprev in Heq.
    destruct (check.Repetition_Ignorecase chk); [|done].
    by destruct Hne; apply Hlower.
Qed.

Lemma repetition_loop_returns (txt : string) (chk : check.Repetition)
    (locs : list (list Z)) :
  (check.Repetition_Ignorecase chk = true -> forall s, ToLower s = ToLower "" -> s = "") ->
  forall seen st,
    previous_match txt seen st ->
    Forall (in_text txt) locs ->
    left_to_right (seen ++ locs) ->
    exists st', check.repetition_loop txt chk locs st = Go.Ok st'.
Proof.
  intros Hlower. induction locs as [|loc locs IH]; intros seen st Hprev Hlocs Horder; simpl.
  - eauto.
  - apply Forall_cons in Hlocs as [Hloc Hlocs].
    destruct (repetition_step_returns txt chk loc seen st Hlower Hprev Hloc)
      as [st1 Hstep].
    { intros p plo hi Hlast. apply (Horder p loc plo hi).
      apply last_Some in Hlast as [before ->]. exists before, locs.
      by rewrite <- app_assoc. }
    rewrite Hstep. simpl. apply (IH (seen ++ [loc])).
    + apply repetition_step_Ok in Hstep
        as (lo & hi & found & Hlo & Hhi & Hfound & Hprev' & Hploc' & _).
      unfold previous_match. rewrite last_snoc. split; [done|]. by exists lo, hi, found.
    + done.
    + by rewrite <- app_assoc.
Qed.

(** [checkRepetition] returns when the matches of the library lie within
    the text and are listed from left to right, and the lower-case form of
    no other string is that of the empty string: the match before is read
    only once there is one. *)
Theorem checkRepetition_returns (txt : string) (chk : check.Repetition)
    (f : core.File) (r : CompiledRegexp) :
  (check.Repetition_Ignorecase chk = true -> forall s, ToLower s = ToLower "" -> s = "") ->
  Forall (in_text txt) (re_FindAllStringIndex r txt) ->
  left_to_right (re_FindAllStringIndex r txt) ->
  exists alerts, check.checkRepetition txt chk f r = Go.Ok alerts.
Proof.
  intros Hlower Hlocs Horder. unfold check.checkRepetition.
  destruct (repetition_loop_returns txt chk (re_FindAllStringIndex r txt) Hlower []
              {| check.rep_alerts := []; check.prev := ""; check.ploc := [];
                 check.count := 0 |}) as [st ->]; try done.
  simpl. eauto.
Qed.

End RepetitionFacts.

(** ** Sequences of words *)

Section SequenceFacts.
Context `{CoreUtil} `{RegexpLib} `{TextLib} `{RuleLib}.

Lemma index_negative {A} (l : list A) (i : Z) :
  i < 0 -> Go.index l i = Go.Panic "index out of range".
Proof.
  intros Hi. unfold Go.index. destruct (Z.leb_spec 0 i); [lia|]. reflexivity.
Qed.

Lemma index_beyond {A} (l : list A) (i : Z) :
  Go.len l <= i -> Go.index l i = Go.Panic "index out of range".
Proof.
  intros Hi. unfold Go.index. destruct (Z.ltb_spec i (Go.len l)); [lia|].
  by rewrite andb_false_r.
Qed.

(** The anchor is the first word that is the target, when its index is
    not in the history. *)
Lemma sequence_anchor_first (target : string) (history : list Z)
    (ws : list tag_Token) (w : tag_Token) (more : list tag_Token) :
  Forall (fun x => Token_Text x <> target) ws ->
  Token_Text w = target ->
  forall jdx,
    IntInSlice (jdx + Go.len ws) history = false ->
    check.sequence_anchor target history (ws ++ w :: more) jdx = Some (jdx + Go.len ws).
Proof.
  intros Hws Hw. induction Hws as [|x ws Hx _ IH]; intros jdx Hnew; simpl.
  - change (Go.len (@nil tag_Token)) with 0 in *. rewrite Z.add_0_r in *.
    rewrite Hnew. by rewrite (proj2 (String.eqb_eq _ _) Hw).
  - rewrite (proj2 (String.eqb_neq _ _) Hx). simpl.
    replace (jdx + Go.len (x :: ws)) with (jdx + 1 + Go.len ws) in *
      by (unfold Go.len; simpl length; lia).
    by apply IH.
Qed.

Lemma sequenceMatches_before_first (idx : Z) (chk : check.Sequence)
    (target src : string) (w : tag_Token) (ws : list tag_Token) :
  0 < idx < 2 ^ 63 ->
  TextToTokens src (check.needsTagging chk) = w :: ws ->
  Token_Text w = target ->
  IntInSlice 0 (check.Sequence_history chk) = false ->
  check.sequenceMatches idx chk target src = Go.Panic "index out of range".
Proof.
  intros Hidx Hwords Hw Hnew. unfold check.sequenceMatches. rewrite Hwords.
  assert (check.sequence_anchor target (check.Sequence_history chk) (w :: ws) 0
          = Some 0) as ->
    by exact (sequence_anchor_first target (check.Sequence_history chk) [] w ws
                (Forall_nil_2 _) Hw 0 Hnew).
  destruct (Z.gtb_spec idx 0); [|lia].
  cbn [check.sequence_left].
  unfold Go.int_sub. rewrite (int_wrap_small (idx - 1)), (int_wrap_small (0 - 1)) by lia.
  destruct (Z.geb_spec (idx - 1) 0); [|lia].
  rewrite (index_negative (w :: ws) (0 - 1)) by lia. reflexivity.
Qed.

(** When the target is the first word of the text and the token that
    found it is not the first of the sequence, [sequenceMatches] reads the
    word before the first one and panics. *)
Theorem sequenceMatches_target_first (idx : Z) (chk : check.Sequence)
    (target src : string) (w : tag_Token) (ws : list tag_Token) :
  0 < idx < 2 ^ 63 ->
  TextToTokens src (check.needsTagging chk) = w :: ws ->
  Token_Text w = target ->
  IntInSlice 0 (check.Sequence_history chk) = false ->
  check.sequenceMatches idx chk target src = Go.Panic "index out of range".
Proof. apply sequenceMatches_before_first. Qed.

(** When the target is the last word of the text and tokens of the
    sequence follow the first one, which found it, [sequenceMatches] reads
    the word after the last one and panics. *)
Theorem sequenceMatches_target_last (chk : check.Sequence) (target src : string)
    (ws : list tag_Token) (w : tag_Token) :
  (2 <= length (check.Sequence_Tokens chk))%nat ->
  TextToTokens src (check.needsTagging chk) = ws ++ [w] ->
  Go.len ws < 2 ^ 63 - 1 ->
  Forall (fun x => Token_Text x <> target) ws ->
  Token_Text w = target ->
  IntInSlice (Go.len ws) (check.Sequence_history chk) = false ->
  check.sequenceMatches 0 chk target src = Go.Panic "index out of range".
Proof.
  intros Htoks Hwords Hlen Hws Hw Hnew. unfold check.sequenceMatches. rewrite Hwords.
  rewrite (sequence_anchor_first target (check.Sequence_history chk) ws w []
             Hws Hw 0 Hnew).
  rewrite Z.add_0_l.
  assert (Hlen0 : 0 <= Go.len ws) by (unfold Go.len; lia).
  change (0 >? 0) with false. cbn [mbind Result_bind Go.bind mret Result_ret].
  assert ((0 <? Go.len (check.Sequence_Tokens chk)) = true) as ->
    by (apply Z.ltb_lt; unfold Go.len; lia).
  cbn [check.sequence_right].
  unfold Go.int_add. rewrite (int_wrap_small (0 + 1)), (int_wrap_small (Go.len ws + 1)) by lia.
  assert ((0 + 1 <? Go.len (check.Sequence_Tokens chk)) = true) as ->
    by (apply Z.ltb_lt; unfold Go.len; lia).
  change (1 =? 1) with true. cbv iota.
  rewrite (proj2 (index_Ok (ws ++ [w]) (Go.len ws) w)).
  2:{ split; [done|]. unfold Go.len. rewrite Nat2Z.id. by apply list_lookup_middle. }
  cbn [mbind Result_bind Go.bind mret Result_ret].
  rewrite (index_beyond (ws ++ [w]) (Go.len ws + 1)); [reflexivity|].
  unfold Go.len. rewrite length_app. simpl. lia.
Qed.

Lemma string_app_assoc (a b c : string) : (a +:+ b) +:+ c = a +:+ (b +:+ c).
Proof.
  induction a as [|x a IH]; [done|].
  change (String x ((a +:+ b) +:+ c) = String x (a +:+ (b +:+ c))). by rewrite IH.
Qed.

Lemma string_app_nil_r (s : string) : s +:+ "" = s.
Proof.
  induction s as [|c s IH]; [done|].
  change (String c (s +:+ "") = String c s). by rewrite IH.
Qed.

(** The loop on plain steps: a space and the step are added each time. *)
Lemma stepsToString_loop_plain (steps : list string) :
  Forall (fun step => Go.HasPrefix step "'" = false) steps ->
  forall s,
    check.stepsToString_loop steps s
    = s +:+ match steps with [] => "" | _ => " " +:+ Go.Join steps " " end.
Proof.
  induction 1 as [|step steps Hstep Hsteps IH]; intros s;
    cbn [check.stepsToString_loop].
  - by rewrite string_app_nil_r.
  - rewrite Hstep, IH. destruct steps as [|next steps]; cbn [Go.Join].
    + by rewrite string_app_nil_r.
    + by rewrite !string_app_assoc.
Qed.

(** Steps none of which starts with an apostrophe are joined by single
    spaces, and spaces at the two ends of the result are dropped. *)
Theorem stepsToString_plain (steps : list string) :
  Forall (fun step => Go.HasPrefix step "'" = false) steps ->
  check.stepsToString steps = Go.Trim (Go.Join steps " ") " ".
Proof.
  intros Hsteps. unfold check.stepsToString.
  rewrite (stepsToString_loop_plain steps Hsteps ""). by destruct steps.
Qed.

End SequenceFacts.

(** ** More on loading a rule definition *)

Section MoreLoadFacts.
Context `{CoreUtil} `{RegexpLib} `{TextLib}.

(** A manifest that [addCheck] answers with an error leaves the manager
    as it was: no builder has run and no scope has been added. *)
Theorem addCheck_error_keeps_manager (builders : string -> check.builder)
    (mgr : check.Manager) (file chkName e : string) :
  (check.addCheck builders mgr file chkName).2 = Go.Ok (Some e) ->
  (check.addCheck builders mgr file chkName).1 = mgr.
Proof.
  unfold check.addCheck.
  destruct (yaml_Unmarshal file) as [err|generic]; [done|].
  destruct (check.validateDefinition generic chkName) as [[defErr|]|]; [done| |done].
  repeat case_match; simpl; intros; discriminate.
Qed.

End MoreLoadFacts.

(** ** The sequence rule *)

Section SequenceRuleFacts.
Context `{CoreUtil} `{RegexpLib} `{TextLib} `{RuleLib}.

Lemma substring_length_le (s : string) :
  forall n m, (String.length (substring n m s) <= String.length s - n)%nat.
Proof.
  induction s as [|c s IH]; intros [|n] [|m]; simpl; try lia.
  - specialize (IH 0%nat m). lia.
  - apply IH.
  - apply IH.
Qed.

Lemma index_empty (s : string) : String.index 0 "" s = Some 0%nat.
Proof. by destruct s. Qed.

(** Where [strings.Index] finds a string, the string is. *)
Lemma Index_found (txt seq : string) :
  Go.Index txt seq = -1
  \/ (0 <= Go.Index txt seq
      /\ Go.slice txt (Go.Index txt seq) (Go.Index txt seq + Go.strlen seq) = Go.Ok seq).
Proof.
  unfold Go.Index. destruct (String.index 0 seq txt) as [n|] eqn:Hindex; [right|by left].
  split; [lia|].
  assert (Hsub : substring n (String.length seq) txt = seq)
    by apply (index_correct1 _ _ _ _ Hindex).
  assert (Hlen : (n + String.length seq <= String.length txt)%nat).
  { destruct seq as [|c seq].
    - rewrite index_empty in Hindex. injection Hindex as <-. simpl. lia.
    - pose proof (substring_length_le txt n (String.length (String c seq))) as Hle.
      rewrite Hsub in Hle. simpl in *. lia. }
  unfold Go.slice, Go.strlen.
  assert ((0 <=? Z.of_nat n) && (Z.of_nat n <=? Z.of_nat n + Z.of_nat (String.length seq))
          && (Z.of_nat n + Z.of_nat (String.length seq) <=? Z.of_nat (String.length txt))
          = true) as ->.
  { rewrite !andb_true_iff, !Z.leb_le. lia. }
  replace (Z.of_nat n + Z.of_nat (String.length seq) - Z.of_nat n)
    with (Z.of_nat (String.length seq)) by lia.
  by rewrite !Nat2Z.id, Hsub.
Qed.

(** An alert of the sequence rule [def] on [txt]: its span starts where
    [strings.Index] finds its match in the text, or at -1, and is as long
    as the match. *)
Lemma checkSequence_matches_located (txt : string) (def : check.Definition_)
    (P : core.Alert -> Prop) (idx : Z) (locs : list (list Z)) :
  (forall a,
     core.Span a = [Go.Index txt (core.Match a);
                    Go.int_add (Go.Index txt (core.Match a)) (Go.strlen (core.Match a))] ->
     core.Check a = check.Name def -> core.Hide a = false -> P a) ->
  forall chk alerts alerts',
    check.Sequence_Definition chk = def ->
    Forall P alerts ->
    check.checkSequence_matches txt idx locs chk alerts = Go.Ok alerts' ->
    Forall P alerts'.
Proof.
  intros HP. induction locs as [|loc locs IH]; intros chk alerts alerts' Hdef Halerts;
    cbn [check.checkSequence_matches].
  - by intros [= <-].
  - destruct (Go.index loc 0) as [lo|]; [|done].
    destruct (Go.index loc 1) as [hi|]; [|done].
    cbn [mbind Result_bind Go.bind].
    destruct (Go.slice txt lo hi) as [target|]; [|done].
    cbn [mbind Result_bind Go.bind].
    destruct (check.sequenceMatches idx chk target txt) as [[steps index]|]; [|done].
    cbn [mbind Result_bind Go.bind].
    apply IH; [done|].
    destruct (Go.len steps >? 0); [|done].
    apply Forall_app. split; [done|]. constructor; [|done].
    apply HP; [reflexivity | by rewrite <- Hdef | reflexivity].
Qed.

Lemma checkSequence_tokens_located (txt : string) (chk : check.Sequence)
    (P : core.Alert -> Prop) (toks : list check.NLPToken) :
  (forall a,
     core.Span a = [Go.Index txt (core.Match a);
                    Go.int_add (Go.Index txt (core.Match a)) (Go.strlen (core.Match a))] ->
     core.Check a = check.Name (check.Sequence_Definition chk) ->
     core.Hide a = false -> P a) ->
  forall idx alerts,
    check.checkSequence_tokens txt chk toks idx = Go.Ok alerts -> Forall P alerts.
Proof.
  intros HP. induction toks as [|tok toks IH]; intros idx alerts;
    cbn [check.checkSequence_tokens].
  - by intros [= <-].
  - destruct (negb (check.Negate tok) && _); [|apply IH].
    destruct (check.re tok) as [r|]; [|done].
    by apply (checkSequence_matches_located txt (check.Sequence_Definition chk) P).
Qed.

(** [strings.Index] finds the first occurrence: the string is there, and
    at no offset before; and it gives -1 only for a string that is at no
    offset of the text. *)
Lemma Index_first (txt seq : string) :
  (Go.Index txt seq = -1
   /\ forall k, Go.slice txt k (k + Go.strlen seq) <> Go.Ok seq)
  \/ (0 <= Go.Index txt seq
      /\ Go.slice txt (Go.Index txt seq) (Go.Index txt seq + Go.strlen seq) = Go.Ok seq
      /\ forall k, k < Go.Index txt seq -> Go.slice txt k (k + Go.strlen seq) <> Go.Ok seq).
Proof.
  assert (Hat : forall k, Go.slice txt k (k + Go.strlen seq) = Go.Ok seq ->
            0 <= k /\ substring (Z.to_nat k) (String.length seq) txt = seq).
  { intros k. unfold Go.slice, Go.strlen.
    destruct ((0 <=? k) && (k <=? k + Z.of_nat (String.length seq))
              && (k + Z.of_nat (String.length seq) <=? Z.of_nat (String.length txt)))
      eqn:Hin; [|done].
    rewrite !andb_true_iff, !Z.leb_le in Hin.
    replace (k + Z.of_nat (String.length seq) - k) with (Z.of_nat (String.length seq))
      by lia.
    rewrite Nat2Z.id. intros [= Hsub]. split; [lia | done]. }
  destruct (Index_found txt seq) as [Hnone | [Hpos Hfound]].
  - left. split; [done|]. intros k Hk. apply Hat in Hk as [Hk Hsub].
    unfold Go.Index in Hnone.
    destruct (String.index 0 seq txt) as [n|] eqn:Hindex; [lia|].
    assert (seq <> "") as Hne by (intros ->; by rewrite index_empty in Hindex).
    apply (index_correct3 0 (Z.to_nat k) seq txt Hindex Hne); [lia | done].
  - right. split; [done|]. split; [done|]. intros k Hlt Hk. apply Hat in Hk as [Hk Hsub].
    unfold Go.Index in Hlt.
    destruct (String.index 0 seq txt) as [n|] eqn:Hindex; [|lia].
    apply (index_correct2 0 n seq txt Hindex (Z.to_nat k)); [lia | lia | done].
Qed.

(** Every alert of [checkSequence] is for the rule, is not hidden, and
    has a span that starts where [strings.Index] finds its match in the
    text and is as long as the match: when the match occurs in the text,
    the span is that of its first occurrence; the span starts at -1 when,
    and only when, the match occurs nowhere in the text. *)
Theorem checkSequence_located (txt : string) (chk : check.Sequence) (f : core.File)
    (alerts : list core.Alert) :
  check.checkSequence txt chk f = Go.Ok alerts ->
  Forall (fun a =>
            core.Check a = check.Name (check.Sequence_Definition chk)
            /\ core.Hide a = false
            /\ exists n,
                 n = Go.Index txt (core.Match a)
                 /\ core.Span a = [n; Go.int_add n (Go.strlen (core.Match a))]
                 /\ ((n = -1
                      /\ forall k, Go.slice txt k (k + Go.strlen (core.Match a))
                                   <> Go.Ok (core.Match a))
                     \/ (0 <= n
                         /\ Go.slice txt n (n + Go.strlen (core.Match a))
                            = Go.Ok (core.Match a)
                         /\ forall k, k < n ->
                              Go.slice txt k (k + Go.strlen (core.Match a))
                              <> Go.Ok (core.Match a)))) alerts.
Proof.
  unfold check.checkSequence. apply checkSequence_tokens_located.
  intros a Hspan Hcheck Hhide. split; [done|]. split; [done|].
  exists (Go.Index txt (core.Match a)). split; [done|]. split; [done|].
  apply Index_first.
Qed.

(** The tokens before the first one that is not negated and has a
    pattern are passed over. *)
Lemma checkSequence_tokens_skip (txt : string) (chk : check.Sequence)
    (pre rest : list check.NLPToken) :
  Forall (fun t => check.Negate t = true \/ check.NLPToken_Pattern t = "") pre ->
  forall idx,
    check.checkSequence_tokens txt chk (pre ++ rest) idx
    = check.checkSequence_tokens txt chk rest (idx + Go.len pre).
Proof.
  induction 1 as [|t pre Ht _ IH]; intros idx.
  - change (Go.len (@nil check.NLPToken)) with 0. by rewrite Z.add_0_r.
  - cbn [app check.checkSequence_tokens].
    assert (negb (check.Negate t) && negb (String.eqb (check.NLPToken_Pattern t) "")
            = false) as ->.
    { destruct Ht as [->| ->]; [done|]. by rewrite andb_false_r. }
    rewrite IH. f_equal. unfold Go.len. simpl length. lia.
Qed.

(** [checkSequence] panics when the first match of the token it starts
    from, which is not the first token of the sequence, is the first word
    of the text: the word before it is read. *)
Theorem checkSequence_target_first (txt : string) (chk : check.Sequence) (f : core.File)
    (pre post : list check.NLPToken) (tok : check.NLPToken) (r : CompiledRegexp)
    (loc : list Z) (locs : list (list Z)) (lo hi : Z) (target : string)
    (w : tag_Token) (ws : list tag_Token) :
  check.Sequence_Tokens chk = pre ++ tok :: post ->
  0 < Go.len pre < 2 ^ 63 ->
  Forall (fun t => check.Negate t = true \/ check.NLPToken_Pattern t = "") pre ->
  check.Negate tok = false -> check.NLPToken_Pattern tok <> "" ->
  check.re tok = Some r ->
  re_FindAllStringIndex r txt = loc :: locs ->
  loc !! 0%nat = Some lo -> loc !! 1%nat = Some hi ->
  Go.slice txt lo hi = Go.Ok target ->
  TextToTokens txt (check.needsTagging chk) = w :: ws ->
  Token_Text w = target ->
  IntInSlice 0 (check.Sequence_history chk) = false ->
  check.checkSequence txt chk f = Go.Panic "index out of range".
Proof.
  intros Htoks Hpre Hskip Hneg Hpat Hre Hlocs Hlo Hhi Htarget Hwords Hw Hnew.
  unfold check.checkSequence. rewrite Htoks, (checkSequence_tokens_skip _ _ _ _ Hskip).
  cbn [check.checkSequence_tokens].
  rewrite Hneg, (proj2 (String.eqb_neq _ _) Hpat), Hre, Hlocs.
  cbn [negb andb check.checkSequence_matches].
  rewrite (proj2 (index_Ok loc 0 lo) (conj (Z.le_refl 0) Hlo)).
  rewrite (proj2 (index_Ok loc 1 hi) (conj Z.le_0_1 Hhi)).
  cbn [mbind Result_bind Go.bind]. rewrite Htarget.
  cbn [mbind Result_bind Go.bind].
  rewrite (sequenceMatches_before_first (0 + Go.len pre) chk target txt w ws);
    [reflexivity | lia | done..].
Qed.

End SequenceRuleFacts.

(** ** The builder of sequence rules *)

Section BuilderFacts.
Context `{CoreUtil} `{RegexpLib} `{TextLib} `{RuleLib}.
Variable decode_token : iface -> check.NLPToken.
Variable decode_Sequence : gmap string iface -> check.Sequence -> check.Sequence * error.
Variable addSequenceCheck :
  string -> check.Sequence -> check.Manager -> check.Manager * Go.Result unit.

Lemma skip_loop_replicate (tok : check.NLPToken) (n : nat) :
  forall tokens,
    Z.of_nat n < 2 ^ 63 ->
    check.skip_loop n (Z.of_nat n) tok tokens = tokens ++ replicate n tok.
Proof.
  induction n as [|n IH]; intros tokens Hn; cbn [check.skip_loop replicate].
  - by rewrite app_nil_r.
  - destruct (Z.gtb_spec (Z.of_nat (S n)) 0); [|lia].
    unfold Go.int_sub. rewrite int_wrap_small by lia.
    replace (Z.of_nat (S n) - 1) with (Z.of_nat n) by lia.
    rewrite IH by lia. by rewrite <- app_assoc.
Qed.

Lemma skip_loop_Skip (tok : check.NLPToken) (tokens : list check.NLPToken) (skip : Z) :
  skip < 2 ^ 63 ->
  check.skip_loop (Z.to_nat skip) skip tok tokens
  = tokens ++ replicate (Z.to_nat skip) tok.
Proof.
  intros Hskip. destruct (Z.le_gt_cases skip 0) as [Hle|Hgt].
  - replace (Z.to_nat skip) with 0%nat by lia. simpl. by rewrite app_nil_r.
  - rewrite <- (Z2Nat.id skip) at 2 by lia. apply skip_loop_replicate. lia.
Qed.

(** The tokens of the rule: every token of the manifest, each followed by
    as many optional copies of itself as its [skip] says. *)
Lemma sequence_tokens_expand (tokens : list iface) :
  Forall (fun token => check.Skip (decode_token token) < 2 ^ 63) tokens ->
  forall acc,
    check.sequence_tokens decode_token tokens acc
    = acc ++ (tokens ≫= fun token =>
                decode_token token
                :: replicate (Z.to_nat (check.Skip (decode_token token)))
                     (check.with_optional (decode_token token) true)).
Proof.
  induction 1 as [|token tokens Hskip _ IH]; intros acc; cbn [check.sequence_tokens].
  - simpl. by rewrite app_nil_r.
  - rewrite IH. cbn [check.with_optional check.Skip].
    rewrite skip_loop_Skip by done.
    rewrite bind_cons, <- !app_assoc. reflexivity.
Qed.

(** For a manifest whose [tokens] is a list, the rule that the sequence
    builder decodes the rest of the manifest into has, for every token of
    the manifest in order, the token and then [skip] copies of it that are
    optional. *)
Theorem sequence_builder_tokens (name : string) (generic : gmap string iface)
    (mgr : check.Manager) (tokens : list iface) :
  generic !! "tokens" = Some (ISlice tokens) ->
  Forall (fun token => check.Skip (decode_token token) < 2 ^ 63) tokens ->
  check.sequence_builder decode_token decode_Sequence addSequenceCheck name generic mgr
  = let def :=
      check.sequence_of
        (tokens ≫= fun token =>
           decode_token token
           :: replicate (Z.to_nat (check.Skip (decode_token token)))
                (check.with_optional (decode_token token) true)) in
    match decode_Sequence (delete "tokens" generic) def with
    | (def, None) =>
        let '(mgr, r) := addSequenceCheck name def mgr in
        (delete "tokens" generic, mgr, r)
    | (_, Some _) => (delete "tokens" generic, mgr, Go.Ok ())
    end.
Proof.
  intros Htokens Hskip. unfold check.sequence_builder. rewrite Htokens. simpl.
  by rewrite (sequence_tokens_expand tokens Hskip []).
Qed.

(** A sequence rule whose manifest has no list under [tokens] makes
    [addCheck] panic: the builder asserts the type of the value without
    looking whether the assertion holds. The manager is left as it was. *)
Theorem addCheck_sequence_without_tokens (builders : string -> check.builder)
    (mgr : check.Manager) (file chkName : string) (generic : gmap string iface) :
  builders "sequence"
  = check.sequence_builder decode_token decode_Sequence addSequenceCheck ->
  yaml_Unmarshal file = inr generic ->
  generic !! "extends" = Some (IString "sequence") ->
  is_Some (generic !! "message") ->
  (forall tokens, generic !! "tokens" <> Some (ISlice tokens)) ->
  exists why,
    check.addCheck builders mgr file chkName = (mgr, Go.Panic why).
Proof.
  intros Hbuilder Hyaml Hextends [message Hmessage] Htokens.
  unfold check.addCheck. rewrite Hyaml.
  assert (check.validateDefinition generic chkName = Go.Ok None) as ->.
  { unfold check.validateDefinition. rewrite Hextends, Hmessage. reflexivity. }
  set (g1 := <["name" := IString chkName]> generic).
  set (g2 := match check.RuleToLevel (check.Config_ mgr) !! chkName with
             | Some level => <["level" := IString level]> g1
             | None => match g1 !! "level" with
                       | Some _ => g1
                       | None => <["level" := IString "warning"]> g1
                       end
             end).
  set (g3 := match g2 !! "scope" with
             | Some _ => g2
             | None => <["scope" := IString "text"]> g2
             end).
  assert (Hkeep : forall key, key <> "name" -> key <> "level" -> key <> "scope" ->
                    g3 !! key = generic !! key).
  { intros key Hname Hlevel Hscope. unfold g3, g2, g1.
    repeat case_match; rewrite ?lookup_insert_ne; done. }
  rewrite (Hkeep "extends"), Hextends by done. simpl.
  unfold check.checkBuilders. simpl. rewrite Hbuilder.
  unfold check.sequence_builder. rewrite (Hkeep "tokens") by done.
  destruct (generic !! "tokens") as [[| | | |tokens|]|] eqn:Hlist; simpl; eauto.
  by destruct (Htokens tokens).
Qed.

End BuilderFacts.

(** ** The existence rule of version 2 *)

Section NewExistenceFacts.
Context `{RegexpLib} `{TextLib}.
Variable mapstructure_Decode :
  gmap string iface -> check.v2.Existence -> check.v2.Existence * error.
Variable readStructureError : string -> string -> string.
Variable NewE201FromPosition : string -> string -> Z -> string.
Variable regexp_Compile : string -> CompiledRegexp + string.

(** The errors of [NewExistence] never name the file of the rule: the
    path is taken from the manifest only when its [path] is not a string,
    and is then empty. *)
Theorem NewExistence_error_path (cfg : check.v2.Config) (generic : gmap string iface)
    (rule : check.v2.Existence) (e : string) :
  check.v2.NewExistence mapstructure_Decode readStructureError NewE201FromPosition
    regexp_Compile cfg generic = (rule, Some e) ->
  (exists err, e = readStructureError err "")
  \/ (exists msg, e = NewE201FromPosition msg "" 1).
Proof.
  unfold check.v2.NewExistence.
  destruct (generic !! "path") as [[| | |p| |]|]; simpl;
    destruct (mapstructure_Decode generic _) as [decoded [err|]];
    try (intros [= <- <-]; left; by eexists);
    destruct (regexp_Compile _) as [re|msg]; intros [= <- <-]; right; by eexists.
Qed.

End NewExistenceFacts.

Section Examples.
Import run examples.

Lemma unshared_calls : unshared calls.
Proof.
  repeat split; repeat constructor;
    intros p Hp Hp'; apply elem_of_seq in Hp, Hp'; lia.
Qed.

Lemma later_apart (hide : bool) : apart_from after_calls (later hide).
Proof.
  apply apart_from_AddAlerts; [by apply apart_from_empty|].
  repeat constructor; intros p Hp Hp'; apply elem_of_seq in Hp, Hp'; lia.
Qed.



Lemma SortedAlerts_by_position_witness :
  exists sorted,
    core.SortedAlerts linted = (core.set_Alerts linted sorted, Go.Ok sorted)
    /\ sorted ≡ₚ core.Alerts linted
    /\ forall i j ai aj,
         (i < j)%nat -> sorted !! i = Some ai -> sorted !! j = Some aj ->
         exists si sj,
           core.Span ai !! 0%nat = Some si /\ core.Span aj !! 0%nat = Some sj
           /\ (core.Line ai < core.Line aj \/ (core.Line ai = core.Line aj /\ si <= sj)).
Proof.
  apply (SortedAlerts_by_position linted insertion_SortContract).
  vm_compute. repeat constructor; discriminate.
Defined.

Lemma checkOccurrence_without_match_witness :
  check.checkOccurrence "Nothing of the kind." however (new_file "") however_pattern
  = Go.Panic "index out of range".
Proof.
  apply (checkOccurrence_without_match "Nothing of the kind." however (new_file "")
           however_pattern).
  - vm_compute. reflexivity.
  - right. vm_compute. reflexivity.
Defined.

Lemma addCheck_extends_not_string_witness :
  exists why,
    (check.addCheck no_builders manager manifest "Style.Rule").2 = Go.Panic why
    /\ (check.AddCheck no_builders manager manifest "Style.Rule").2 = Go.Panic why.
Proof.
  apply (addCheck_extends_not_string no_builders manager manifest "Style.Rule"
           (<["message" := IString "Avoid this."]> (<["extends" := IInt 5]> ∅)) (IInt 5)).
  - vm_compute. reflexivity.
  - vm_compute. reflexivity.
  - intros s. discriminate.
Defined.

Lemma checkSubstitution_only_when_differs_witness :
  exists a,
    check.checkSubstitution "Send an e-mail, not an email." email (new_file "")
      email_pattern ["email"] = Go.Ok [a]
    /\ core.Match a = "e-mail"
    /\ Forall2 (alert_for "Send an e-mail, not an email." ["email"]) [a]
         (filter (differs "Send an e-mail, not an email." ["email"])
            (all_group_matches email_pattern "Send an e-mail, not an email.")).
Proof.
  eexists. split; [vm_compute; reflexivity|]. split; [reflexivity|].
  apply (checkSubstitution_only_when_differs "Send an e-mail, not an email." email
           (new_file "") email_pattern ["email"]).
  vm_compute. reflexivity.
Defined.

Lemma checkOccurrence_with_match_witness :
  exists a,
    check.checkOccurrence however_text however (new_file "") however_pattern = Go.Ok [a]
    /\ core.Span a = [0; 7].
Proof.
  destruct (checkOccurrence_with_match however_text however (new_file "") however_pattern
              0 7 [[9; 16]; [18; 25]; [27; 34]])
    as (alerts & Hrun & Hout & _).
  - vm_compute. reflexivity.
  - lia.
  - vm_compute. discriminate.
  - destruct Hout as (a & -> & Hspan & _); [left; vm_compute; reflexivity|].
    exists a. split; done.
Defined.

Lemma addCheck_error_iff_witness :
  exists e, (check.addCheck no_builders manager unknown_manifest "Style.Rule").2
            = Go.Ok (Some e).
Proof.
  apply (addCheck_error_iff no_builders manager unknown_manifest "Style.Rule").
  - intros generic v Hyaml. vm_compute in Hyaml. injection Hyaml as <-.
    intros Hv. vm_compute in Hv. injection Hv as <-. eauto.
  - right. eexists. split; [vm_compute; reflexivity|]. right. left.
    exists "nothing". split; [vm_compute; reflexivity|].
    unfold check.extensionPoints. rewrite !elem_of_cons, elem_of_nil.
    intros Hin. repeat (destruct Hin as [Hin|Hin]; [discriminate|]). done.
Defined.

Lemma validateDefinition_other_key_witness :
  check.validateDefinition
    (<["colour" := IString "blue"]> {[ "extends" := IString "existence" ]}) "Style.Rule"
  = check.validateDefinition {[ "extends" := IString "existence" ]} "Style.Rule".
Proof. apply validateDefinition_other_key; discriminate. Defined.

Lemma checkSubstitution_returns_witness :
  exists alerts,
    check.checkSubstitution "Send an e-mail, not an email." email (new_file "")
      email_pattern ["email"] = Go.Ok alerts.
Proof.
  apply (checkSubstitution_returns "Send an e-mail, not an email." email (new_file "")
           email_pattern ["email"]).
  assert (re_FindAllStringSubmatchIndex email_pattern "Send an e-mail, not an email."
          = [[8; 14; 8; 14]; [23; 28; 23; 28]]) as -> by (vm_compute; reflexivity).
  assert (Go.strlen "Send an e-mail, not an email." = 29) as Hlen by reflexivity.
  repeat constructor; simpl; rewrite ?Hlen; lia.
Defined.

Lemma FindLoc_returns_witness :
  exists line span,
    core.FindLoc (new_file text) text text " is" 0 1 [4; 7] = Go.Ok (line, span)
    /\ (2 <= length span)%nat.
Proof.
  apply (proj1 (FindLoc_returns (new_file text) text text " is" 0 1 [4; 7])).
  simpl. lia.
Defined.

(** A match that runs over the end of the first line: the span [1, 4]
    comes back as [2, 3], the end of the line. *)
Lemma FindLoc_clamped_witness :
  [2; 3] = [0; 0] \/ [2; 3] = [1; 4]
  \/ exists l e,
       l ∈ Go.SplitAfter two_lines (ascii_of_nat 10)
       /\ [2; 3] !! 1%nat = Some e
       /\ e <= Go.int_add (Go.RuneCountInString l) 0.
Proof.
  apply (FindLoc_clamped (new_file "") two_lines two_lines over_the_line 0 1 [1; 4]
           0 [2; 3]).
  vm_compute. reflexivity.
Defined.

Lemma AddAlert_stores_new_alert_witness :
  core.Alerts (core.read (core.AddAlert after_calls (later false) text text 1 0).1)
  = core.Alerts linted ++ [core.with_loc (later false) 1 [14; 17]].
Proof.
  apply (AddAlert_stores_new_alert (start text offsets) calls (later false) text text
           1 0 1 [14; 17] 14).
  - reflexivity.
  - reflexivity.
  - exact unshared_calls.
  - vm_compute. reflexivity.
  - reflexivity.
  - lia.
  - reflexivity.
  - eexists. vm_compute. reflexivity.
  - apply Forall_forall. vm_compute. repeat constructor; discriminate.
  - apply later_apart.
Defined.

Lemma AddAlerts_append_only_witness :
  exists new,
    core.Alerts linted = core.read_alert (core.cells after_calls) <$> new
    /\ Forall visible_and_placed (core.read_alert (core.cells after_calls) <$> new).
Proof.
  destruct (AddAlerts_append_only (start text offsets) calls) as (new & _ & _ & Hread).
  exists new. apply Hread; [exact unshared_calls|].
  apply Forall_forall. intros d _. by apply apart_from_empty.
Defined.

Lemma AddAlert_panics_iff_witness :
  exists why, (core.AddAlert unmade (later false) text text 1 0).2 = Go.Panic why.
Proof.
  apply (proj1 (AddAlert_panics_iff unmade (later false) text text 1 0 (le_n 2))).
  split; [reflexivity|]. exists 1, [14; 17], 14.
  split; [vm_compute; reflexivity|]. split; [reflexivity | lia].
Defined.

Lemma UpdateComments_other_rules_witness :
  core.QueryComments (core.UpdateComments (new_file "") "vale Vale.Spelling = NO")
    "Vale.Repetition"
  = core.QueryComments (new_file "") "Vale.Repetition".
Proof.
  apply (UpdateComments_other_rules (new_file "") "vale Vale.Spelling = NO"
           "Vale.Repetition").
  - discriminate.
  - discriminate.
  - intros whole flag. vm_compute. discriminate.
  - intros whole flag. vm_compute. discriminate.
Defined.

(** An alert without severity and check, formatted at level 2 for
    Vale.Repetition, is not changed by a second call. *)
Lemma FormatAlert_fills_witness :
  core.FormatAlert (core.with_Severity (raw_alert "Vale.Repetition" "is" 4 7 false) "error")
    0 "Style.Other"
  = Go.Ok (core.with_Severity (raw_alert "Vale.Repetition" "is" 4 7 false) "error").
Proof.
  destruct (FormatAlert_fills (core.with_Severity (raw_alert "" "is" 4 7 false) "")
              (core.with_Severity (raw_alert "Vale.Repetition" "is" 4 7 false) "error")
              2 "Vale.Repetition") as (_ & _ & _ & _ & Hagain).
  - vm_compute. reflexivity.
  - discriminate.
  - unfold AlertLevels, three_levels. rewrite !elem_of_cons, elem_of_nil.
    intros [Hin|[Hin|[Hin|[]]]]; discriminate.
  - apply Hagain.
Defined.

Lemma makeAlert_returns_iff_witness :
  exists a,
    check.makeAlert (definition "existence" "Style.Very" "Avoid '%s'.") [2; 6]
      "A very, very old house." = Go.Ok a.
Proof.
  apply (proj1 (makeAlert_returns_iff (definition "existence" "Style.Very" "Avoid '%s'.")
                  [2; 6] "A very, very old house.")).
  exists 2, 6. repeat split; first [reflexivity | lia | (vm_compute; discriminate)].
Defined.

Lemma checkExistence_one_per_match_witness :
  exists alerts,
    check.checkExistence "A very, very old house." avoid (new_file "") very_pattern
    = Go.Ok alerts.
Proof.
  apply (proj1 (checkExistence_one_per_match "A very, very old house." avoid
                  (new_file "") very_pattern)).
  assert (re_FindAllStringIndex very_pattern "A very, very old house."
          = [[2; 6]; [8; 12]]) as -> by (vm_compute; reflexivity).
  repeat constructor.
  - exists 2, 6. repeat split; first [reflexivity | lia | (vm_compute; discriminate)].
  - exists 8, 12. repeat split; first [reflexivity | lia | (vm_compute; discriminate)].
Defined.

Lemma checkRepetition_adjacent_witness :
  exists a,
    check.checkRepetition text doubled (new_file "") word_pattern = Go.Ok [a]
    /\ core.Span a = [5; 10]
    /\ Forall (fun a => exists p l,
                 adjacent p l (re_FindAllStringIndex word_pattern text)
                 /\ repeats text doubled p l a) [a].
Proof.
  eexists. split; [vm_compute; reflexivity|]. split; [reflexivity|].
  apply (checkRepetition_adjacent text doubled (new_file "") word_pattern).
  vm_compute. reflexivity.
Defined.

Lemma checkRepetition_returns_witness :
  exists alerts, check.checkRepetition "is is" doubled (new_file "") word_pattern
                 = Go.Ok alerts.
Proof.
  apply (checkRepetition_returns "is is" doubled (new_file "") word_pattern).
  - intros _ s. destruct s; [reflexivity | discriminate].
  - assert (re_FindAllStringIndex word_pattern "is is" = [[0; 2]; [3; 5]]) as ->
      by (vm_compute; reflexivity).
    repeat constructor.
    + exists 0, 2. repeat split; first [reflexivity | lia | (vm_compute; discriminate)].
    + exists 3, 5. repeat split; first [reflexivity | lia | (vm_compute; discriminate)].
  - assert (re_FindAllStringIndex word_pattern "is is" = [[0; 2]; [3; 5]]) as ->
      by (vm_compute; reflexivity).
    intros p l plo hi (before & after & Heq).
    destruct before as [|b1 [|b2 before]].
    + injection Heq as <- <- _. intros [= <-] [= <-]. lia.
    + discriminate.
    + injection Heq as _ _ Heq. by destruct before.
Defined.

Lemma sequenceMatches_target_first_witness :
  check.sequenceMatches 1 noun_however "however" "however it rains"
  = Go.Panic "index out of range".
Proof.
  apply (sequenceMatches_target_first 1 noun_however "however" "however it rains"
           {| Token_Tag := ""; Token_Text := "however" |}
           [ {| Token_Tag := ""; Token_Text := "it" |};
             {| Token_Tag := ""; Token_Text := "rains" |} ]).
  - lia.
  - vm_compute. reflexivity.
  - reflexivity.
  - reflexivity.
Defined.

Lemma sequenceMatches_target_last_witness :
  check.sequenceMatches 0 however_noun "however" "it rains however"
  = Go.Panic "index out of range".
Proof.
  apply (sequenceMatches_target_last however_noun "however" "it rains however"
           [ {| Token_Tag := ""; Token_Text := "it" |};
             {| Token_Tag := ""; Token_Text := "rains" |} ]
           {| Token_Tag := ""; Token_Text := "however" |}).
  - simpl. lia.
  - vm_compute. reflexivity.
  - unfold Go.len. simpl. lia.
  - repeat constructor; discriminate.
  - reflexivity.
  - reflexivity.
Defined.

Lemma stepsToString_plain_witness :
  check.stepsToString ["very"; "unique"] = "very unique".
Proof.
  apply (stepsToString_plain ["very"; "unique"]).
  repeat constructor.
Defined.

Lemma addCheck_error_keeps_manager_witness :
  (check.addCheck no_builders manager unknown_manifest "Style.Rule").1 = manager.
Proof.
  apply (addCheck_error_keeps_manager no_builders manager unknown_manifest "Style.Rule"
           "Style.Rule: unknown extension point!").
  vm_compute. reflexivity.
Defined.

Lemma checkSequence_located_witness :
  exists a,
    check.checkSequence "however it rains" however_then (new_file "") = Go.Ok [a]
    /\ core.Span a = [0; 10] /\ core.Match a = "however it"
    /\ Forall (fun a =>
                 core.Check a = check.Name (check.Sequence_Definition however_then)
                 /\ core.Hide a = false
                 /\ exists n,
                      n = Go.Index "however it rains" (core.Match a)
                      /\ core.Span a = [n; Go.int_add n (Go.strlen (core.Match a))]
                      /\ ((n = -1
                           /\ forall k,
                                Go.slice "however it rains" k (k + Go.strlen (core.Match a))
                                <> Go.Ok (core.Match a))
                          \/ (0 <= n
                              /\ Go.slice "however it rains" n (n + Go.strlen (core.Match a))
                                 = Go.Ok (core.Match a)
                              /\ forall k, k < n ->
                                   Go.slice "however it rains" k
                                     (k + Go.strlen (core.Match a))
                                   <> Go.Ok (core.Match a)))) [a].
Proof.
  eexists. split; [vm_compute; reflexivity|]. split; [reflexivity|].
  split; [reflexivity|].
  apply (checkSequence_located "however it rains" however_then (new_file "")).
  vm_compute. reflexivity.
Defined.

Lemma checkSequence_target_first_witness :
  check.checkSequence "however it rains" noun_however (new_file "")
  = Go.Panic "index out of range".
Proof.
  apply (checkSequence_target_first "however it rains" noun_however (new_file "")
           [token "" "NN" None] [] (token "however" "" (Some however_pattern))
           however_pattern [0; 7] [] 0 7 "however"
           {| Token_Tag := ""; Token_Text := "however" |}
           [ {| Token_Tag := ""; Token_Text := "it" |};
             {| Token_Tag := ""; Token_Text := "rains" |} ]).
  - reflexivity.
  - unfold Go.len. simpl. lia.
  - constructor; [by right | constructor].
  - reflexivity.
  - discriminate.
  - reflexivity.
  - vm_compute. reflexivity.
  - reflexivity.
  - reflexivity.
  - vm_compute. reflexivity.
  - vm_compute. reflexivity.
  - reflexivity.
  - reflexivity.
Defined.

(** [tokens: [{skip: 2}, {skip: 0}]]: four tokens, the second and the
    third optional. *)
Lemma sequence_builder_tokens_witness :
  check.sequence_builder skip_token (fun _ def => (def, None))
    (fun _ def mgr => (mgr, if Go.len (check.Sequence_Tokens def) =? 4
                            then Go.Ok () else Go.Panic "other"))
    "Style.Sequence" {[ "tokens" := ISlice [IInt 2; IInt 0] ]} manager
  = (delete "tokens" {[ "tokens" := ISlice [IInt 2; IInt 0] ]}, manager, Go.Ok ()).
Proof.
  apply (sequence_builder_tokens skip_token (fun _ def => (def, None))
           (fun _ def mgr => (mgr, if Go.len (check.Sequence_Tokens def) =? 4
                                   then Go.Ok () else Go.Panic "other"))
           "Style.Sequence" {[ "tokens" := ISlice [IInt 2; IInt 0] ]} manager
           [IInt 2; IInt 0]).
  - reflexivity.
  - repeat constructor.
Defined.

Lemma addCheck_sequence_without_tokens_witness :
  exists why,
    check.addCheck sequence_builders manager sequence_manifest "Style.Sequence"
    = (manager, Go.Panic why).
Proof.
  apply (addCheck_sequence_without_tokens skip_token (fun _ def => (def, None))
           (fun _ _ mgr => (mgr, Go.Ok ())) sequence_builders manager
           sequence_manifest "Style.Sequence"
           (<["message" := IString "Avoid this."]>
              (<["extends" := IString "sequence"]> ∅))).
  - reflexivity.
  - vm_compute. reflexivity.
  - reflexivity.
  - eexists. reflexivity.
  - intros tokens. discriminate.
Defined.

(** A manifest that names its file and is rejected: the error names no
    file. *)
Lemma NewExistence_error_path_witness :
  (exists err, error_at "unknown field" "" = error_at err "")
  \/ (exists msg, error_at "unknown field" "" = error_at msg "").
Proof.
  eapply (NewExistence_error_path rejecting error_at (fun msg path _ => error_at msg path)
            (fun source => inl (regexp.Literals source))
            {| check.v2.WordTemplate := "" |}
            {[ "path" := IString "styles/Style/Very.yml" ]}).
  unfold check.v2.NewExistence. rewrite lookup_singleton_eq. reflexivity.
Defined.


End Examples.
